(** * image2pdf: the PDF worker of [main.py]

    A shallow embedding of [PDFWorker.run] (main.py, lines 115-172): the
    page geometry computed for every image, the calls made on the reportlab
    canvas, the progress and completion signals, and the two levels of
    exception handling.

    Python numbers are modelled as they are at run time: unbounded integers
    ([Z]) and IEEE-754 binary64 floats, the latter through the executable
    specification [SpecFloat] of the standard library (round to nearest,
    ties to even).  The first half of the file holds the definitions, the
    second half the lemmas: a small theory of binary64 rounding, then the
    properties of the layout and of [run]. *)

From Stdlib Require Import ZArith List String Ascii Bool Lia Sorted.
From Stdlib Require Import Reals Lra Psatz.
From Stdlib Require Import Floats.SpecFloat.
Import ListNotations.

Local Open Scope string_scope.
Local Open Scope list_scope.
Local Open Scope Z_scope.

(** ** Python exceptions and fallible computations *)

Inductive exn : Type :=
| ZeroDivisionError (msg : string)
| OverflowError (msg : string)
| ValueError (msg : string)
| OSError (msg : string).

(** [str(e)], as interpolated by the f-strings of [run]. *)
Definition str (e : exn) : string :=
  match e with
  | ZeroDivisionError m | OverflowError m | ValueError m | OSError m => m
  end.

Inductive result (A : Type) : Type :=
| Ok (a : A)
| Raise (e : exn).
Arguments Ok {A} a.
Arguments Raise {A} e.

Definition rbind {A B} (r : result A) (k : A -> result B) : result B :=
  match r with
  | Ok a => k a
  | Raise e => Raise e
  end.

Declare Scope result_scope.
Delimit Scope result_scope with result.
Notation "x <- c ;; k" := (rbind c (fun x => k))
  (at level 61, c at next level, right associativity) : result_scope.

Definition is_ok {A} (r : result A) : bool :=
  match r with Ok _ => true | Raise _ => false end.

(** ** Python numbers *)

Module Py.

(** binary64 *)
Definition prec : Z := 53.
Definition emax : Z := 1024.

Definition fdiv := SFdiv prec emax.
Definition fmul := SFmul prec emax.
Definition fsub := SFsub prec emax.
Definition flt := SFltb.

Definition is_zero (f : spec_float) : bool :=
  match f with S754_zero _ => true | _ => false end.

Definition is_finite (f : spec_float) : bool :=
  match f with S754_zero _ | S754_finite _ _ _ => true | _ => false end.

(** [float(z)] for a Python int: correctly rounded, [OverflowError] when
    the rounded value is not finite (PyLong_AsDouble). *)
Definition float_of_int (z : Z) : result spec_float :=
  let f := binary_normalize prec emax z 0 false in
  if is_finite f then Ok f
  else Raise (OverflowError "int too large to convert to float").

(** [a / b] on two Python ints (long_true_divide): the correctly rounded
    quotient of the exact integers. *)
Definition int_true_divide (a b : Z) : result spec_float :=
  if b =? 0 then Raise (ZeroDivisionError "division by zero")
  else
    let s := xorb (a <? 0) (b <? 0) in
    if a =? 0 then Ok (S754_zero s)
    else
      let '(q, e, l) := SFdiv_core_binary prec emax (Z.abs a) 0 (Z.abs b) 0 in
      let f := binary_round_aux prec emax s q e l in
      if is_finite f then Ok f
      else Raise (OverflowError "integer division result too large for a float").

(** [int(f)]: truncation toward zero. *)
Definition int_of_float (f : spec_float) : result Z :=
  match f with
  | S754_zero _ => Ok 0
  | S754_finite s m e =>
      let a := match e with
               | Zneg p => Z.shiftr (Zpos m) (Zpos p)
               | _ => Z.shiftl (Zpos m) e
               end in
      Ok (if s then - a else a)
  | S754_infinity _ =>
      Raise (OverflowError "cannot convert float infinity to integer")
  | S754_nan => Raise (ValueError "cannot convert float NaN to integer")
  end.

(** [round(f)]: the nearest integer, ties to even.  [run] does not call
    it; the specification of the progress value does. *)
Definition round_of_float (f : spec_float) : result Z :=
  match f with
  | S754_zero _ => Ok 0
  | S754_finite s m e =>
      let a := match e with
               | Zneg p =>
                   let q := Z.shiftr (Zpos m) (Zpos p) in
                   let r := Zpos m - Z.shiftl q (Zpos p) in
                   match 2 * r ?= Z.shiftl 1 (Zpos p) with
                   | Lt => q
                   | Gt => q + 1
                   | Eq => if Z.even q then q else q + 1
                   end
               | _ => Z.shiftl (Zpos m) e
               end in
      Ok (if s then - a else a)
  | S754_infinity _ =>
      Raise (OverflowError "cannot convert float infinity to integer")
  | S754_nan => Raise (ValueError "cannot convert float NaN to integer")
  end.

Inductive num : Type :=
| Int (z : Z)
| Float (f : spec_float).

Definition to_float (a : num) : result spec_float :=
  match a with
  | Int z => float_of_int z
  | Float f => Ok f
  end.

(** [a / b] *)
Definition truediv (a b : num) : result num :=
  match a, b with
  | Int x, Int y => (f <- int_true_divide x y ;; Ok (Float f))%result
  | _, _ =>
      (x <- to_float a ;;
       y <- to_float b ;;
       if is_zero y then Raise (ZeroDivisionError "float division by zero")
       else Ok (Float (fdiv x y)))%result
  end.

(** [a * b] *)
Definition mul (a b : num) : result num :=
  match a, b with
  | Int x, Int y => Ok (Int (x * y))
  | _, _ =>
      (x <- to_float a ;;
       y <- to_float b ;;
       Ok (Float (fmul x y)))%result
  end.

(** [a - b] *)
Definition sub (a b : num) : result num :=
  match a, b with
  | Int x, Int y => Ok (Int (x - y))
  | _, _ =>
      (x <- to_float a ;;
       y <- to_float b ;;
       Ok (Float (fsub x y)))%result
  end.

(** Exact comparison of an int with a float, as Python does it. *)
Definition int_float_compare (z : Z) (f : spec_float) : option comparison :=
  match f with
  | S754_nan => None
  | S754_infinity s => Some (if s then Gt else Lt)
  | S754_zero _ => Some (z ?= 0)
  | S754_finite s m e =>
      let v := if s then Zneg m else Zpos m in
      Some (match e with
            | Zneg p => Z.shiftl z (Zpos p) ?= v
            | _ => z ?= Z.shiftl v e
            end)
  end.

(** [a < b] *)
Definition lt (a b : num) : bool :=
  match a, b with
  | Int x, Int y => x <? y
  | Float x, Float y => flt x y
  | Int x, Float y =>
      match int_float_compare x y with Some Lt => true | _ => false end
  | Float x, Int y =>
      match int_float_compare y x with Some Gt => true | _ => false end
  end.

(** [min(a, b)]: the first argument unless the second is smaller. *)
Definition min (a b : num) : num := if lt b a then b else a.

(** [int(a)] *)
Definition int (a : num) : result Z :=
  match a with
  | Int z => Ok z
  | Float f => int_of_float f
  end.

(** [round(a)] *)
Definition round (a : num) : result Z :=
  match a with
  | Int z => Ok z
  | Float f => round_of_float f
  end.

End Py.

(** ** reportlab page sizes

    [reportlab.lib.units]: [inch = 72.0], [cm = inch / 2.54],
    [mm = cm * 0.1]; [reportlab.lib.pagesizes]: [A4 = (210*mm, 297*mm)].
    The decimal literals denote the nearest doubles. *)

Module Units.

Definition lit (r : result spec_float) : spec_float :=
  match r with Ok f => f | Raise _ => S754_nan end.

Definition f72 : spec_float := lit (Py.float_of_int 72).
Definition f2_54 : spec_float := lit (Py.int_true_divide 254 100).
Definition f0_1 : spec_float := lit (Py.int_true_divide 1 10).

Definition inch : spec_float := f72.
Definition cm : spec_float := Py.fdiv inch f2_54.
Definition mm : spec_float := Py.fmul cm f0_1.

Definition A4_width : spec_float := Eval vm_compute in
  Py.fmul (lit (Py.float_of_int 210)) mm.
Definition A4_height : spec_float := Eval vm_compute in
  Py.fmul (lit (Py.float_of_int 297)) mm.

Definition A4 : Py.num * Py.num := (Py.Float A4_width, Py.Float A4_height).

End Units.

(** ** Page geometry (main.py, lines 136-149)

    The arithmetic that [run] performs between reading [img.size] and
    drawing: the page size, the scale ratio, the drawn size and the
    offsets of the image on the page. *)

Record Layout : Type := mkLayout {
  page_width : Py.num;
  page_height : Py.num;
  ratio : Py.num;
  new_width : Py.num;
  new_height : Py.num;
  x : Py.num;
  y : Py.num
}.

(** Lines 136-144: the branch on [self.use_a4], without the call
    [c.setPageSize] of the first branch (see [page_geometry] below). *)
Definition page_and_ratio (use_a4 : bool) (a4 : Py.num * Py.num)
    (width height : Z) : result (Py.num * Py.num * Py.num) :=
  if negb use_a4 then
    Ok (Py.Int width, Py.Int height, Py.Int 1)
  else
    let '(a4_width, a4_height) := a4 in
    (rw <- Py.truediv a4_width (Py.Int width) ;;
     rh <- Py.truediv a4_height (Py.Int height) ;;
     Ok (a4_width, a4_height, Py.min rw rh))%result.

(** Lines 146-149. *)
Definition place (width height : Z) (pr : Py.num * Py.num * Py.num)
    : result Layout :=
  let '(page_width, page_height, ratio) := pr in
  (new_width <- Py.mul (Py.Int width) ratio ;;
   new_height <- Py.mul (Py.Int height) ratio ;;
   dx <- Py.sub page_width new_width ;;
   x <- Py.truediv dx (Py.Int 2) ;;
   dy <- Py.sub page_height new_height ;;
   y <- Py.truediv dy (Py.Int 2) ;;
   Ok (mkLayout page_width page_height ratio new_width new_height x y))%result.

Definition compute_layout_on (a4 : Py.num * Py.num) (use_a4 : bool)
    (width height : Z) : result Layout :=
  (pr <- page_and_ratio use_a4 a4 width height ;;
   place width height pr)%result.

(** The layout as [run] computes it: the fixed page is always A4. *)
Definition compute_layout : bool -> Z -> Z -> result Layout :=
  compute_layout_on Units.A4.

(** ** The reportlab canvas

    What [run] relies on from [reportlab.pdfgen.canvas.Canvas]: drawing
    calls append operators to the code of the page under construction;
    [showPage] commits that code as a page of the current page size and
    starts an empty one; [save] first commits a page under construction
    that has any code, then writes the document.  Of the calls that [run]
    makes on the canvas, [drawImage] (which reads the image file) and
    [save] (which writes the document) are the ones that raise. *)

Inductive op : Type :=
| FillColorRGB (r g b : spec_float)
| RectOp (x y width height : Py.num) (fill stroke : bool)
| ImageOp (path : string) (x y width height : Py.num).

Record Page : Type := mkPage {
  page_size : Py.num * Py.num;
  page_code : list op
}.

Record Canvas : Type := mkCanvas {
  filename : string;
  pagesize : Py.num * Py.num;
  code : list op;
  pages : list Page;
  saved : bool
}.

(** The file system and the image libraries, as far as [run] observes
    them. *)
Record World : Type := mkWorld {
  (** [Image.open(path)] followed by [img.size] *)
  image_open : string -> result (Z * Z);
  (** [c.drawImage(path, ...)] reads the file again; [None] is success *)
  image_draw : string -> option exn;
  (** writing the document to a destination; [None] is success *)
  file_write : string -> option exn
}.

Module canvas.

(** Computations on the canvas that may raise: the canvas keeps what was
    done to it before the exception. *)
Definition M (A : Type) : Type := Canvas -> Canvas * result A.

Definition ret {A} (a : A) : M A := fun c => (c, Ok a).
Definition raise {A} (e : exn) : M A := fun c => (c, Raise e).
Definition lift {A} (r : result A) : M A := fun c => (c, r).
Definition bind {A B} (m : M A) (k : A -> M B) : M B :=
  fun c =>
    match m c with
    | (c', Ok a) => k a c'
    | (c', Raise e) => (c', Raise e)
    end.

(** [rl_config.defaultPageSize] *)
Definition defaultPageSize : Py.num * Py.num := Units.A4.

(** [Canvas(filename, pagesize=None)] *)
Definition new (output_file : string) (size : option (Py.num * Py.num))
    : Canvas :=
  mkCanvas output_file
    (match size with Some s => s | None => defaultPageSize end) [] [] false.

Definition append (o : op) : M unit :=
  fun c => (mkCanvas (filename c) (pagesize c) (code c ++ [o]) (pages c)
              (saved c), Ok tt).

Definition setPageSize (size : Py.num * Py.num) : M unit :=
  fun c => (mkCanvas (filename c) size (code c) (pages c) (saved c), Ok tt).

Definition setFillColorRGB (r g b : spec_float) : M unit :=
  append (FillColorRGB r g b).

Definition rect (x y width height : Py.num) (fill stroke : bool) : M unit :=
  append (RectOp x y width height fill stroke).

Definition drawImage (w : World) (path : string)
    (x y width height : Py.num) : M unit :=
  match image_draw w path with
  | Some e => raise e
  | None => append (ImageOp path x y width height)
  end.

Definition showPage : M unit :=
  fun c => (mkCanvas (filename c) (pagesize c) []
              (pages c ++ [mkPage (pagesize c) (code c)]) (saved c), Ok tt).

Definition save (w : World) : M unit :=
  fun c =>
    let '(c1, _) := match code c with
                    | [] => (c, Ok tt)
                    | _ :: _ => showPage c
                    end in
    match file_write w (filename c1) with
    | Some e => (c1, Raise e)
    | None => (mkCanvas (filename c1) (pagesize c1) (code c1) (pages c1)
                 true, Ok tt)
    end.

End canvas.

Declare Scope canvas_scope.
Delimit Scope canvas_scope with canvas.
Notation "x <- c ;; k" := (canvas.bind c (fun x => k))
  (at level 61, c at next level, right associativity) : canvas_scope.
Notation "c ;; k" := (canvas.bind c (fun _ => k))
  (at level 61, right associativity) : canvas_scope.
Notation "' p <- c ;; k" := (canvas.bind c (fun x => let 'p := x in k))
  (at level 61, p pattern, c at next level, right associativity) : canvas_scope.

(** ** [os.path.basename] (posixpath): what follows the last slash *)

Fixpoint has_slash (p : string) : bool :=
  match p with
  | EmptyString => false
  | String c r => if Ascii.eqb c "/" then true else has_slash r
  end.

Fixpoint basename (p : string) : string :=
  match p with
  | EmptyString => EmptyString
  | String c r =>
      if has_slash r then basename r
      else if Ascii.eqb c "/" then r else p
  end.

(** ** [PDFWorker] *)

Record QColor : Type := mkQColor {
  redF : spec_float;
  greenF : spec_float;
  blueF : spec_float
}.

Record PDFWorker : Type := mkPDFWorker {
  images : list string;
  output_file : string;
  use_a4 : bool;
  bg_color : QColor
}.

(** What a run leaves behind: the canvas, the values emitted on the
    [progress] signal in order, and the list emitted on [finished]. *)
Record Outcome : Type := mkOutcome {
  document : Canvas;
  progress : list Z;
  finished : list string
}.

(** The state of the loop: the canvas, [failed_images], and the values
    emitted on [progress] so far. *)
Record LoopState : Type := mkLoopState {
  ls_canvas : Canvas;
  ls_failed : list string;
  ls_progress : list Z
}.

(** [f"{os.path.basename(img_path)} (Error: {e})"] *)
Definition image_failure (img_path : string) (e : exn) : string :=
  (basename img_path ++ " (Error: " ++ str e ++ ")")%string.

(** [f"PDF creation failed: {e}"] *)
Definition creation_failure (e : exn) : string :=
  ("PDF creation failed: " ++ str e)%string.

(** [int(idx / total * 100)] *)
Definition percent (idx total : Z) : result Z :=
  (q <- Py.truediv (Py.Int idx) (Py.Int total) ;;
   p <- Py.mul q (Py.Int 100) ;;
   Py.int p)%result.

Section Run.

Variable world : World.
Variable self : PDFWorker.

Local Open Scope canvas_scope.

(** Lines 136-149 as executed, with the call on the canvas. *)
Definition page_geometry (a4 : Py.num * Py.num) (width height : Z)
    : canvas.M Layout :=
  pr <- (if negb (use_a4 self) then
           canvas.setPageSize (Py.Int width, Py.Int height) ;;
           canvas.ret (Py.Int width, Py.Int height, Py.Int 1)
         else
           canvas.lift (page_and_ratio true a4 width height)) ;;
  canvas.lift (place width height pr).

(** The body of the inner [try] (lines 133-158). *)
Definition draw_page (a4 : Py.num * Py.num) (img_path : string)
    : canvas.M unit :=
  ' (width, height) <- canvas.lift (image_open world img_path) ;;
  l <- page_geometry a4 width height ;;
  canvas.setFillColorRGB (redF (bg_color self)) (greenF (bg_color self))
    (blueF (bg_color self)) ;;
  canvas.rect (Py.Int 0) (Py.Int 0) (page_width l) (page_height l) true false ;;
  canvas.drawImage world img_path (x l) (y l) (new_width l) (new_height l) ;;
  canvas.showPage.

(** One iteration of the [for] loop (lines 131-164).  The inner [try]
    catches every exception of [draw_page]; an exception of the progress
    computation would leave the loop. *)
Definition iteration (a4 : Py.num * Py.num) (total : Z) (idx : Z)
    (img_path : string) (st : LoopState) : LoopState * result unit :=
  let '(c, r) := draw_page a4 img_path (ls_canvas st) in
  let failed := match r with
                | Ok _ => ls_failed st
                | Raise e => ls_failed st ++ [image_failure img_path e]
                end in
  match percent idx total with
  | Ok p => (mkLoopState c failed (ls_progress st ++ [p]), Ok tt)
  | Raise e => (mkLoopState c failed (ls_progress st), Raise e)
  end.

(** [for idx, img_path in enumerate(self.images, 1)] *)
Fixpoint loop (a4 : Py.num * Py.num) (total : Z) (idx : Z)
    (imgs : list string) (st : LoopState) : LoopState * result unit :=
  match imgs with
  | [] => (st, Ok tt)
  | img_path :: rest =>
      match iteration a4 total idx img_path st with
      | (st', Ok _) => loop a4 total (idx + 1) rest st'
      | (st', Raise e) => (st', Raise e)
      end
  end.

(** [run] (lines 115-172). *)
Definition run : Outcome :=
  let failed_images := [] in
  let c := if use_a4 self
           then canvas.new (output_file self) (Some Units.A4)
           else canvas.new (output_file self) None in
  let a4 := Units.A4 in
  let total := Z.of_nat (List.length (images self)) in
  let '(st, r) := loop a4 total 1 (images self)
                    (mkLoopState c failed_images []) in
  let '(c', r') := match r with
                   | Ok _ => canvas.save world (ls_canvas st)
                   | Raise e => (ls_canvas st, Raise e)
                   end in
  let failed_images := match r' with
                       | Ok _ => ls_failed st
                       | Raise e => ls_failed st ++ [creation_failure e]
                       end in
  mkOutcome c' (ls_progress st) failed_images.

End Run.

(** Modelled from the spec's words: the progress value
    [round(index / total * 100)]. *)
Definition spec_percent (idx total : Z) : result Z :=
  (q <- Py.truediv (Py.Int idx) (Py.Int total) ;;
   p <- Py.mul q (Py.Int 100) ;;
   Py.round p)%result.

(** * Definitions used by the statements and proofs *)

(** ** Real values of binary64 numbers *)

Local Open Scope R_scope.

Definition bpow (e : Z) : R := powerRZ 2 e.
Definition F2R (m e : Z) : R := IZR m * bpow e.

(** The value of a float; the lemmas use it on finite floats only. *)
Definition B2R (f : spec_float) : R :=
  match f with
  | S754_finite s m e => F2R (cond_Zopp s (Z.pos m)) e
  | _ => 0
  end.

(** The value of a Python number. *)
Definition num_R (a : Py.num) : R :=
  match a with
  | Py.Int z => IZR z
  | Py.Float f => B2R f
  end.

(** [v] lies in the slice number [m] of width [2^e], at position [l]: on
    its lower end, below, at or above its middle. This is how [SpecFloat]
    hands a quotient or a shifted mantissa to the rounding step. *)
Definition located (m e : Z) (l : location) (v : R) : Prop :=
  match l with
  | loc_Exact => v = F2R m e
  | loc_Inexact c =>
      F2R m e < v < F2R (m + 1) e /\
      match c with
      | Lt => 2 * v < F2R (2 * m + 1) e
      | Eq => 2 * v = F2R (2 * m + 1) e
      | Gt => F2R (2 * m + 1) e < 2 * v
      end
  end.

Definition located_rec (mrs : shr_record) (e : Z) (v : R) : Prop :=
  located (shr_m mrs) e (loc_of_shr_record mrs) v.

(** [fexp] of binary64: the exponent of the grid around a number with
    [e] digits before the binary point. *)
Definition fexp64 (e : Z) : Z := Z.max (e - 53) (-1074).

(** A mantissa and exponent in the shape binary64 stores them: at most 53
    bits, and exactly 53 unless the exponent is the smallest one. *)
Definition canon (m e : Z) : Prop :=
  (0 <= m < 2 ^ 53)%Z /\ ((-1074) <= e)%Z /\ ((-1074) < e -> 2 ^ 52 <= m)%Z.

(** The last step of [binary_round_aux]: renormalise after rounding and
    build the float. *)
Definition pack (s : bool) (m e : Z) : spec_float :=
  let '(mrs, e2) := shr_fexp Py.prec Py.emax m e loc_Exact in
  match shr_m mrs with
  | Z0 => S754_zero s
  | Zpos p => if (e2 <=? Py.emax - Py.prec)%Z then S754_finite s p e2
              else S754_infinity s
  | Zneg _ => S754_nan
  end.

(** Non-negative binary64 numbers in canonical form. *)
Definition nonneg64 (f : spec_float) : Prop :=
  match f with
  | S754_zero false => True
  | S754_finite false m e => canon (Z.pos m) e /\ (e <= 971)%Z
  | _ => False
  end.

(** [r] is [v] rounded to nearest, ties to even, on the binary64 grid. *)
Definition rounds_to (v r : R) : Prop :=
  exists m e l,
    canon m e /\ located m e l v /\ r = F2R (round_nearest_even m l) e.

(** The floats 1.0, 2.0 and 100.0. *)
Definition f1 : spec_float := S754_finite false 4503599627370496 (-52).
Definition f2 : spec_float := S754_finite false 4503599627370496 (-51).
Definition f100 : spec_float := S754_finite false 7036874417766400 (-46).

(** The doubles that follow the A4 width and height. *)
Definition A4_width_succ : spec_float := S754_finite false 5236099468337992 (-43).
Definition A4_height_succ : spec_float := S754_finite false 7405340676649446 (-43).

Local Close Scope R_scope.

(** ** The loop, image by image *)

(** What happens to one image, apart from the canvas: its layout, or the
    first exception raised by the body of the inner [try]. *)
Definition attempt (world : World) (self : PDFWorker) (a4 : Py.num * Py.num)
    (img_path : string) : result Layout :=
  match image_open world img_path with
  | Raise e => Raise e
  | Ok (width, height) =>
      match compute_layout_on a4 (use_a4 self) width height with
      | Raise e => Raise e
      | Ok l =>
          match image_draw world img_path with
          | Some e => Raise e
          | None => Ok l
          end
      end
  end.

(** The operators of lines 152-153 and of line 155. *)
Definition background (self : PDFWorker) (l : Layout) : list op :=
  [FillColorRGB (redF (bg_color self)) (greenF (bg_color self))
     (blueF (bg_color self));
   RectOp (Py.Int 0) (Py.Int 0) (page_width l) (page_height l) true false].

Definition placed (img_path : string) (l : Layout) : op :=
  ImageOp img_path (x l) (y l) (new_width l) (new_height l).

(** The effect of line 138 on the canvas. *)
Definition with_pagesize (self : PDFWorker) (width height : Z) (c : Canvas)
    : Canvas :=
  if use_a4 self then c
  else mkCanvas (filename c) (Py.Int width, Py.Int height) (code c) (pages c)
         (saved c).

(** The indices that [enumerate(self.images, start)] hands out. *)
Fixpoint indices (start : Z) (n : nat) : list Z :=
  match n with
  | O => []
  | S k => start :: indices (start + 1) k
  end.

Definition percent_value (idx total : Z) : Z :=
  match percent idx total with
  | Ok p => p
  | Raise _ => 0
  end.

(** The entries that the inner [except] appends for a list of images. *)
Definition failure_entries (world : World) (self : PDFWorker)
    (a4 : Py.num * Py.num) (imgs : list string) : list string :=
  flat_map (fun img_path =>
              match attempt world self a4 img_path with
              | Ok _ => []
              | Raise e => [image_failure img_path e]
              end) imgs.

(** The images that make it onto a page. *)
Definition drawn (world : World) (self : PDFWorker) (a4 : Py.num * Py.num)
    (imgs : list string) : list string :=
  filter (fun img_path => is_ok (attempt world self a4 img_path)) imgs.

(** The canvas that [run] starts from: both constructor calls give an
    empty A4 canvas. *)
Definition blank_canvas (output_file : string) : Canvas :=
  mkCanvas output_file Units.A4 [] [] false.

(** The canvas after the loop body ran for each image in turn. *)
Definition canvas_after (world : World) (self : PDFWorker)
    (a4 : Py.num * Py.num) (imgs : list string) (c : Canvas) : Canvas :=
  fold_left (fun c img_path => fst (draw_page world self a4 img_path c)) imgs c.

(** The images that a page shows. *)
Definition op_images (o : op) : list string :=
  match o with
  | ImageOp path _ _ _ _ => [path]
  | _ => []
  end.

Definition code_images (ops : list op) : list string := flat_map op_images ops.
Definition page_images (p : Page) : list string := code_images (page_code p).
Definition document_images (c : Canvas) : list string :=
  flat_map page_images (pages c).

(** ** Example inputs *)

(** A file system: [corrupt.png] cannot be opened, [truncated.png] has a
    readable header (400x400) but cannot be drawn, [square.png] is 400x400
    and every other image is 800x600; every destination can be written. *)
Definition example_world : World :=
  mkWorld
    (fun path =>
       if String.eqb path "corrupt.png"
       then Raise (OSError "cannot identify image file")
       else if String.eqb path "truncated.png" then Ok (400, 400)
       else if String.eqb path "square.png" then Ok (400, 400)
       else Ok (800, 600))
    (fun path =>
       if String.eqb path "truncated.png"
       then Some (OSError "image file is truncated")
       else None)
    (fun _ => None).

(** The same file system with a destination that cannot be written. *)
Definition readonly_world : World :=
  mkWorld (image_open example_world) (image_draw example_world)
    (fun _ => Some (OSError "Permission denied")).

(** [QColor("white")], the default background. *)
Definition white : QColor := mkQColor f1 f1 f1.

(** ** Strings: [str.lower] and [str.endswith]

    Paths are byte strings.  [lower] changes the ASCII capitals only, which
    is all that a comparison with the ASCII suffixes below can see. *)

Definition lower_ascii (c : ascii) : ascii :=
  let n := nat_of_ascii c in
  if ((65 <=? n) && (n <=? 90))%nat then ascii_of_nat (n + 32) else c.

Fixpoint lower (s : string) : string :=
  match s with
  | EmptyString => EmptyString
  | String c r => String (lower_ascii c) (lower r)
  end.

(** [s.endswith(suffix)]: some tail of [s] is [suffix]. *)
Fixpoint endswith (s suffix : string) : bool :=
  if String.eqb s suffix then true
  else match s with
       | EmptyString => false
       | String _ r => endswith r suffix
       end.

(** ** [DragDropList] (main.py, lines 14-98) *)

Record QListWidgetItem : Type := mkItem {
  (** whether [setIcon] was called *)
  item_icon : bool;
  item_text : string;
  (** the data stored under [UserRole] *)
  item_data : string
}.

Record DragDropList : Type := mkDragDropList {
  items : list QListWidgetItem;
  (** the style sheet: the green one of [dragEnterEvent], or the default *)
  highlighted : bool
}.

(** The suffixes of line 60. *)
Definition image_suffixes : list string :=
  [".jpg"; ".jpeg"; ".png"; ".bmp"; ".tiff"].

(** [path.lower().endswith((".jpg", ...))] *)
Definition is_image_path (path : string) : bool :=
  existsb (endswith (lower path)) image_suffixes.

Definition reset_style (w : DragDropList) : DragDropList :=
  mkDragDropList (items w) false.

Section Widgets.

(** [not QPixmap(path).isNull()]: whether Qt can load the file. *)
Variable pixmap_loads : string -> bool.

(** [add_image_item] (lines 86-98) *)
Definition add_image_item (path : string) (w : DragDropList) : DragDropList :=
  let item := mkItem (pixmap_loads path) (basename path) path in
  mkDragDropList (items w ++ [item]) (highlighted w).

(** [dropEvent] (lines 52-65) for mime data with URLs, given the local file
    of each URL; without URLs the event goes to [QListWidget]. *)
Definition dropEvent (urls : list string) (w : DragDropList) : DragDropList :=
  reset_style
    (fold_left (fun w path =>
                  if is_image_path path then add_image_item path w else w)
       urls w).

End Widgets.

(** ** [ImageToPDF] (main.py, lines 207-442) *)

Inductive Dialog : Type :=
| critical (title text : string)
| warning (title text : string)
| information (title text : string)
(** [PreviewDialog(images)]: for every image, whether its label got a
    pixmap, and its tool tip *)
| preview (labels : list (bool * string)).

Inductive CursorShape : Type := WaitCursor.

Record QProgressBar : Type := mkQProgressBar {
  value : Z;
  visible : bool
}.

Record ImageToPDF : Type := mkImageToPDF {
  page_bg_color : QColor;
  worker : option PDFWorker;
  (** [page_size_combo.currentText()] *)
  page_size_combo : string;
  list_widget : DragDropList;
  progress_bar : QProgressBar;
  (** [isEnabled()] of the four buttons *)
  add_btn : bool;
  preview_btn : bool;
  clear_btn : bool;
  save_btn : bool;
  (** the stack of [QApplication.setOverrideCursor] *)
  override_cursors : list CursorShape;
  (** the message boxes and dialogs shown so far *)
  dialogs : list Dialog
}.

(** [QProgressBar.setValue]: a value outside the range 0..100 is ignored. *)
Definition setValue (v : Z) (b : QProgressBar) : QProgressBar :=
  if (0 <=? v) && (v <=? 100) then mkQProgressBar v (visible b) else b.

(** The window after [__init__]: white background, no worker, the first
    entry of the combo box selected, an empty list, a hidden progress bar
    at 0. *)
Definition new_window : ImageToPDF :=
  mkImageToPDF white None "A4 Page" (mkDragDropList [] false)
    (mkQProgressBar 0 false) true true true true [] [].

(** [[self.list_widget.item(i).data(UserRole) for i in range(count())]] *)
Definition listed_images (ui : ImageToPDF) : list string :=
  map item_data (items (list_widget ui)).

(** [set_ui_busy] (lines 433-442) *)
Definition set_ui_busy (busy : bool) (ui : ImageToPDF) : ImageToPDF :=
  mkImageToPDF (page_bg_color ui) (worker ui) (page_size_combo ui)
    (list_widget ui) (progress_bar ui)
    (negb busy) (negb busy) (negb busy) (negb busy)
    (if busy then WaitCursor :: override_cursors ui
     else tl (override_cursors ui))
    (dialogs ui).

Definition show_dialog (d : Dialog) (ui : ImageToPDF) : ImageToPDF :=
  mkImageToPDF (page_bg_color ui) (worker ui) (page_size_combo ui)
    (list_widget ui) (progress_bar ui)
    (add_btn ui) (preview_btn ui) (clear_btn ui) (save_btn ui)
    (override_cursors ui) (dialogs ui ++ [d]).

Definition with_progress_bar (b : QProgressBar) (ui : ImageToPDF) : ImageToPDF :=
  mkImageToPDF (page_bg_color ui) (worker ui) (page_size_combo ui)
    (list_widget ui) b
    (add_btn ui) (preview_btn ui) (clear_btn ui) (save_btn ui)
    (override_cursors ui) (dialogs ui).

Definition with_list_widget (w : DragDropList) (ui : ImageToPDF) : ImageToPDF :=
  mkImageToPDF (page_bg_color ui) (worker ui) (page_size_combo ui)
    w (progress_bar ui)
    (add_btn ui) (preview_btn ui) (clear_btn ui) (save_btn ui)
    (override_cursors ui) (dialogs ui).

Definition with_worker (w : PDFWorker) (ui : ImageToPDF) : ImageToPDF :=
  mkImageToPDF (page_bg_color ui) (Some w) (page_size_combo ui)
    (list_widget ui) (progress_bar ui)
    (add_btn ui) (preview_btn ui) (clear_btn ui) (save_btn ui)
    (override_cursors ui) (dialogs ui).

(** [select_bg_color] (lines 373-388), given the colour that the dialog
    returns, [None] for an invalid one (dialog cancelled). *)
Definition select_bg_color (color : option QColor) (ui : ImageToPDF)
    : ImageToPDF :=
  match color with
  | Some c =>
      mkImageToPDF c (worker ui) (page_size_combo ui)
        (list_widget ui) (progress_bar ui)
        (add_btn ui) (preview_btn ui) (clear_btn ui) (save_btn ui)
        (override_cursors ui) (dialogs ui)
  | None => ui
  end.

(** [add_images] (lines 390-394), given the files that the dialog returns. *)
Definition add_images (pixmap_loads : string -> bool) (files : list string)
    (ui : ImageToPDF) : ImageToPDF :=
  with_list_widget
    (fold_left (fun w f => add_image_item pixmap_loads f w) files
       (list_widget ui)) ui.

(** [self.list_widget.clear], the slot of the clear button *)
Definition clear (ui : ImageToPDF) : ImageToPDF :=
  with_list_widget (mkDragDropList [] (highlighted (list_widget ui))) ui.

(** [preview_images] (lines 396-403) with [PreviewDialog.__init__]
    (lines 178-205) *)
Definition preview_images (pixmap_loads : string -> bool) (ui : ImageToPDF)
    : ImageToPDF :=
  match listed_images ui with
  | [] => show_dialog (information "No Images" "No images to preview.") ui
  | _ :: _ =>
      show_dialog
        (preview (map (fun img_path => (pixmap_loads img_path, img_path))
                    (listed_images ui))) ui
  end.

(** [save_pdf] (lines 405-421), given the file name that the save dialog
    returns (empty when cancelled): the window, and the worker started. *)
Definition save_pdf (output_file : string) (ui : ImageToPDF)
    : ImageToPDF * option PDFWorker :=
  let images := listed_images ui in
  match images with
  | [] => (show_dialog (critical "Error" "No images selected!") ui, None)
  | _ :: _ =>
      if String.eqb output_file "" then (ui, None)
      else
        let ui := set_ui_busy true ui in
        let ui := with_progress_bar (setValue 0 (progress_bar ui)) ui in
        let ui := with_progress_bar
                    (mkQProgressBar (value (progress_bar ui)) true) ui in
        let use_a4 := String.eqb (page_size_combo ui) "A4 Page" in
        let w := mkPDFWorker images output_file use_a4 (page_bg_color ui) in
        (with_worker w ui, Some w)
  end.

(** ["\n".join(failed_images)] *)
Definition newline : string := String (ascii_of_nat 10) EmptyString.

(** [pdf_finished] (lines 423-431) *)
Definition pdf_finished (failed_images : list string) (ui : ImageToPDF)
    : ImageToPDF :=
  let ui := set_ui_busy false ui in
  let ui := with_progress_bar
              (mkQProgressBar (value (progress_bar ui)) false) ui in
  match failed_images with
  | _ :: _ =>
      show_dialog
        (warning "Partial Success"
           ("PDF created, but some images failed:" ++ newline
            ++ String.concat newline failed_images)%string) ui
  | [] => show_dialog (information "Success" "PDF created successfully!") ui
  end.

(** The slot connected to [progress] at line 419. *)
Definition progress_slot (ui : ImageToPDF) (p : Z) : ImageToPDF :=
  with_progress_bar (setValue p (progress_bar ui)) ui.

(** Pressing the save button: [save_pdf], then, when a worker was started,
    its [run] and the slots connected to its signals, called in the order
    of emission: [progress_bar.setValue] for every progress value, then
    [pdf_finished]. *)
Definition press_save (world : World) (output_file : string)
    (ui : ImageToPDF) : ImageToPDF * option Outcome :=
  match save_pdf output_file ui with
  | (ui, None) => (ui, None)
  | (ui, Some w) =>
      let out := run world w in
      let ui := fold_left progress_slot (progress out) ui in
      (pdf_finished (finished out) ui, Some out)
  end.

(** ** Definitions used by the statements about pages and windows *)

(** The page that a drawn image gets when nothing was left over by an
    image before it. *)
Definition image_page (self : PDFWorker) (img_path : string) (l : Layout)
    : Page :=
  mkPage (page_width l, page_height l)
    (background self l ++ [placed img_path l]).

(** The pages of a list of images none of which fails while it is drawn. *)
Definition clean_pages (world : World) (self : PDFWorker)
    (a4 : Py.num * Py.num) (imgs : list string) : list Page :=
  flat_map (fun p => match attempt world self a4 p with
                     | Ok l => [image_page self p l]
                     | Raise _ => []
                     end) imgs.

(** A layout whose background was painted without a page being committed:
    the layout of an image of the list that was opened and laid out and
    whose drawing raised. *)
Definition left_by (world : World) (self : PDFWorker)
    (a4 : Py.num * Py.num) (imgs : list string) (l : Layout) : Prop :=
  exists img_path width height e,
    In img_path imgs /\ image_open world img_path = Ok (width, height) /\
    compute_layout_on a4 (use_a4 self) width height = Ok l /\
    image_draw world img_path = Some e.

(** What a page may be, seen from the images of the list: backgrounds
    left over by images that could not be drawn, then either nothing more,
    on a page of the size of the last of them, or the background and the
    picture of an image that succeeded, on a page of its size. *)
Definition page_of_list (world : World) (self : PDFWorker)
    (a4 : Py.num * Py.num) (imgs : list string) (pg : Page) : Prop :=
  (use_a4 self = true -> page_size pg = a4) /\
  exists stale,
    Forall (left_by world self a4 imgs) stale /\
    ((exists earlier l,
        stale = earlier ++ [l] /\
        page_size pg = (page_width l, page_height l) /\
        page_code pg = flat_map (background self) stale) \/
     exists img_path l,
       In img_path imgs /\ attempt world self a4 img_path = Ok l /\
       page_size pg = (page_width l, page_height l) /\
       page_code pg
       = flat_map (background self) stale
         ++ background self l ++ [placed img_path l]).

(** The page under construction, seen from the images of the list: the
    backgrounds left over, under the page size of the last of them. *)
Definition leftover_of (world : World) (self : PDFWorker)
    (a4 : Py.num * Py.num) (imgs : list string) (c : Canvas) : Prop :=
  exists stale,
    Forall (left_by world self a4 imgs) stale /\
    code c = flat_map (background self) stale /\
    forall earlier l,
      stale = earlier ++ [l] -> pagesize c = (page_width l, page_height l).

(** The layouts of the images of a list that are opened and laid out but
    cannot be drawn, in the order of the list. *)
Definition stale_layouts (world : World) (self : PDFWorker)
    (a4 : Py.num * Py.num) (imgs : list string) : list Layout :=
  flat_map (fun img_path =>
              match image_open world img_path with
              | Ok (width, height) =>
                  match compute_layout_on a4 (use_a4 self) width height with
                  | Ok l =>
                      match image_draw world img_path with
                      | Some _ => [l]
                      | None => []
                      end
                  | Raise _ => []
                  end
              | Raise _ => []
              end) imgs.

(** Whether an image is opened and laid out but cannot be drawn: the case
    in which its background is painted and no page is committed. *)
Definition stops_at_drawing (world : World) (self : PDFWorker)
    (a4 : Py.num * Py.num) (img_path : string) : bool :=
  match image_open world img_path with
  | Ok (width, height) =>
      match compute_layout_on a4 (use_a4 self) width height with
      | Ok _ =>
          match image_draw world img_path with
          | Some _ => true
          | None => false
          end
      | Raise _ => false
      end
  | Raise _ => false
  end.

(** Whether the page under construction holds anything after the loop ran
    over a list of images, given whether it did before. *)
Definition leftover_after (world : World) (self : PDFWorker)
    (a4 : Py.num * Py.num) (imgs : list string) (b : bool) : bool :=
  fold_left (fun b img_path =>
               if is_ok (attempt world self a4 img_path) then false
               else b || stops_at_drawing world self a4 img_path) imgs b.

(** [not l], for a list. *)
Definition is_nil {A} (l : list A) : bool :=
  match l with
  | [] => true
  | _ :: _ => false
  end.

(** The same worker for another list of images. *)
Definition with_images (imgs : list string) (self : PDFWorker) : PDFWorker :=
  mkPDFWorker imgs (output_file self) (use_a4 self) (bg_color self).

(** ** The window and its worker over time

    The worker runs in a thread of its own; what reaches the window are
    its signals, queued and delivered in the order of emission to the
    slots connected at lines 419-420.  The buttons are connected to their
    slots by [setup_connections] (lines 365-371); a disabled button emits
    no click.  A drop without URLs, which moves items inside the list, goes
    to [QListWidget] and is not part of this model. *)

Inductive Signal : Type :=
| progress_signal (p : Z)
| finished_signal (failed_images : list string).

Record App : Type := mkApp {
  window : ImageToPDF;
  (** the signals emitted by the worker and not yet delivered *)
  queued : list Signal
}.

Inductive Event : Type :=
(** files dropped on the list *)
| drop_files (urls : list string)
(** clicks on the buttons, with what the dialog of the slot returns *)
| click_add (files : list string)
| click_preview
| click_clear
| click_save (dest : string)
| click_bg_color (color : option QColor)
(** another entry of the combo box chosen *)
| choose_page_size (text : string)
(** the event loop delivers the next queued signal *)
| deliver.

(** The signals of a run, in the order of emission. *)
Definition emitted (out : Outcome) : list Signal :=
  map progress_signal (progress out) ++ [finished_signal (finished out)].

(** The slot that a signal is connected to (lines 419-420). *)
Definition slot (s : Signal) (ui : ImageToPDF) : ImageToPDF :=
  match s with
  | progress_signal p => progress_slot ui p
  | finished_signal failed_images => pdf_finished failed_images ui
  end.

(** [page_size_combo] after another entry was chosen. *)
Definition with_page_size (text : string) (ui : ImageToPDF) : ImageToPDF :=
  mkImageToPDF (page_bg_color ui) (worker ui) text
    (list_widget ui) (progress_bar ui)
    (add_btn ui) (preview_btn ui) (clear_btn ui) (save_btn ui)
    (override_cursors ui) (dialogs ui).

(** What an event does to the window and the queue.  A click reaches its
    slot only when the button is enabled; a worker that [save_pdf] starts
    emits the signals of its [run]. *)
Definition handle (world : World) (pixmap_loads : string -> bool)
    (a : App) (ev : Event) : App :=
  let ui := window a in
  match ev with
  | drop_files urls =>
      mkApp (with_list_widget (dropEvent pixmap_loads urls (list_widget ui)) ui)
        (queued a)
  | click_add files =>
      if add_btn ui then mkApp (add_images pixmap_loads files ui) (queued a)
      else a
  | click_preview =>
      if preview_btn ui then mkApp (preview_images pixmap_loads ui) (queued a)
      else a
  | click_clear =>
      if clear_btn ui then mkApp (clear ui) (queued a) else a
  | click_save dest =>
      if save_btn ui then
        match save_pdf dest ui with
        | (ui', None) => mkApp ui' (queued a)
        | (ui', Some w) => mkApp ui' (queued a ++ emitted (run world w))
        end
      else a
  | click_bg_color color => mkApp (select_bg_color color ui) (queued a)
  | choose_page_size text => mkApp (with_page_size text ui) (queued a)
  | deliver =>
      match queued a with
      | [] => a
      | s :: rest => mkApp (slot s ui) rest
      end
  end.

(** The window as [__init__] and [pdf_finished] leave it. *)
Definition at_rest (ui : ImageToPDF) : Prop :=
  add_btn ui = true /\ preview_btn ui = true /\ clear_btn ui = true /\
  save_btn ui = true /\ override_cursors ui = [] /\
  visible (progress_bar ui) = false.

(** The window as [save_pdf] leaves it when it starts a worker. *)
Definition busy (ui : ImageToPDF) : Prop :=
  add_btn ui = false /\ preview_btn ui = false /\ clear_btn ui = false /\
  save_btn ui = false /\ override_cursors ui = [WaitCursor] /\
  visible (progress_bar ui) = true.

(** Every item shows the file name of the path it stores. *)
Definition named_items (ui : ImageToPDF) : Prop :=
  Forall (fun it => item_text it = basename (item_data it))
    (items (list_widget ui)).

(** The invariant of the window and the queue. *)
Definition app_ok (a : App) : Prop :=
  named_items (window a) /\
  0 <= value (progress_bar (window a)) <= 100 /\
  match queued a with
  | [] => at_rest (window a)
  | _ :: _ =>
      busy (window a) /\
      exists ps failed_images,
        queued a = map progress_signal ps ++ [finished_signal failed_images]
  end.

(** A window that holds one image. *)
Definition example_window : ImageToPDF :=
  add_images (fun _ => true) ["scans/photo.png"] new_window.

(** * Lemmas *)

(** ** Rounding in binary64 *)

Local Open Scope R_scope.

Lemma bpow_gt_0 e : 0 < bpow e.
Proof. apply powerRZ_lt; lra. Qed.

Lemma bpow_plus a b : bpow (a + b) = bpow a * bpow b.
Proof. apply powerRZ_add; lra. Qed.

Lemma bpow_0 : bpow 0 = 1.
Proof. reflexivity. Qed.

Lemma bpow_1 : bpow 1 = 2.
Proof. unfold bpow; simpl; lra. Qed.

Lemma bpow_succ e : bpow (e + 1) = 2 * bpow e.
Proof. rewrite bpow_plus, bpow_1; lra. Qed.

Lemma bpow_IZR k : (0 <= k)%Z -> bpow k = IZR (2 ^ k).
Proof.
  intros Hk. destruct k as [|p|p]; [reflexivity| |lia].
  unfold bpow. change (2 ^ Z.pos p)%Z with (Z.pow_pos 2 p).
  now rewrite Zpower_pos_powerRZ.
Qed.

Lemma bpow_ge_1 k : (0 <= k)%Z -> 1 <= bpow k.
Proof.
  intros Hk. rewrite bpow_IZR by assumption. apply IZR_le.
  assert (0 < 2 ^ k)%Z by (apply Z.pow_pos_nonneg; lia). lia.
Qed.

Lemma bpow_le a b : (a <= b)%Z -> bpow a <= bpow b.
Proof.
  intros H. replace b with (a + (b - a))%Z by lia. rewrite bpow_plus.
  pose proof (bpow_gt_0 a). pose proof (bpow_ge_1 (b - a) ltac:(lia)). nra.
Qed.

Lemma bpow_lt a b : (a < b)%Z -> bpow a < bpow b.
Proof.
  intros H. replace b with (a + 1 + (b - a - 1))%Z by lia.
  rewrite bpow_plus, bpow_succ.
  pose proof (bpow_gt_0 a). pose proof (bpow_ge_1 (b - a - 1) ltac:(lia)). nra.
Qed.

Lemma bpow_lt_inv a b : bpow a < bpow b -> (a < b)%Z.
Proof.
  intros H. destruct (Z_lt_le_dec a b) as [|Hle]; [assumption|].
  apply bpow_le in Hle. lra.
Qed.

Lemma F2R_0 e : F2R 0 e = 0.
Proof. unfold F2R; lra. Qed.

Lemma F2R_shift m e k : (0 <= k)%Z -> F2R (m * 2 ^ k) e = F2R m (e + k).
Proof.
  intros Hk. unfold F2R. rewrite mult_IZR, bpow_plus, <- (bpow_IZR k) by assumption. ring.
Qed.

Lemma F2R_le m1 m2 e : (m1 <= m2)%Z -> F2R m1 e <= F2R m2 e.
Proof.
  intros H. unfold F2R. apply IZR_le in H. pose proof (bpow_gt_0 e). nra.
Qed.

Lemma F2R_lt_inv m1 m2 e : F2R m1 e < F2R m2 e -> (m1 < m2)%Z.
Proof.
  intros H. destruct (Z_lt_le_dec m1 m2) as [|Hle]; [assumption|].
  apply (F2R_le _ _ e) in Hle. lra.
Qed.

Lemma loc_of_shr_record_of_loc m l :
  loc_of_shr_record (shr_record_of_loc m l) = l.
Proof. destruct l as [|[]]; reflexivity. Qed.

Lemma shr_m_shr_record_of_loc m l : shr_m (shr_record_of_loc m l) = m.
Proof. destruct l as [|[]]; reflexivity. Qed.

Lemma F2R_succ_exp m e : F2R m (e + 1) = 2 * F2R m e.
Proof. unfold F2R. rewrite bpow_succ. ring. Qed.

Lemma F2R_affine a b m e :
  F2R (a * m + b) e = IZR a * F2R m e + IZR b * bpow e.
Proof. unfold F2R. rewrite plus_IZR, mult_IZR. ring. Qed.

Lemma F2R_plus1 m e : F2R (m + 1) e = F2R m e + bpow e.
Proof. unfold F2R. rewrite plus_IZR. ring. Qed.

Lemma located_halve m b r s e v :
  located_rec (Build_shr_record (2 * m + Z.b2z b) r s) e v ->
  located_rec (Build_shr_record m b (r || s)) (e + 1) v.
Proof.
  unfold located_rec. cbn [shr_m].
  pose proof (bpow_gt_0 e) as Hu.
  assert (E1 : F2R (2 * m + Z.b2z b + 1) e
               = 2 * F2R m e + IZR (Z.b2z b) * bpow e + bpow e).
  { rewrite F2R_plus1, F2R_affine. reflexivity. }
  assert (E2 : F2R (2 * (2 * m + Z.b2z b) + 1) e
               = 4 * F2R m e + 2 * IZR (Z.b2z b) * bpow e + bpow e).
  { replace (2 * (2 * m + Z.b2z b) + 1)%Z with (4 * m + (2 * Z.b2z b + 1))%Z by ring.
    rewrite F2R_affine, plus_IZR, mult_IZR. ring. }
  assert (E3 : F2R (2 * m + Z.b2z b) e = 2 * F2R m e + IZR (Z.b2z b) * bpow e)
    by apply F2R_affine.
  assert (E4 : F2R (2 * m + 1) (e + 1) = 4 * F2R m e + 2 * bpow e).
  { rewrite F2R_succ_exp, F2R_affine. ring. }
  assert (E5 : F2R (m + 1) (e + 1) = 2 * F2R m e + 2 * bpow e).
  { rewrite F2R_succ_exp, F2R_plus1. ring. }
  assert (E6 : F2R m (e + 1) = 2 * F2R m e) by apply F2R_succ_exp.
  generalize dependent (F2R m e). intros A E1 E2 E3 E4 E5 E6.
  destruct b, r, s; cbn [loc_of_shr_record orb located Z.b2z] in *;
    rewrite ?E1, ?E2, ?E3, ?E4, ?E5, ?E6 in *; intros H; lra.
Qed.

Lemma shr_1_halves mrs :
  (0 <= shr_m mrs)%Z ->
  exists m b,
    (0 <= m)%Z /\ shr_m mrs = (2 * m + Z.b2z b)%Z /\
    shr_1 mrs = Build_shr_record m b (shr_r mrs || shr_s mrs).
Proof.
  destruct mrs as [m r s]. cbn [shr_m shr_r shr_s]. intros Hm.
  destruct m as [|[p|p|]|p]; [| | | |lia].
  - exists 0%Z, false. repeat split; lia.
  - exists (Z.pos p), true. repeat split; lia.
  - exists (Z.pos p), false. repeat split; lia.
  - exists 0%Z, true. repeat split; lia.
Qed.

Lemma shr_1_located mrs e v :
  (0 <= shr_m mrs)%Z -> located_rec mrs e v ->
  located_rec (shr_1 mrs) (e + 1) v /\ (0 <= shr_m (shr_1 mrs))%Z.
Proof.
  intros Hm Hl. destruct (shr_1_halves mrs Hm) as (m & b & Hm0 & Em & ->).
  split; [|assumption].
  apply located_halve. destruct mrs as [m0 r s]. cbn [shr_m shr_r shr_s] in *.
  subst m0. exact Hl.
Qed.

Lemma iter_shr_1_located p : forall mrs e v,
  (0 <= shr_m mrs)%Z -> located_rec mrs e v ->
  located_rec (iter_pos shr_1 p mrs) (e + Z.pos p) v /\
  (0 <= shr_m (iter_pos shr_1 p mrs))%Z.
Proof.
  induction p as [p IH|p IH|]; intros mrs e v Hm Hl; cbn [iter_pos].
  - destruct (shr_1_located _ _ _ Hm Hl) as [H1 H1m].
    destruct (IH _ _ _ H1m H1) as [H2 H2m].
    destruct (IH _ _ _ H2m H2) as [H3 H3m].
    replace (e + Z.pos p~1)%Z with (e + 1 + Z.pos p + Z.pos p)%Z by lia.
    split; assumption.
  - destruct (IH _ _ _ Hm Hl) as [H2 H2m].
    destruct (IH _ _ _ H2m H2) as [H3 H3m].
    replace (e + Z.pos p~0)%Z with (e + Z.pos p + Z.pos p)%Z by lia.
    split; assumption.
  - exact (shr_1_located _ _ _ Hm Hl).
Qed.

(** *** Number of binary digits *)

Lemma digits2_pos_size p : digits2_pos p = Pos.size p.
Proof. induction p; simpl; congruence. Qed.

Lemma Zdigits2_bounds m :
  (0 < m)%Z -> (2 ^ (Zdigits2 m - 1) <= m < 2 ^ Zdigits2 m)%Z.
Proof.
  intros Hm. destruct m as [|p|p]; try lia.
  simpl Zdigits2. rewrite digits2_pos_size.
  pose proof (Pos.size_gt p) as Hgt. pose proof (Pos.size_le p) as Hle.
  assert (Hp : (Z.pos (2 ^ Pos.size p) = 2 ^ Z.pos (Pos.size p))%Z)
    by apply Pos2Z.inj_pow.
  split.
  - assert (2 * 2 ^ (Z.pos (Pos.size p) - 1) = 2 ^ Z.pos (Pos.size p))%Z.
    { rewrite <- Z.pow_succ_r by lia. f_equal; lia. }
    lia.
  - lia.
Qed.

Lemma Zdigits2_nonneg m : (0 <= Zdigits2 m)%Z.
Proof. destruct m; simpl; lia. Qed.

Lemma Zdigits2_pos m : (0 < m)%Z -> (0 < Zdigits2 m)%Z.
Proof. destruct m; simpl; lia. Qed.

Lemma Zdigits2_unique m d :
  (0 < d)%Z -> (2 ^ (d - 1) <= m < 2 ^ d)%Z -> Zdigits2 m = d.
Proof.
  intros Hd [Hlo Hhi].
  assert (Hm : (0 < m)%Z).
  { assert (0 < 2 ^ (d - 1))%Z by (apply Z.pow_pos_nonneg; lia). lia. }
  destruct (Zdigits2_bounds m Hm) as [Hlo' Hhi'].
  pose proof (Zdigits2_pos m Hm) as Hdp.
  destruct (Z.lt_trichotomy (Zdigits2 m) d) as [H|[H|H]]; [|assumption|].
  - assert (Hp : (2 ^ Zdigits2 m <= 2 ^ (d - 1))%Z) by (apply Z.pow_le_mono_r; lia). lia.
  - assert (Hp : (2 ^ d <= 2 ^ (Zdigits2 m - 1))%Z) by (apply Z.pow_le_mono_r; lia). lia.
Qed.

Lemma Zdigits2_le_iff m d :
  (0 <= m)%Z -> (0 <= d)%Z -> (Zdigits2 m <= d)%Z <-> (m < 2 ^ d)%Z.
Proof.
  intros Hm Hd. destruct (Z.eq_dec m 0) as [->|Hne].
  - cbn [Zdigits2]. split; intros _; [apply Z.pow_pos_nonneg; lia|lia].
  - destruct (Zdigits2_bounds m ltac:(lia)) as [Hlo Hhi].
    pose proof (Zdigits2_pos m ltac:(lia)) as Hdp.
    split; intros H.
    + assert (Hp : (2 ^ Zdigits2 m <= 2 ^ d)%Z) by (apply Z.pow_le_mono_r; lia). lia.
    + destruct (Z_le_gt_dec (Zdigits2 m) d); [assumption|].
      assert (Hp : (2 ^ d <= 2 ^ (Zdigits2 m - 1))%Z) by (apply Z.pow_le_mono_r; lia). lia.
Qed.

(** *** Shifting to the binary64 grid *)

Lemma fexp_eq e : fexp Py.prec Py.emax e = fexp64 e.
Proof. reflexivity. Qed.

Lemma located_bounds m e l v :
  located m e l v -> F2R m e <= v < F2R (m + 1) e.
Proof.
  destruct l as [|c]; simpl.
  - intros ->. split; [lra|]. unfold F2R. rewrite plus_IZR.
    pose proof (bpow_gt_0 e). lra.
  - intros [[H1 H2] _]. lra.
Qed.

Lemma shr_fexp_located m e l v :
  (0 <= m)%Z -> (e <= fexp64 (Zdigits2 m + e))%Z -> located m e l v ->
  exists mrs e1,
    shr_fexp Py.prec Py.emax m e l = (mrs, e1) /\
    located_rec mrs e1 v /\ canon (shr_m mrs) e1.
Proof.
  intros Hm Had Hl. unfold shr_fexp. rewrite fexp_eq.
  set (d := Zdigits2 m) in *.
  assert (Hd : (0 <= d)%Z) by apply Zdigits2_nonneg.
  assert (Hmd : (m < 2 ^ d)%Z) by (apply Zdigits2_le_iff; lia).
  destruct (located_bounds _ _ _ _ Hl) as [Hlo Hhi].
  remember (fexp64 (d + e) - e)%Z as n eqn:Hn.
  destruct n as [|p|p]; [| |lia].
  - (* no shift *)
    simpl. eexists _, _; split; [reflexivity|].
    unfold located_rec. rewrite loc_of_shr_record_of_loc, shr_m_shr_record_of_loc.
    split; [assumption|]. unfold canon, fexp64 in *.
    assert (d <= 53)%Z by lia.
    repeat split; try lia.
    + assert (2 ^ d <= 2 ^ 53)%Z by (apply Z.pow_le_mono_r; lia). lia.
    + intros He. assert (d = 53)%Z by lia.
      destruct (Z.eq_dec m 0) as [->|Hne]; [subst d; simpl in *; lia|].
      destruct (Zdigits2_bounds m ltac:(lia)) as [Hb _]. fold d in Hb.
      replace (d - 1)%Z with 52%Z in Hb by lia. assumption.
  - (* shift by p *)
    simpl shr.
    assert (H0 : (0 <= shr_m (shr_record_of_loc m l))%Z)
      by now rewrite shr_m_shr_record_of_loc.
    assert (Hl0 : located_rec (shr_record_of_loc m l) e v).
    { unfold located_rec.
      now rewrite loc_of_shr_record_of_loc, shr_m_shr_record_of_loc. }
    destruct (iter_shr_1_located p _ _ _ H0 Hl0) as [Hl1 Hm1].
    eexists _, _; split; [reflexivity|]. split; [assumption|].
    set (mrs := iter_pos shr_1 p (shr_record_of_loc m l)) in *.
    set (e1 := (e + Z.pos p)%Z) in *.
    assert (He1 : e1 = fexp64 (d + e)) by (unfold e1; lia).
    destruct (located_bounds _ _ _ _ Hl1) as [Hlo1 Hhi1].
    assert (Hvd : v < bpow (d + e)).
    { eapply Rlt_le_trans; [apply Hhi|]. unfold F2R. rewrite bpow_plus.
      rewrite (bpow_IZR d) by assumption.
      assert (IZR (m + 1) <= IZR (2 ^ d)) by (apply IZR_le; lia).
      pose proof (bpow_gt_0 e). nra. }
    unfold canon. split; [split; [assumption|]|split].
    + apply (F2R_lt_inv _ _ e1). eapply Rle_lt_trans; [apply Hlo1|].
      eapply Rlt_le_trans; [apply Hvd|].
      unfold F2R. rewrite <- (bpow_IZR 53) by lia. rewrite <- bpow_plus.
      apply bpow_le. unfold fexp64 in He1. lia.
    + unfold fexp64 in He1. lia.
    + intros He. assert (He1' : e1 = (d + e - 53)%Z) by (unfold fexp64 in He1; lia).
      assert (Hmpos : (0 < m)%Z).
      { destruct (Z.eq_dec m 0) as [->|]; [|lia].
        subst d. simpl in *. unfold fexp64 in He1. lia. }
      destruct (Zdigits2_bounds m Hmpos) as [Hb _]. fold d in Hb.
      assert (Hv52 : bpow (52 + e1) <= v).
      { eapply Rle_trans; [|apply Hlo]. unfold F2R.
        replace (52 + e1)%Z with ((d - 1) + e)%Z by lia.
        rewrite bpow_plus, (bpow_IZR (d - 1)) by (pose proof (Zdigits2_pos m Hmpos); lia).
        apply IZR_le in Hb. pose proof (bpow_gt_0 e). nra. }
      assert (Hlt : F2R (2 ^ 52) e1 < F2R (shr_m mrs + 1) e1).
      { eapply Rle_lt_trans; [|apply Hhi1].
        unfold F2R. rewrite <- (bpow_IZR 52) by lia. rewrite <- bpow_plus.
        assumption. }
      apply F2R_lt_inv in Hlt. lia.
Qed.

(** *** Rounding to nearest, ties to even *)

Lemma rne_cases m l :
  round_nearest_even m l = m \/ round_nearest_even m l = (m + 1)%Z.
Proof.
  destruct l as [|[]]; cbn [round_nearest_even]; auto.
  destruct (Z.even m); auto.
Qed.

Lemma rne_error m e l v :
  located m e l v -> Rabs (F2R (round_nearest_even m l) e - v) <= bpow e / 2.
Proof.
  pose proof (bpow_gt_0 e) as Hu.
  assert (E1 : F2R (m + 1) e = F2R m e + bpow e) by apply F2R_plus1.
  assert (E2 : F2R (2 * m + 1) e = 2 * F2R m e + bpow e).
  { rewrite F2R_affine. lra. }
  destruct l as [|[]]; cbn [round_nearest_even located];
    try destruct (Z.even m); rewrite ?E1, ?E2; intros H;
    apply Rabs_le; lra.
Qed.

Lemma rne_monotone m e l v m' e' l' v' :
  canon m e -> canon m' e' -> located m e l v -> located m' e' l' v' ->
  v <= v' ->
  F2R (round_nearest_even m l) e <= F2R (round_nearest_even m' l') e'.
Proof.
  intros (Hm & He & Hn) (Hm' & He' & Hn') Hl Hl' Hv.
  destruct (located_bounds _ _ _ _ Hl) as [Hlo Hhi].
  destruct (located_bounds _ _ _ _ Hl') as [Hlo' Hhi'].
  assert (B53 : forall k, F2R (2 ^ 53) k = bpow (53 + k)).
  { intros k. unfold F2R. rewrite <- (bpow_IZR 53) by lia. now rewrite bpow_plus. }
  assert (B52 : forall k, F2R (2 ^ 52) k = bpow (52 + k)).
  { intros k. unfold F2R. rewrite <- (bpow_IZR 52) by lia. now rewrite bpow_plus. }
  destruct (Z.lt_trichotomy e e') as [Hee|[Hee|Hee]].
  - (* the smaller value lives on a finer grid *)
    apply Rle_trans with (F2R (2 ^ 53) e).
    { apply F2R_le. destruct (rne_cases m l) as [-> | ->]; lia. }
    apply Rle_trans with (F2R (2 ^ 52) e').
    { rewrite B53, B52. apply bpow_le. lia. }
    apply F2R_le. destruct (rne_cases m' l') as [-> | ->]; lia.
  - subst e'.
    destruct (Z.lt_trichotomy m m') as [Hmm|[Hmm|Hmm]].
    + apply F2R_le.
      destruct (rne_cases m l) as [-> | ->];
        destruct (rne_cases m' l') as [-> | ->]; lia.
    + subst m'.
      pose proof (bpow_gt_0 e) as Hu.
      assert (E1 : F2R (m + 1) e = F2R m e + bpow e) by apply F2R_plus1.
      assert (E2 : F2R (2 * m + 1) e = 2 * F2R m e + bpow e).
      { rewrite F2R_affine. lra. }
      destruct l as [|[]]; destruct l' as [|[]];
        cbn [round_nearest_even located] in *;
        try destruct (Z.even m); rewrite ?E1, ?E2 in *; lra.
    + exfalso. assert (F2R (m' + 1) e <= F2R m e) by (apply F2R_le; lia). lra.
  - exfalso.
    assert (F2R (m' + 1) e' <= F2R (2 ^ 53) e') by (apply F2R_le; lia).
    assert (F2R (2 ^ 52) e <= F2R m e) by (apply F2R_le; lia).
    assert (bpow (53 + e') <= bpow (52 + e)) by (apply bpow_le; lia).
    rewrite B53 in *. rewrite B52 in *. lra.
Qed.

Theorem binary_round_aux_correct s m e l v :
  (0 <= m)%Z -> (e <= fexp64 (Zdigits2 m + e))%Z -> located m e l v ->
  exists m1 e1 l1,
    canon m1 e1 /\ located m1 e1 l1 v /\
    binary_round_aux Py.prec Py.emax s m e l
    = pack s (round_nearest_even m1 l1) e1.
Proof.
  intros Hm Had Hl.
  destruct (shr_fexp_located m e l v Hm Had Hl) as (mrs & e1 & E & Hl1 & Hc).
  exists (shr_m mrs), e1, (loc_of_shr_record mrs).
  split; [assumption|]. split; [assumption|].
  unfold binary_round_aux, pack. rewrite E. reflexivity.
Qed.

Lemma pack_value m e :
  (0 <= m <= 2 ^ 53)%Z -> ((-1074) <= e)%Z -> ((-1074) < e -> 2 ^ 52 <= m)%Z ->
  F2R m e < bpow 1024 ->
  nonneg64 (pack false m e) /\ B2R (pack false m e) = F2R m e.
Proof.
  intros Hm He Hn Hv.
  assert (Hex : ((-1074) < e -> e + 52 < 1024)%Z).
  { intros H. apply bpow_lt_inv. eapply Rle_lt_trans; [|apply Hv].
    unfold F2R. rewrite bpow_plus, (bpow_IZR 52) by lia.
    specialize (Hn H). apply IZR_le in Hn. pose proof (bpow_gt_0 e). nra. }
  unfold pack, shr_fexp. rewrite fexp_eq.
  destruct (Z.eq_dec m (2 ^ 53)) as [->|Hne].
  - assert (He53 : (e + 53 < 1024)%Z).
    { apply bpow_lt_inv. eapply Rle_lt_trans; [|apply Hv].
      unfold F2R. rewrite bpow_plus, (bpow_IZR 53) by lia.
      pose proof (bpow_gt_0 e). nra. }
    change (Zdigits2 (2 ^ 53)) with 54%Z.
    replace (fexp64 (54 + e) - e)%Z with 1%Z by (unfold fexp64; lia).
    cbn [shr iter_pos shr_record_of_loc]. 
    change (shr_m (shr_1 {| shr_m := 2 ^ 53; shr_r := false; shr_s := false |}))
      with (2 ^ 52)%Z.
    change (2 ^ 52)%Z with (Z.pos (2 ^ 52)).
    cbv iota beta.
    replace (e + 1 <=? Py.emax - Py.prec)%Z with true
      by (symmetry; apply Z.leb_le; unfold Py.emax, Py.prec; lia).
    split.
    + cbn [nonneg64]. split; [|lia]. unfold canon. 
      change (Z.pos (2 ^ 52)) with (2 ^ 52)%Z. lia.
    + cbn [B2R cond_Zopp]. change (Z.pos (2 ^ 52)) with (2 ^ 52)%Z.
      change (2 ^ 53)%Z with (2 ^ 52 * 2 ^ 1)%Z.
      rewrite F2R_shift by lia. f_equal; lia.
  - assert (Hd : (Zdigits2 m <= 53)%Z) by (apply Zdigits2_le_iff; lia).
    pose proof (Zdigits2_nonneg m) as Hd0.
    remember (fexp64 (Zdigits2 m + e) - e)%Z as n eqn:Hn'.
    assert (Hle : (n <= 0)%Z) by (unfold fexp64 in Hn'; lia).
    assert (Hshr : shr (shr_record_of_loc m loc_Exact) e n
                   = (shr_record_of_loc m loc_Exact, e)).
    { destruct n; try reflexivity. lia. }
    rewrite Hshr. cbn [shr_record_of_loc shr_m].
    destruct m as [|p|p]; [| |lia].
    + split; [exact I|]. cbn [B2R]. now rewrite F2R_0.
    + replace (e <=? Py.emax - Py.prec)%Z with true
        by (symmetry; apply Z.leb_le; unfold Py.emax, Py.prec; lia).
      split; [|reflexivity].
      cbn [nonneg64]. split; [|lia]. unfold canon. lia.
Qed.

Lemma rounds_to_monotone v r v' r' :
  rounds_to v r -> rounds_to v' r' -> v <= v' -> r <= r'.
Proof.
  intros (m & e & l & Hc & Hl & ->) (m' & e' & l' & Hc' & Hl' & ->) Hv.
  eapply rne_monotone; eassumption.
Qed.

Lemma B2R_nonneg f : nonneg64 f -> 0 <= B2R f.
Proof.
  destruct f as [[]| | |[] m e]; cbn; try tauto; try lra.
  intros _. unfold F2R. pose proof (bpow_gt_0 e).
  assert (0 < IZR (Z.pos m)) by (apply IZR_lt; lia). nra.
Qed.

Lemma B2R_lt_max f : nonneg64 f -> B2R f < bpow 1024.
Proof.
  destruct f as [[]| | |[] m e]; cbn [nonneg64 B2R cond_Zopp]; try tauto.
  - intros _. apply bpow_gt_0.
  - intros [(Hm & He & Hn) Hx].
    apply Rlt_le_trans with (F2R (2 ^ 53) e).
    + unfold F2R. pose proof (bpow_gt_0 e).
      assert (IZR (Z.pos m) < IZR (2 ^ 53)) by (apply IZR_lt; lia). nra.
    + unfold F2R. rewrite <- (bpow_IZR 53) by lia. rewrite <- bpow_plus.
      apply bpow_le. lia.
Qed.

Lemma nonneg64_finite x : nonneg64 x -> Py.is_finite x = true.
Proof. destruct x as [[]| | |[] ? ?]; cbn; tauto. Qed.

Lemma rounds_to_exact f : nonneg64 f -> rounds_to (B2R f) (B2R f).
Proof.
  destruct f as [[]| | |[] m e]; cbn [nonneg64 B2R cond_Zopp]; try tauto.
  - intros _. exists 0%Z, (-1074)%Z, loc_Exact. 
    split; [unfold canon; lia|]. cbn [located round_nearest_even].
    rewrite F2R_0. split; reflexivity.
  - intros [Hc _]. exists (Z.pos m), e, loc_Exact.
    split; [assumption|]. cbn [located round_nearest_even]. split; reflexivity.
Qed.

Lemma rounds_to_nonneg v r : rounds_to v r -> 0 <= r.
Proof.
  intros (m & e & l & (Hm & _) & _ & ->).
  unfold F2R. pose proof (bpow_gt_0 e).
  assert (0 <= IZR (round_nearest_even m l)).
  { apply IZR_le. destruct (rne_cases m l) as [-> | ->]; lia. }
  nra.
Qed.

(** The general rounding step of the float operations. *)
Theorem round_correct m e l v f :
  (0 <= m)%Z -> (e <= fexp64 (Zdigits2 m + e))%Z -> located m e l v ->
  nonneg64 f -> v <= B2R f ->
  nonneg64 (binary_round_aux Py.prec Py.emax false m e l) /\
  rounds_to v (B2R (binary_round_aux Py.prec Py.emax false m e l)).
Proof.
  intros Hm Had Hl Hf Hv.
  destruct (binary_round_aux_correct false m e l v Hm Had Hl)
    as (m1 & e1 & l1 & Hc & Hl1 & ->).
  assert (Hr : rounds_to v (F2R (round_nearest_even m1 l1) e1))
    by (exists m1, e1, l1; auto).
  pose proof (rounds_to_monotone _ _ _ _ Hr (rounds_to_exact f Hf) Hv) as Hle.
  pose proof (B2R_lt_max f Hf) as Hmax.
  destruct Hc as (Hm1 & He1 & Hn1).
  destruct (pack_value (round_nearest_even m1 l1) e1) as [Hp1 Hp2].
  - destruct (rne_cases m1 l1) as [-> | ->]; lia.
  - assumption.
  - intros H. specialize (Hn1 H). destruct (rne_cases m1 l1) as [-> | ->]; lia.
  - lra.
  - split; [assumption|]. rewrite Hp2. assumption.
Qed.

(** *** Division *)

Lemma new_location_spec m2 r :
  (0 <= r < m2)%Z ->
  new_location m2 r =
  if (r =? 0)%Z then loc_Exact else loc_Inexact (2 * r ?= m2)%Z.
Proof.
  intros Hr. unfold new_location.
  destruct (Z.even m2) eqn:Ev.
  - reflexivity.
  - unfold new_location_odd. destruct (r =? 0)%Z; [reflexivity|].
    f_equal.
    assert (Hodd : Z.odd m2 = true) by (rewrite <- Z.negb_even, Ev; reflexivity).
    apply Z.odd_spec in Hodd. destruct Hodd as [k ->].
    destruct (Z.compare_spec (2 * r + 1) (2 * k + 1));
      destruct (Z.compare_spec (2 * r) (2 * k + 1)); try reflexivity; lia.
Qed.

Lemma quotient_located q r m2 e v :
  (0 < m2)%Z -> (0 <= r < m2)%Z ->
  v * IZR m2 = IZR (m2 * q + r) * bpow e ->
  located q e (new_location m2 r) v.
Proof.
  intros Hm2 Hr Hv. rewrite new_location_spec by assumption.
  pose proof (bpow_gt_0 e) as Hu.
  assert (HM : 0 < IZR m2) by (apply IZR_lt; lia).
  rewrite plus_IZR, mult_IZR in Hv.
  assert (Hv' : v = F2R q e + IZR r * bpow e / IZR m2).
  { unfold F2R. field_simplify_eq; [|lra]. rewrite Hv. ring. }
  set (B := IZR r * bpow e / IZR m2) in *.
  destruct (Z.eqb_spec r 0) as [->|Hne].
  - cbn [located]. unfold B in Hv'. rewrite Hv'. unfold Rdiv. ring.
  - assert (HB0 : 0 < B).
    { unfold B. apply Rdiv_lt_0_compat; [|assumption].
      apply Rmult_lt_0_compat; [apply IZR_lt; lia|assumption]. }
    assert (HB1 : B < bpow e).
    { unfold B. apply Rmult_lt_reg_r with (IZR m2); [assumption|].
      unfold Rdiv. rewrite Rmult_assoc, Rinv_l, Rmult_1_r by lra.
      rewrite (Rmult_comm (bpow e)). apply Rmult_lt_compat_r; [assumption|].
      apply IZR_lt; lia. }
    assert (E2 : 2 * B - bpow e = IZR (2 * r - m2) * (bpow e / IZR m2)).
    { unfold B. rewrite minus_IZR, mult_IZR. field. lra. }
    assert (HS : 0 < bpow e / IZR m2) by (apply Rdiv_lt_0_compat; assumption).
    cbn [located]. rewrite F2R_plus1, F2R_affine. 
    split; [lra|].
    destruct (Z.compare_spec (2 * r) m2) as [H|H|H].
    + assert (IZR (2 * r - m2) = 0) by (apply IZR_eq; lia). 
      replace (IZR 1) with 1 by reflexivity. replace (IZR 2) with 2 by reflexivity. nra.
    + assert (IZR (2 * r - m2) < 0) by (apply IZR_lt; lia).
      replace (IZR 1) with 1 by reflexivity. replace (IZR 2) with 2 by reflexivity. nra.
    + assert (0 < IZR (2 * r - m2)) by (apply IZR_lt; lia).
      replace (IZR 1) with 1 by reflexivity. replace (IZR 2) with 2 by reflexivity. nra.
Qed.

Lemma div_core_correct m1 e1 m2 e2 :
  (0 < m1)%Z -> (0 < m2)%Z ->
  exists q e l,
    SFdiv_core_binary Py.prec Py.emax m1 e1 m2 e2 = (q, e, l) /\
    (0 <= q)%Z /\ (e <= fexp64 (Zdigits2 q + e))%Z /\
    located q e l (F2R m1 e1 / F2R m2 e2).
Proof.
  intros Hm1 Hm2. unfold SFdiv_core_binary. rewrite fexp_eq.
  set (d1 := Zdigits2 m1). set (d2 := Zdigits2 m2).
  set (e' := Z.min (fexp64 (d1 + e1 - (d2 + e2))) (e1 - e2)).
  set (s := (e1 - e2 - e')%Z).
  assert (Hs : (0 <= s)%Z) by (unfold s, e'; lia).
  set (m' := match s with
             | 0%Z => m1
             | Z.pos _ => Z.shiftl m1 s
             | Z.neg _ => 0%Z
             end).
  assert (Em' : m' = (m1 * 2 ^ s)%Z).
  { unfold m'. destruct s as [|p|p]; [lia| |lia].
    apply Z.shiftl_mul_pow2. lia. }
  pose proof (Z_div_mod m' m2 ltac:(lia)) as Hdm.
  destruct (Z.div_eucl m' m2) as [q r]. destruct Hdm as [Hq Hr].
  assert (H2s : (0 < 2 ^ s)%Z) by (apply Z.pow_pos_nonneg; lia).
  assert (Hq0 : (0 <= q)%Z) by nia.
  exists q, e', (new_location m2 r). split; [reflexivity|].
  split; [assumption|]. split.
  - (* enough digits in the quotient *)
    destruct (Z_le_gt_dec e' (-1074)) as [|He']; [unfold fexp64; lia|].
    assert (HD : (e' <= d1 + e1 - (d2 + e2) - 53)%Z) by (unfold e', fexp64 in *; lia).
    destruct (Zdigits2_bounds m1 Hm1) as [Hlo1 _]. fold d1 in Hlo1.
    destruct (Zdigits2_bounds m2 Hm2) as [_ Hhi2]. fold d2 in Hhi2.
    pose proof (Zdigits2_pos m1 Hm1) as Hd1. fold d1 in Hd1.
    pose proof (Zdigits2_pos m2 Hm2) as Hd2. fold d2 in Hd2.
    assert (Hq52 : (2 ^ 52 <= q)%Z).
    { assert (Hpow : (2 ^ (52 + d2) <= 2 ^ (d1 - 1) * 2 ^ s)%Z).
      { rewrite <- Z.pow_add_r by lia. apply Z.pow_le_mono_r; unfold s; lia. }
      rewrite Z.pow_add_r in Hpow by lia.
      assert (2 ^ (d1 - 1) * 2 ^ s <= m1 * 2 ^ s)%Z by nia.
      assert (Hlt : (2 ^ 52 * m2 < m2 * q + m2)%Z) by nia.
      nia. }
    assert (Hdq : ~ (Zdigits2 q <= 52)%Z).
    { intros H. apply Zdigits2_le_iff in H; lia. }
    unfold fexp64. lia.
  - apply quotient_located; [assumption|assumption|].
    rewrite <- Hq, Em', mult_IZR, <- (bpow_IZR s) by assumption.
    unfold F2R. replace e1 with (e2 + e' + s)%Z by (unfold s; lia).
    rewrite !bpow_plus.
    assert (0 < IZR m2) by (apply IZR_lt; lia).
    pose proof (bpow_gt_0 e2). field. split; lra.
Qed.

Lemma rounds_to_unique v r r' : rounds_to v r -> rounds_to v r' -> r = r'.
Proof.
  intros H H'.
  pose proof (rounds_to_monotone _ _ _ _ H H' (Rle_refl v)).
  pose proof (rounds_to_monotone _ _ _ _ H' H (Rle_refl v)).
  lra.
Qed.

Lemma rounds_to_error v r :
  bpow (-1021) <= v -> rounds_to v r -> Rabs (r - v) <= v * bpow (-53).
Proof.
  intros Hv (m & e & l & (Hm & He & Hn) & Hl & ->).
  destruct (located_bounds _ _ _ _ Hl) as [Hlo Hhi].
  pose proof (rne_error _ _ _ _ Hl) as Herr.
  assert (Hgt : (-1074 < e)%Z).
  { destruct (Z_lt_le_dec (-1074) e) as [|Hle]; [assumption|exfalso].
    assert (e = (-1074)%Z) by lia. subst e.
    assert (F2R (m + 1) (-1074) <= F2R (2 ^ 53) (-1074)) by (apply F2R_le; lia).
    assert (F2R (2 ^ 53) (-1074) = bpow (-1021)).
    { unfold F2R. rewrite <- (bpow_IZR 53) by lia. now rewrite <- bpow_plus. }
    lra. }
  specialize (Hn Hgt).
  assert (F2R (2 ^ 52) e <= F2R m e) by (apply F2R_le; lia).
  assert (E : F2R (2 ^ 52) e * bpow (-53) = bpow e / 2).
  { unfold F2R. rewrite <- (bpow_IZR 52) by lia.
    replace (bpow 52 * bpow e * bpow (-53)) with (bpow (52 + e + -53))
      by (now rewrite !bpow_plus).
    replace (52 + e + -53)%Z with (e - 1)%Z by lia.
    pose proof (bpow_succ (e - 1)) as Hs.
    replace (e - 1 + 1)%Z with e in Hs by lia. lra. }
  pose proof (bpow_gt_0 (-53)). 
  apply Rle_trans with (1 := Herr). rewrite <- E. nra.
Qed.

(** *** Integer division *)

Lemma F2R_exp0 m : F2R m 0 = IZR m.
Proof. unfold F2R. rewrite bpow_0. ring. Qed.

Lemma int_true_divide_correct a b f :
  (0 < a)%Z -> (0 < b)%Z -> nonneg64 f -> IZR a / IZR b <= B2R f ->
  exists q, Py.int_true_divide a b = Ok q /\ nonneg64 q /\
            rounds_to (IZR a / IZR b) (B2R q).
Proof.
  intros Ha Hb Hf Hv. unfold Py.int_true_divide.
  replace (b =? 0)%Z with false by (symmetry; apply Z.eqb_neq; lia).
  replace (a =? 0)%Z with false by (symmetry; apply Z.eqb_neq; lia).
  replace (a <? 0)%Z with false by (symmetry; apply Z.ltb_ge; lia).
  replace (b <? 0)%Z with false by (symmetry; apply Z.ltb_ge; lia).
  rewrite !Z.abs_eq by lia. cbn [xorb].
  destruct (div_core_correct a 0 b 0 Ha Hb) as (q & e & l & -> & Hq & Had & Hl).
  rewrite !F2R_exp0 in Hl.
  destruct (round_correct q e l _ f Hq Had Hl Hf Hv) as [Hn Hr].
  exists (binary_round_aux Py.prec Py.emax false q e l).
  split; [|split; assumption].
  now rewrite (nonneg64_finite _ Hn).
Qed.

(** *** Multiplication *)

Lemma Zdigits2_ge m d : (2 ^ d <= m)%Z -> (0 <= d)%Z -> (d < Zdigits2 m)%Z.
Proof.
  intros H Hd. destruct (Z_lt_le_dec d (Zdigits2 m)) as [|Hle]; [assumption|].
  assert (0 < 2 ^ d)%Z by (apply Z.pow_pos_nonneg; lia).
  apply Zdigits2_le_iff in Hle; lia.
Qed.

Lemma fmul_correct x y f :
  nonneg64 x -> nonneg64 y -> nonneg64 f -> B2R x * B2R y <= B2R f ->
  nonneg64 (Py.fmul x y) /\ rounds_to (B2R x * B2R y) (B2R (Py.fmul x y)).
Proof.
  intros Hx Hy Hf Hv.
  assert (Hz : rounds_to 0 0) by (apply (rounds_to_exact (S754_zero false)); exact I).
  destruct x as [[]| | |[] mx ex]; cbn [nonneg64] in Hx; try tauto;
    destruct y as [[]| | |[] my ey]; cbn [nonneg64] in Hy; try tauto;
    cbn [Py.fmul SFmul xorb B2R cond_Zopp];
    try (rewrite ?Rmult_0_l, ?Rmult_0_r; split; [exact I|exact Hz]).
  destruct Hx as [(Hmx & Hex & Hnx) Hxx]. destruct Hy as [(Hmy & Hey & Hny) Hyy].
  apply round_correct with (f := f); try assumption.
  - lia.
  - destruct (Z.eq_dec ex (-1074)) as [Ex|Ex];
      destruct (Z.eq_dec ey (-1074)) as [Ey|Ey];
      try (unfold fexp64; lia).
    + assert (H52 : (2 ^ 52 <= Z.pos (mx * my))%Z) by (specialize (Hny ltac:(lia)); nia).
      apply Zdigits2_ge in H52; [|lia]. unfold fexp64; lia.
    + assert (H52 : (2 ^ 52 <= Z.pos (mx * my))%Z) by (specialize (Hnx ltac:(lia)); nia).
      apply Zdigits2_ge in H52; [|lia]. unfold fexp64; lia.
    + assert (H52 : (2 ^ 52 <= Z.pos (mx * my))%Z) by (specialize (Hnx ltac:(lia)); nia).
      apply Zdigits2_ge in H52; [|lia]. unfold fexp64; lia.
  - cbn [located]. unfold F2R. rewrite Pos2Z.inj_mul, mult_IZR, bpow_plus. ring.
Qed.

(** *** Float division *)

Lemma fdiv_correct x y f :
  nonneg64 x -> nonneg64 y -> 0 < B2R y -> nonneg64 f ->
  B2R x / B2R y <= B2R f ->
  nonneg64 (Py.fdiv x y) /\ rounds_to (B2R x / B2R y) (B2R (Py.fdiv x y)).
Proof.
  intros Hx Hy Hy0 Hf Hv.
  assert (Hz : rounds_to 0 0) by (apply (rounds_to_exact (S754_zero false)); exact I).
  destruct y as [[]| | |[] my ey]; cbn [nonneg64] in Hy; try tauto;
    cbn [B2R] in Hy0; try lra.
  destruct x as [[]| | |[] mx ex]; cbn [nonneg64] in Hx; try tauto;
    cbn [Py.fdiv SFdiv xorb B2R cond_Zopp].
  - unfold Rdiv. rewrite Rmult_0_l. split; [exact I|exact Hz].
  - destruct (div_core_correct (Z.pos mx) ex (Z.pos my) ey ltac:(lia) ltac:(lia))
      as (q & e & l & -> & Hq & Had & Hl).
    apply round_correct with (f := f); assumption.
Qed.

(** *** Conversion of integers *)

Lemma iter_xO m d : Z.pos (Pos.iter xO m d) = (Z.pos m * 2 ^ Z.pos d)%Z.
Proof.
  induction d as [|d IH] using Pos.peano_ind.
  - cbn [Pos.iter]. lia.
  - rewrite Pos.iter_succ, Pos2Z.inj_xO, IH, Pos2Z.inj_succ, Z.pow_succ_r by lia.
    ring.
Qed.

Lemma Zdigits2_shift m k :
  (0 < m)%Z -> (0 <= k)%Z -> Zdigits2 (m * 2 ^ k) = (Zdigits2 m + k)%Z.
Proof.
  intros Hm Hk. destruct (Zdigits2_bounds m Hm) as [Hlo Hhi].
  pose proof (Zdigits2_pos m Hm) as Hd.
  assert (0 < 2 ^ k)%Z by (apply Z.pow_pos_nonneg; lia).
  apply Zdigits2_unique; [lia|].
  replace (Zdigits2 m + k - 1)%Z with ((Zdigits2 m - 1) + k)%Z by lia.
  rewrite !Z.pow_add_r by lia. nia.
Qed.

Lemma float_of_int_correct z f :
  (0 < z)%Z -> nonneg64 f -> IZR z <= B2R f ->
  exists x, Py.float_of_int z = Ok x /\ nonneg64 x /\ rounds_to (IZR z) (B2R x).
Proof.
  intros Hz Hf Hv. unfold Py.float_of_int.
  destruct z as [|p|p]; try lia.
  cbn [binary_normalize]. unfold binary_round. rewrite fexp_eq.
  change (Z.pos (digits2_pos p)) with (Zdigits2 (Z.pos p)).
  pose proof (Zdigits2_pos (Z.pos p) Hz) as Hd.
  set (d := Zdigits2 (Z.pos p)) in *.
  assert (Hfe : fexp64 (d + 0) = (d - 53)%Z) by (unfold fexp64; lia).
  rewrite Hfe. unfold shl_align.
  assert (Hgoal : forall mz ez,
             (ez <= fexp64 (Zdigits2 (Z.pos mz) + ez))%Z ->
             F2R (Z.pos mz) ez = IZR (Z.pos p) ->
             nonneg64 (binary_round_aux Py.prec Py.emax false (Z.pos mz) ez loc_Exact) /\
             rounds_to (IZR (Z.pos p))
               (B2R (binary_round_aux Py.prec Py.emax false (Z.pos mz) ez loc_Exact))).
  { intros mz ez Had Hval.
    assert (Hl : located (Z.pos mz) ez loc_Exact (IZR (Z.pos p)))
      by (cbn [located]; now rewrite Hval).
    exact (round_correct _ _ _ _ f (Pos2Z.is_nonneg mz) Had Hl Hf Hv). }
  remember (d - 53 - 0)%Z as n eqn:Hn.
  assert (Hcase : exists mz ez,
             match n with
             | Z.neg d0 => (Pos.iter xO p d0, (d - 53)%Z)
             | _ => (p, 0%Z)
             end = (mz, ez) /\
             (ez <= fexp64 (Zdigits2 (Z.pos mz) + ez))%Z /\
             F2R (Z.pos mz) ez = IZR (Z.pos p)).
  { destruct n as [|k|k]; eexists _, _; (split; [reflexivity|]).
    - split; [fold d; unfold fexp64; lia|apply F2R_exp0].
    - split; [fold d; unfold fexp64; lia|apply F2R_exp0].
    - split.
      + rewrite iter_xO, Zdigits2_shift by lia. fold d. unfold fexp64. lia.
      + rewrite iter_xO, F2R_shift by lia.
        replace (d - 53 + Z.pos k)%Z with 0%Z by lia. apply F2R_exp0. }
  destruct Hcase as (mz & ez & -> & Had & Hval).
  destruct (Hgoal mz ez Had Hval) as [Hn1 Hr1].
  rewrite (nonneg64_finite _ Hn1). eexists; split; [reflexivity|]. split; assumption.
Qed.

Lemma rounds_to_int z : (0 <= z < 2 ^ 53)%Z -> rounds_to (IZR z) (IZR z).
Proof.
  intros Hz. destruct (Z.eq_dec z 0) as [->|Hne].
  - apply (rounds_to_exact (S754_zero false)). exact I.
  - assert (Hpos : (0 < z)%Z) by lia.
    destruct (Zdigits2_bounds z Hpos) as [Hlo Hhi].
    pose proof (Zdigits2_pos z Hpos) as Hd.
    assert (Hd53 : (Zdigits2 z <= 53)%Z) by (apply Zdigits2_le_iff; lia).
    set (d := Zdigits2 z) in *.
    assert (H2 : (0 < 2 ^ (53 - d))%Z) by (apply Z.pow_pos_nonneg; lia).
    assert (Hp : (2 ^ (d - 1) * 2 ^ (53 - d) = 2 ^ 52)%Z).
    { rewrite <- Z.pow_add_r by lia. f_equal. lia. }
    assert (Hq : (2 ^ d * 2 ^ (53 - d) = 2 ^ 53)%Z).
    { rewrite <- Z.pow_add_r by lia. f_equal. lia. }
    exists (z * 2 ^ (53 - d))%Z, (d - 53)%Z, loc_Exact.
    split; [unfold canon; nia|].
    cbn [located round_nearest_even].
    rewrite F2R_shift by lia. replace (d - 53 + (53 - d))%Z with 0%Z by lia.
    rewrite F2R_exp0. split; reflexivity.
Qed.

Lemma float_of_int_exact z :
  (0 < z < 2 ^ 53)%Z ->
  exists x, Py.float_of_int z = Ok x /\ nonneg64 x /\ B2R x = IZR z.
Proof.
  intros Hz.
  assert (Hf : nonneg64 (S754_finite false (2 ^ 52) 1)).
  { cbn [nonneg64]. unfold canon. change (Z.pos (2 ^ 52)) with (2 ^ 52)%Z. lia. }
  assert (Hv : IZR z <= B2R (S754_finite false (2 ^ 52) 1)).
  { cbn [B2R cond_Zopp]. change (Z.pos (2 ^ 52)) with (2 ^ 52 * 2 ^ 0)%Z.
    rewrite F2R_shift by lia. replace (1 + 0)%Z with 1%Z by lia.
    change (2 ^ 52 * 2 ^ 0)%Z with (2 ^ 52)%Z.
    unfold F2R. rewrite bpow_1. 
    replace (IZR (2 ^ 52) * 2) with (IZR (2 ^ 53)) 
      by (change (2 ^ 53)%Z with (2 ^ 52 * 2)%Z; now rewrite mult_IZR).
    apply IZR_le. lia. }
  destruct (float_of_int_correct z _ ltac:(lia) Hf Hv) as (x & E & Hn & Hr).
  exists x. split; [assumption|]. split; [assumption|].
  eapply rounds_to_unique; [eassumption|]. apply rounds_to_int. lia.
Qed.

(** *** Comparison *)

Lemma canon_exp_lt m1 e1 m2 e2 :
  canon m1 e1 -> canon m2 e2 -> (e1 < e2)%Z -> F2R m1 e1 < F2R m2 e2.
Proof.
  intros (Hm1 & He1 & Hn1) (Hm2 & He2 & Hn2) He.
  specialize (Hn2 ltac:(lia)).
  apply Rlt_le_trans with (F2R (2 ^ 53) e1).
  { unfold F2R. pose proof (bpow_gt_0 e1).
    assert (IZR m1 < IZR (2 ^ 53)) by (apply IZR_lt; lia). nra. }
  apply Rle_trans with (F2R (2 ^ 52) e2); [|apply F2R_le; lia].
  unfold F2R. rewrite <- (bpow_IZR 53), <- (bpow_IZR 52) by lia.
  rewrite <- !bpow_plus. apply bpow_le. lia.
Qed.

Lemma F2R_lt m1 m2 e : (m1 < m2)%Z -> F2R m1 e < F2R m2 e.
Proof.
  intros H. unfold F2R. apply IZR_lt in H. pose proof (bpow_gt_0 e). nra.
Qed.

Lemma flt_spec f g :
  nonneg64 f -> nonneg64 g ->
  if Py.flt f g then B2R f < B2R g else B2R g <= B2R f.
Proof.
  intros Hf Hg.
  destruct f as [[]| | |[] m1 e1]; cbn [nonneg64] in Hf; try tauto;
    destruct g as [[]| | |[] m2 e2]; cbn [nonneg64] in Hg; try tauto;
    unfold Py.flt, SFltb; cbn [SFcompare B2R cond_Zopp].
  - lra.
  - unfold F2R. pose proof (bpow_gt_0 e2).
    assert (0 < IZR (Z.pos m2)) by (apply IZR_lt; lia). nra.
  - unfold F2R. pose proof (bpow_gt_0 e1).
    assert (0 < IZR (Z.pos m1)) by (apply IZR_lt; lia). nra.
  - destruct Hf as [Hc1 _]. destruct Hg as [Hc2 _].
    destruct (Z.compare_spec e1 e2) as [->|He|He].
    + change (Pos.compare_cont Eq m1 m2) with (Pos.compare m1 m2).
      destruct (Pos.compare_spec m1 m2) as [->|Hm|Hm].
      * lra.
      * apply F2R_lt. lia.
      * apply Rlt_le. apply F2R_lt. lia.
    + now apply canon_exp_lt.
    + apply Rlt_le. now apply canon_exp_lt.
Qed.

(** *** Truncation to an integer *)

Lemma int_of_float_floor f :
  nonneg64 f ->
  exists n, Py.int_of_float f = Ok n /\ IZR n <= B2R f < IZR n + 1.
Proof.
  destruct f as [[]| | |[] m e]; cbn [nonneg64]; try tauto; intros Hf.
  - exists 0%Z. split; [reflexivity|]. cbn [B2R]. lra.
  - cbn [Py.int_of_float B2R cond_Zopp].
    destruct e as [|p|p].
    + exists (Z.pos m). split; [reflexivity|]. rewrite F2R_exp0. lra.
    + eexists. split; [reflexivity|].
      rewrite Z.shiftl_mul_pow2 by lia.
      rewrite <- (F2R_exp0 (Z.pos m * 2 ^ Z.pos p)), F2R_shift by lia.
      replace (0 + Z.pos p)%Z with (Z.pos p) by lia. lra.
    + eexists. split; [reflexivity|].
      rewrite Z.shiftr_div_pow2 by lia.
      assert (H2 : (0 < 2 ^ Z.pos p)%Z) by (apply Z.pow_pos_nonneg; lia).
      pose proof (Z.div_mod (Z.pos m) (2 ^ Z.pos p) ltac:(lia)) as Hdm.
      pose proof (Z.mod_pos_bound (Z.pos m) (2 ^ Z.pos p) H2) as Hmod.
      set (n := (Z.pos m / 2 ^ Z.pos p)%Z) in *.
      set (r := (Z.pos m mod 2 ^ Z.pos p)%Z) in *.
      assert (Hval : F2R (Z.pos m) (Z.neg p) * IZR (2 ^ Z.pos p)
                     = IZR (2 ^ Z.pos p) * IZR n + IZR r).
      { rewrite <- mult_IZR, <- plus_IZR, <- Hdm.
        unfold F2R. rewrite <- (bpow_IZR (Z.pos p)) by lia.
        rewrite Rmult_assoc, <- bpow_plus.
        replace (Z.neg p + Z.pos p)%Z with 0%Z by lia. rewrite bpow_0. ring. }
      generalize dependent (F2R (Z.pos m) (Z.neg p)). intros F Hval.
      assert (HP : 0 < IZR (2 ^ Z.pos p)) by (apply IZR_lt; lia).
      assert (Hr0 : 0 <= IZR r) by (apply IZR_le; lia).
      assert (Hr1 : IZR r < IZR (2 ^ Z.pos p)) by (apply IZR_lt; lia).
      split; nra.
Qed.

Lemma int_of_float_monotone f g n k :
  nonneg64 f -> nonneg64 g -> B2R f <= B2R g ->
  Py.int_of_float f = Ok n -> Py.int_of_float g = Ok k -> (n <= k)%Z.
Proof.
  intros Hf Hg Hle En Ek.
  destruct (int_of_float_floor f Hf) as (n' & En' & Hn1 & Hn2).
  destruct (int_of_float_floor g Hg) as (k' & Ek' & Hk1 & Hk2).
  rewrite En in En'. rewrite Ek in Ek'. injection En' as <-. injection Ek' as <-.
  assert (H : IZR n < IZR (k + 1)) by (rewrite plus_IZR; lra).
  apply lt_IZR in H. lia.
Qed.

(** *** The progress percentage *)

Lemma float_of_int_100 : Py.float_of_int 100 = Ok f100.
Proof. vm_compute. reflexivity. Qed.

Lemma F2R_pow2 m k e : (0 <= k)%Z -> F2R (m * 2 ^ k) (e - k) = F2R m e.
Proof. intros Hk. rewrite F2R_shift by assumption. f_equal. lia. Qed.

Lemma B2R_f100 : B2R f100 = 100.
Proof.
  cbn [B2R f100 cond_Zopp].
  change 7036874417766400%Z with (100 * 2 ^ 46)%Z.
  change (-46)%Z with (0 - 46)%Z. rewrite F2R_pow2 by lia. apply F2R_exp0.
Qed.

Lemma B2R_f1 : B2R f1 = 1.
Proof.
  cbn [B2R f1 cond_Zopp].
  change 4503599627370496%Z with (1 * 2 ^ 52)%Z.
  change (-52)%Z with (0 - 52)%Z. rewrite F2R_pow2 by lia. apply F2R_exp0.
Qed.

Lemma nonneg64_f100 : nonneg64 f100.
Proof. cbn. unfold canon. lia. Qed.

Lemma nonneg64_f1 : nonneg64 f1.
Proof. cbn. unfold canon. lia. Qed.

Lemma percent_correct idx total :
  (0 < idx <= total)%Z ->
  exists q n,
    Py.int_true_divide idx total = Ok q /\ nonneg64 q /\
    rounds_to (IZR idx / IZR total) (B2R q) /\
    nonneg64 (Py.fmul q f100) /\
    rounds_to (B2R q * 100) (B2R (Py.fmul q f100)) /\
    Py.int_of_float (Py.fmul q f100) = Ok n /\
    percent idx total = Ok n.
Proof.
  intros Hi.
  assert (Ht : 0 < IZR total) by (apply IZR_lt; lia).
  assert (Hv : IZR idx / IZR total <= B2R f1).
  { rewrite B2R_f1. apply Rmult_le_reg_r with (IZR total); [assumption|].
    unfold Rdiv. rewrite Rmult_assoc, Rinv_l, Rmult_1_r, Rmult_1_l by lra.
    apply IZR_le. lia. }
  destruct (int_true_divide_correct idx total f1 ltac:(lia) ltac:(lia)
              nonneg64_f1 Hv) as (q & Eq & Hq & Hr).
  assert (Hq1 : B2R q <= 1).
  { rewrite <- B2R_f1.
    exact (rounds_to_monotone _ _ _ _ Hr (rounds_to_exact _ nonneg64_f1) Hv). }
  pose proof (B2R_nonneg q Hq) as Hq0.
  assert (Hv2 : B2R q * B2R f100 <= B2R f100) by (rewrite B2R_f100; lra).
  destruct (fmul_correct q f100 f100 Hq nonneg64_f100 nonneg64_f100 Hv2)
    as [Hp Hrp].
  rewrite B2R_f100 in Hrp.
  destruct (int_of_float_floor _ Hp) as (n & En & _).
  exists q, n.
  split; [exact Eq|]. split; [exact Hq|]. split; [exact Hr|].
  split; [exact Hp|]. split; [exact Hrp|]. split; [exact En|].
  unfold percent. cbn [Py.truediv rbind]. rewrite Eq. cbn [rbind Py.mul Py.to_float].
  rewrite float_of_int_100. cbn [rbind Py.int]. exact En.
Qed.

Theorem percent_monotone i j total a b :
  (0 < i <= j)%Z -> (j <= total)%Z ->
  percent i total = Ok a -> percent j total = Ok b -> (a <= b)%Z.
Proof.
  intros Hij Hj Ea Eb.
  destruct (percent_correct i total ltac:(lia))
    as (qi & ni & _ & Hqi & Hri & Hpi & Hrpi & Eni & Epi).
  destruct (percent_correct j total ltac:(lia))
    as (qj & nj & _ & Hqj & Hrj & Hpj & Hrpj & Enj & Epj).
  rewrite Ea in Epi. rewrite Eb in Epj. injection Epi as <-. injection Epj as <-.
  assert (Ht : 0 < IZR total) by (apply IZR_lt; lia).
  assert (Hq : B2R qi <= B2R qj).
  { apply (rounds_to_monotone _ _ _ _ Hri Hrj).
    unfold Rdiv. apply Rmult_le_compat_r.
    - apply Rlt_le, Rinv_0_lt_compat. assumption.
    - apply IZR_le. lia. }
  assert (Hp : B2R (Py.fmul qi f100) <= B2R (Py.fmul qj f100)).
  { apply (rounds_to_monotone _ _ _ _ Hrpi Hrpj). lra. }
  exact (int_of_float_monotone _ _ _ _ Hpi Hpj Hp Eni Enj).
Qed.

Theorem percent_complete total : (0 < total)%Z -> percent total total = Ok 100%Z.
Proof.
  intros Ht.
  destruct (percent_correct total total ltac:(lia))
    as (q & n & _ & Hq & Hr & Hp & Hrp & En & ->).
  f_equal.
  assert (HT : 0 < IZR total) by (apply IZR_lt; lia).
  assert (Hq1 : B2R q = 1).
  { rewrite <- B2R_f1. eapply rounds_to_unique; [eassumption|].
    replace (IZR total / IZR total) with (B2R f1)
      by (rewrite B2R_f1; field; lra).
    apply rounds_to_exact, nonneg64_f1. }
  assert (Hp100 : B2R (Py.fmul q f100) = 100).
  { rewrite <- B2R_f100. eapply rounds_to_unique; [eassumption|].
    rewrite Hq1, Rmult_1_l, <- B2R_f100.
    apply rounds_to_exact, nonneg64_f100. }
  destruct (int_of_float_floor _ Hp) as (n' & En' & Hlo & Hhi).
  rewrite En in En'. injection En' as <-.
  rewrite Hp100 in Hlo, Hhi.
  assert (H1 : IZR n <= IZR 100) by (simpl; lra).
  assert (H2 : IZR 100 < IZR (n + 1)) by (rewrite plus_IZR; simpl; lra).
  apply le_IZR in H1. apply lt_IZR in H2. lia.
Qed.

Theorem percent_range idx total n :
  (0 < idx <= total)%Z -> percent idx total = Ok n -> (0 <= n <= 100)%Z.
Proof.
  intros Hi En. split.
  - destruct (percent_correct idx total Hi)
      as (q & n' & _ & Hq & Hr & Hp & Hrp & En' & E).
    rewrite En in E. injection E as <-.
    destruct (int_of_float_floor _ Hp) as (n' & E' & Hlo & Hhi).
    rewrite En' in E'. injection E' as <-.
    pose proof (B2R_nonneg _ Hp) as H0.
    assert (H : IZR (-1) < IZR n) by (simpl; lra).
    apply lt_IZR in H. lia.
  - pose proof (percent_complete total ltac:(lia)) as Ec.
    exact (percent_monotone idx total total n 100 ltac:(lia) ltac:(lia) En Ec).
Qed.


Local Close Scope R_scope.

(** ** Scaling an image to a page *)

Local Open Scope R_scope.


Lemma Rabs_le_bounds a b : Rabs a <= b -> - b <= a <= b.
Proof. unfold Rabs. destruct (Rcase_abs a); lra. Qed.

Lemma aspect_bound w h r w' h' nw nh u :
  0 < w -> 0 < h -> 0 < r -> 0 <= u <= 1 / 4 ->
  Rabs (w' - w) <= w * u -> Rabs (h' - h) <= h * u ->
  Rabs (nw - w' * r) <= w' * r * u -> Rabs (nh - h' * r) <= h' * r * u ->
  0 < nh /\ Rabs (nw * h - nh * w) <= 8 * u * (nh * w).
Proof.
  intros Hw Hh Hr Hu Hw' Hh' Hnw Hnh.
  apply Rabs_le_bounds in Hw', Hh', Hnw, Hnh.
  assert (Hw1 : w * (1 - u) <= w' <= w * (1 + u)) by lra.
  assert (Hh1 : h * (1 - u) <= h' <= h * (1 + u)) by lra.
  assert (Hw0 : 0 < w') by nra.
  assert (Hh0 : 0 < h') by nra.
  assert (Hwr : 0 < w * r) by nra.
  assert (Hhr : 0 < h * r) by nra.
  assert (Hnw1 : w' * r * (1 - u) <= nw <= w' * r * (1 + u)) by lra.
  assert (Hnh1 : h' * r * (1 - u) <= nh <= h' * r * (1 + u)) by lra.
  assert (Hw'r : w * r * (1 - u) <= w' * r <= w * r * (1 + u)) by nra.
  assert (Hh'r : h * r * (1 - u) <= h' * r <= h * r * (1 + u)) by nra.
  assert (Hnw2 : w * r * ((1 - u) * (1 - u)) <= nw <= w * r * ((1 + u) * (1 + u))) by nra.
  assert (Hnh2 : h * r * ((1 - u) * (1 - u)) <= nh <= h * r * ((1 + u) * (1 + u))) by nra.
  set (a := w * r * h).
  assert (Ha : 0 < a) by (unfold a; nra).
  assert (Hnwh : a * ((1 - u) * (1 - u)) <= nw * h <= a * ((1 + u) * (1 + u))).
  { unfold a. split; nra. }
  assert (Hnhw : a * ((1 - u) * (1 - u)) <= nh * w <= a * ((1 + u) * (1 + u))).
  { unfold a. split; nra. }
  assert (Hsq : 1 / 2 <= (1 - u) * (1 - u)) by nra.
  split; [nra|].
  apply Rabs_le. 
  assert (Hhalf : a / 2 <= nh * w) by nra.
  assert (Hd1 : nw * h - nh * w <= 4 * u * a) by nra.
  assert (Hd2 : - (4 * u * a) <= nw * h - nh * w) by nra.
  assert (Hua : 4 * u * a <= 8 * u * (nh * w)) by nra.
  lra.
Qed.

Lemma float_of_int_2 : Py.float_of_int 2 = Ok f2.
Proof. vm_compute. reflexivity. Qed.

Lemma B2R_pow2 e : B2R (S754_finite false 4503599627370496 e) = bpow (52 + e).
Proof.
  cbn [B2R cond_Zopp]. change (Z.pos 4503599627370496) with (2 ^ 52)%Z.
  unfold F2R. rewrite <- (bpow_IZR 52) by lia. now rewrite bpow_plus.
Qed.

Lemma nonneg64_pow2 e :
  (-1074 <= e <= 971)%Z -> nonneg64 (S754_finite false 4503599627370496 e).
Proof. intros He. cbn [nonneg64]. unfold canon. lia. Qed.

Lemma nonneg64_is_zero f : nonneg64 f -> 0 < B2R f -> Py.is_zero f = false.
Proof.
  destruct f as [[]| | |[] ? ?]; cbn [nonneg64 B2R Py.is_zero]; try tauto; try lra.
Qed.

(** An image dimension as a float. *)
Lemma float_of_dim w :
  (0 < w <= 2 ^ 1023)%Z ->
  exists w',
    Py.float_of_int w = Ok w' /\ nonneg64 w' /\
    1 <= B2R w' <= bpow 1023 /\
    Rabs (B2R w' - IZR w) <= IZR w * bpow (-53).
Proof.
  intros Hw.
  assert (Hf : nonneg64 (S754_finite false 4503599627370496 971))
    by (apply nonneg64_pow2; lia).
  assert (Hb : IZR w <= bpow 1023).
  { rewrite bpow_IZR by lia. apply IZR_le. lia. }
  assert (Hv : IZR w <= B2R (S754_finite false 4503599627370496 971)).
  { rewrite B2R_pow2. exact Hb. }
  destruct (float_of_int_correct w _ ltac:(lia) Hf Hv) as (w' & E & Hn & Hr).
  exists w'. split; [exact E|]. split; [exact Hn|]. split; [split|].
  - replace 1 with (IZR 1) by reflexivity.
    apply (rounds_to_monotone (IZR 1) _ (IZR w) _); [|exact Hr|apply IZR_le; lia].
    apply rounds_to_int. lia.
  - replace (bpow 1023) with (B2R (S754_finite false 4503599627370496 971))
      by apply B2R_pow2.
    exact (rounds_to_monotone _ _ _ _ Hr (rounds_to_exact _ Hf) Hv).
  - apply rounds_to_error; [|exact Hr].
    apply Rle_trans with 1; [|apply IZR_le; lia].
    rewrite <- bpow_0. apply bpow_le. lia.
Qed.

Section Fit.

(** A page dimension [W], and a float [Wp] at least one rounding error
    above it. *)
Variables W Wp : spec_float.
Hypothesis HW : nonneg64 W.
Hypothesis HWp : nonneg64 Wp.
Hypothesis HW4 : 4 <= B2R W.
Hypothesis HWWp : B2R W * (1 + bpow (-53)) <= B2R Wp.

Lemma scale_dim w' :
  nonneg64 w' -> 1 <= B2R w' <= bpow 1023 ->
  nonneg64 (Py.fdiv W w') /\
  bpow (-1021) <= B2R (Py.fdiv W w') /\
  B2R w' * B2R (Py.fdiv W w') <= B2R Wp.
Proof.
  intros Hw' [Hlo Hhi].
  assert (Hq : B2R W / B2R w' <= B2R W).
  { apply Rmult_le_reg_r with (B2R w'); [lra|].
    unfold Rdiv. rewrite Rmult_assoc, Rinv_l, Rmult_1_r by lra. nra. }
  destruct (fdiv_correct W w' W HW Hw' ltac:(lra) HW Hq) as [Hn Hr].
  assert (Hmin : bpow (-1021) <= B2R W / B2R w').
  { apply Rmult_le_reg_r with (B2R w'); [lra|].
    unfold Rdiv. rewrite Rmult_assoc, Rinv_l, Rmult_1_r by lra.
    apply Rle_trans with (bpow (-1021) * bpow 1023).
    - apply Rmult_le_compat_l; [apply Rlt_le, bpow_gt_0|assumption].
    - rewrite <- bpow_plus. change (-1021 + 1023)%Z with (1 + 1)%Z.
      rewrite bpow_succ, bpow_1. lra. }
  split; [exact Hn|]. split.
  - replace (bpow (-1021)) with (B2R (S754_finite false 4503599627370496 (-1073)))
      by apply B2R_pow2.
    apply (rounds_to_monotone (B2R (S754_finite false 4503599627370496 (-1073))) _
             (B2R W / B2R w') _); [|exact Hr|].
    + apply rounds_to_exact, nonneg64_pow2. lia.
    + rewrite B2R_pow2. exact Hmin.
  - pose proof (rounds_to_error _ _ Hmin Hr) as He.
    apply Rabs_le_bounds in He.
    assert (Hx : B2R w' * (B2R W / B2R w') = B2R W) by (field; lra).
    pose proof (bpow_gt_0 (-53)) as Hu.
    assert (B2R w' * B2R (Py.fdiv W w')
            <= B2R w' * (B2R W / B2R w' * (1 + bpow (-53)))).
    { apply Rmult_le_compat_l; lra. }
    assert (B2R w' * (B2R W / B2R w' * (1 + bpow (-53)))
            = B2R W * (1 + bpow (-53))) by (rewrite <- Rmult_assoc, Hx; ring).
    lra.
Qed.

Lemma drawn_dim w' r :
  nonneg64 w' -> nonneg64 r -> 1 <= B2R w' -> bpow (-1021) <= B2R r ->
  B2R w' * B2R r <= B2R Wp ->
  nonneg64 (Py.fmul w' r) /\
  B2R (Py.fmul w' r) <= B2R Wp /\
  Rabs (B2R (Py.fmul w' r) - B2R w' * B2R r) <= B2R w' * B2R r * bpow (-53).
Proof.
  intros Hw' Hr Hw1 Hr1 Hle.
  destruct (fmul_correct w' r Wp Hw' Hr HWp Hle) as [Hn Hrd].
  split; [exact Hn|]. split.
  - exact (rounds_to_monotone _ _ _ _ Hrd (rounds_to_exact _ HWp) Hle).
  - apply rounds_to_error; [|exact Hrd].
    pose proof (bpow_gt_0 (-1021)). nra.
Qed.

End Fit.

Lemma truediv_float_int W z z' :
  Py.float_of_int z = Ok z' -> Py.is_zero z' = false ->
  Py.truediv (Py.Float W) (Py.Int z) = Ok (Py.Float (Py.fdiv W z')).
Proof.
  intros E Hz. cbn [Py.truediv Py.to_float rbind]. rewrite E. cbn [rbind].
  now rewrite Hz.
Qed.

Lemma mul_int_float z z' r :
  Py.float_of_int z = Ok z' ->
  Py.mul (Py.Int z) (Py.Float r) = Ok (Py.Float (Py.fmul z' r)).
Proof. intros E. cbn [Py.mul Py.to_float rbind]. rewrite E. reflexivity. Qed.

Lemma min_floats a b :
  Py.min (Py.Float a) (Py.Float b) = Py.Float (if Py.flt b a then b else a).
Proof. unfold Py.min. cbn [Py.lt]. now destruct (Py.flt b a). Qed.

Section FixedSize.

Variables W H Wp Hp : spec_float.
Hypothesis HW : nonneg64 W.
Hypothesis HWp : nonneg64 Wp.
Hypothesis HW4 : 4 <= B2R W.
Hypothesis HWWp : B2R W * (1 + bpow (-53)) <= B2R Wp.
Hypothesis HH : nonneg64 H.
Hypothesis HHp : nonneg64 Hp.
Hypothesis HH4 : 4 <= B2R H.
Hypothesis HHHp : B2R H * (1 + bpow (-53)) <= B2R Hp.

Theorem layout_fixed w h :
  (0 < w <= 2 ^ 1023)%Z -> (0 < h <= 2 ^ 1023)%Z ->
  exists w' h',
    Py.float_of_int w = Ok w' /\ Py.float_of_int h = Ok h' /\
    let r := if Py.flt (Py.fdiv H h') (Py.fdiv W w')
             then Py.fdiv H h' else Py.fdiv W w' in
    let nw := Py.fmul w' r in
    let nh := Py.fmul h' r in
    compute_layout_on (Py.Float W, Py.Float H) true w h
    = Ok (mkLayout (Py.Float W) (Py.Float H) (Py.Float r)
            (Py.Float nw) (Py.Float nh)
            (Py.Float (Py.fdiv (Py.fsub W nw) f2))
            (Py.Float (Py.fdiv (Py.fsub H nh) f2))) /\
    B2R nw <= B2R Wp /\ B2R nh <= B2R Hp /\
    0 < B2R nh /\
    Rabs (B2R nw / B2R nh - IZR w / IZR h) <= bpow (-50) * (IZR w / IZR h).
Proof.
  intros Hw Hh.
  destruct (float_of_dim w Hw) as (w' & Ew & Hnw' & Hw1 & Hwe).
  destruct (float_of_dim h Hh) as (h' & Eh & Hnh' & Hh1 & Hhe).
  exists w', h'. split; [exact Ew|]. split; [exact Eh|].
  destruct (scale_dim W Wp HW HW4 HWWp w' Hnw' Hw1) as (Hnrw & Hrw1 & Hrwp).
  destruct (scale_dim H Hp HH HH4 HHHp h' Hnh' Hh1) as (Hnrh & Hrh1 & Hrhp).
  set (rw := Py.fdiv W w') in *. set (rh := Py.fdiv H h') in *.
  pose proof (flt_spec rh rw Hnrh Hnrw) as Hcmp.
  set (r := if Py.flt rh rw then rh else rw).
  assert (Hr : nonneg64 r /\ bpow (-1021) <= B2R r /\
               B2R r <= B2R rw /\ B2R r <= B2R rh).
  { unfold r. destruct (Py.flt rh rw); repeat split; try assumption; lra. }
  destruct Hr as (Hnr & Hr1 & Hrrw & Hrrh).
  assert (Hwr : B2R w' * B2R r <= B2R Wp).
  { apply Rle_trans with (B2R w' * B2R rw); [|assumption].
    apply Rmult_le_compat_l; lra. }
  assert (Hhr : B2R h' * B2R r <= B2R Hp).
  { apply Rle_trans with (B2R h' * B2R rh); [|assumption].
    apply Rmult_le_compat_l; lra. }
  destruct (drawn_dim Wp HWp w' r Hnw' Hnr ltac:(lra) Hr1 Hwr)
    as (Hnnw & Hnwle & Hnwe).
  destruct (drawn_dim Hp HHp h' r Hnh' Hnr ltac:(lra) Hr1 Hhr)
    as (Hnnh & Hnhle & Hnhe).
  cbv zeta.
  split; [|split; [exact Hnwle|split; [exact Hnhle|]]].
  - unfold compute_layout_on, page_and_ratio. cbn [negb].
    rewrite (truediv_float_int W w w' Ew)
      by (apply nonneg64_is_zero; [assumption|lra]).
    cbn [rbind].
    rewrite (truediv_float_int H h h' Eh)
      by (apply nonneg64_is_zero; [assumption|lra]).
    cbn [rbind]. rewrite min_floats. fold rw rh r.
    unfold place. rewrite (mul_int_float w w' r Ew). cbn [rbind].
    rewrite (mul_int_float h h' r Eh). cbn [rbind Py.sub Py.to_float].
    rewrite (truediv_float_int _ 2 f2 float_of_int_2 eq_refl). cbn [rbind].
    rewrite (truediv_float_int _ 2 f2 float_of_int_2 eq_refl). cbn [rbind].
    reflexivity.
  - assert (Hw0 : 0 < IZR w) by (apply IZR_lt; lia).
    assert (Hh0 : 0 < IZR h) by (apply IZR_lt; lia).
    assert (Hr0 : 0 < B2R r) by (pose proof (bpow_gt_0 (-1021)); lra).
    assert (Hu : 0 <= bpow (-53) <= 1 / 4).
    { split; [apply Rlt_le, bpow_gt_0|].
      apply Rle_trans with (bpow (-2)); [apply bpow_le; lia|].
      unfold bpow. simpl. lra. }
    destruct (aspect_bound (IZR w) (IZR h) (B2R r) (B2R w') (B2R h')
                (B2R (Py.fmul w' r)) (B2R (Py.fmul h' r)) (bpow (-53))
                Hw0 Hh0 Hr0 Hu Hwe Hhe Hnwe Hnhe) as [Hnh0 Hasp].
    split; [exact Hnh0|].
    assert (E8 : 8 * bpow (-53) = bpow (-50)).
    { change (-50)%Z with (-53 + 1 + 1 + 1)%Z. rewrite !bpow_succ. ring. }
    rewrite <- Rmult_assoc, E8 in Hasp.
    set (nw := B2R (Py.fmul w' r)) in *. set (nh := B2R (Py.fmul h' r)) in *.
    replace (nw / nh - IZR w / IZR h)
      with ((nw * IZR h - nh * IZR w) / (nh * IZR h)) by (field; lra).
    assert (Hden : 0 < nh * IZR h) by nra.
    unfold Rdiv at 1. rewrite Rabs_mult, (Rabs_pos_eq (/ _))
      by (apply Rlt_le, Rinv_0_lt_compat; assumption).
    apply Rmult_le_reg_r with (nh * IZR h); [assumption|].
    rewrite Rmult_assoc, Rinv_l, Rmult_1_r by lra.
    replace (bpow (-50) * (IZR w / IZR h) * (nh * IZR h))
      with (bpow (-50) * nh * IZR w) by (field; lra).
    exact Hasp.
Qed.

End FixedSize.


Local Close Scope R_scope.

(** ** The loop in closed form *)

Section RunFacts.

Variable world : World.
Variable self : PDFWorker.
Variable a4 : Py.num * Py.num.

Lemma page_geometry_spec width height c :
  page_geometry self a4 width height c
  = (with_pagesize self width height c,
     compute_layout_on a4 (use_a4 self) width height).
Proof.
  unfold page_geometry, with_pagesize, compute_layout_on, canvas.bind,
    canvas.lift, canvas.setPageSize, canvas.ret.
  destruct (use_a4 self); cbn [negb].
  - destruct (page_and_ratio true a4 width height); reflexivity.
  - cbn [page_and_ratio negb rbind].
    destruct (place width height _); reflexivity.
Qed.

(** The body of the inner [try], case by case. *)
Lemma draw_page_spec img_path c :
  draw_page world self a4 img_path c =
  match image_open world img_path with
  | Raise e => (c, Raise e)
  | Ok (width, height) =>
      let c1 := with_pagesize self width height c in
      match compute_layout_on a4 (use_a4 self) width height with
      | Raise e => (c1, Raise e)
      | Ok l =>
          match image_draw world img_path with
          | Some e =>
              (mkCanvas (filename c1) (pagesize c1)
                 (code c1 ++ background self l) (pages c1) (saved c1),
               Raise e)
          | None =>
              (mkCanvas (filename c1) (pagesize c1) []
                 (pages c1 ++
                  [mkPage (pagesize c1)
                     (code c1 ++ background self l ++ [placed img_path l])])
                 (saved c1),
               Ok tt)
          end
      end
  end.
Proof.
  unfold draw_page. unfold canvas.bind at 1. unfold canvas.lift at 1.
  destruct (image_open world img_path) as [[width height]|e]; [|reflexivity].
  unfold canvas.bind at 1. rewrite page_geometry_spec.
  destruct (compute_layout_on a4 (use_a4 self) width height) as [l|e];
    [|reflexivity].
  cbv zeta.
  unfold canvas.bind, canvas.setFillColorRGB, canvas.rect, canvas.drawImage,
    canvas.append, canvas.showPage, canvas.raise, background, placed.
  cbn [filename pagesize code pages saved].
  destruct (image_draw world img_path) as [e|];
    cbn [filename pagesize code pages saved];
    rewrite <- ?app_assoc; reflexivity.
Qed.

Lemma draw_page_result img_path c :
  snd (draw_page world self a4 img_path c)
  = match attempt world self a4 img_path with
    | Ok _ => Ok tt
    | Raise e => Raise e
    end.
Proof.
  rewrite draw_page_spec. unfold attempt.
  destruct (image_open world img_path) as [[width height]|e]; [|reflexivity].
  cbv zeta.
  destruct (compute_layout_on a4 (use_a4 self) width height); [|reflexivity].
  destruct (image_draw world img_path); reflexivity.
Qed.

End RunFacts.

Section LoopFacts.

Variable world : World.
Variable self : PDFWorker.
Variable a4 : Py.num * Py.num.

Lemma percent_value_ok idx total :
  0 < idx <= total -> percent idx total = Ok (percent_value idx total).
Proof.
  intros H. unfold percent_value.
  destruct (percent_correct idx total H) as (q & n & _ & _ & _ & _ & _ & _ & ->).
  reflexivity.
Qed.

Lemma iteration_spec total idx img_path st :
  0 < idx <= total ->
  iteration world self a4 total idx img_path st
  = (mkLoopState (fst (draw_page world self a4 img_path (ls_canvas st)))
       (ls_failed st ++ failure_entries world self a4 [img_path])
       (ls_progress st ++ [percent_value idx total]),
     Ok tt).
Proof.
  intros Hi. unfold iteration.
  pose proof (draw_page_result world self a4 img_path (ls_canvas st)) as Hr.
  destruct (draw_page world self a4 img_path (ls_canvas st)) as [c r].
  cbn [fst snd] in *. rewrite (percent_value_ok idx total Hi).
  unfold failure_entries. cbn [flat_map]. rewrite app_nil_r.
  subst r. destruct (attempt world self a4 img_path); [|reflexivity].
  now rewrite app_nil_r.
Qed.

Lemma loop_spec total imgs : forall idx st,
  0 < idx -> idx + Z.of_nat (List.length imgs) - 1 <= total ->
  loop world self a4 total idx imgs st
  = (mkLoopState (canvas_after world self a4 imgs (ls_canvas st))
       (ls_failed st ++ failure_entries world self a4 imgs)
       (ls_progress st
        ++ map (fun i => percent_value i total)
             (indices idx (List.length imgs))),
     Ok tt).
Proof.
  induction imgs as [|p imgs IH]; intros idx st Hidx Hlen.
  - cbn. rewrite !app_nil_r. now destruct st.
  - cbn [loop]. cbn [List.length] in Hlen.
    rewrite iteration_spec by lia.
    rewrite IH by (cbn [List.length] in *; lia).
    cbn [ls_canvas ls_failed ls_progress canvas_after fold_left List.length
         indices map].
    unfold failure_entries. cbn [flat_map].
    rewrite app_nil_r, <- !app_assoc. reflexivity.
Qed.

End LoopFacts.

(** [run], in closed form. *)
Theorem run_spec world self :
  run world self =
  let n := List.length (images self) in
  let c := canvas_after world self Units.A4 (images self)
             (blank_canvas (output_file self)) in
  let '(c', r) := canvas.save world c in
  mkOutcome c'
    (map (fun i => percent_value i (Z.of_nat n)) (indices 1 n))
    (failure_entries world self Units.A4 (images self)
     ++ match r with
        | Ok _ => []
        | Raise e => [creation_failure e]
        end).
Proof.
  unfold run.
  replace (if use_a4 self
           then canvas.new (output_file self) (Some Units.A4)
           else canvas.new (output_file self) None)
    with (blank_canvas (output_file self))
    by (destruct (use_a4 self); reflexivity).
  rewrite loop_spec by lia.
  cbn [ls_canvas ls_failed ls_progress app]. cbv zeta.
  destruct (canvas.save world _) as [c' [[]|e]]; [|reflexivity].
  now rewrite app_nil_r.
Qed.


(** ** Progress values *)


Lemma indices_length start n : List.length (indices start n) = n.
Proof. revert start. induction n; intros; cbn; auto. Qed.

Lemma indices_In start n i :
  In i (indices start n) -> start <= i < start + Z.of_nat n.
Proof.
  revert start. induction n as [|n IH]; intros start; cbn [indices In].
  - tauto.
  - intros [<-|H]; [lia|]. apply IH in H. lia.
Qed.

Lemma indices_snoc start n :
  indices start (S n) = indices start n ++ [start + Z.of_nat n].
Proof.
  revert start. induction n as [|n IH]; intros start.
  - cbn. f_equal. lia.
  - change (indices start (S (S n))) with (start :: indices (start + 1) (S n)).
    rewrite IH. cbn [indices app]. do 2 f_equal. f_equal. lia.
Qed.

Lemma indices_nth start n k :
  (k < n)%nat -> nth_error (indices start n) k = Some (start + Z.of_nat k).
Proof.
  revert start k. induction n as [|n IH]; intros start k Hk; [lia|].
  destruct k as [|k]; cbn [indices nth_error].
  - f_equal. lia.
  - rewrite IH by lia. f_equal. lia.
Qed.

Lemma percent_values_sorted total n : forall start,
  0 < start -> start + Z.of_nat n - 1 <= total ->
  StronglySorted Z.le
    (map (fun i => percent_value i total) (indices start n)).
Proof.
  induction n as [|n IH]; intros start Hs Hn; cbn [indices map].
  - constructor.
  - constructor; [apply IH; lia|].
    apply Forall_forall. intros p Hp. apply in_map_iff in Hp.
    destruct Hp as (i & <- & Hi). apply indices_In in Hi.
    apply (percent_monotone start i total); try lia;
      apply percent_value_ok; lia.
Qed.

(** C1, amended. Every image of the list, failed or not, is followed by
    exactly one progress emission, and the value emitted after image number
    [idx] is [int(idx / total * 100)]: the double-precision product
    truncated toward zero, not rounded. *)
Theorem progress_per_image world self :
  List.length (progress (run world self)) = List.length (images self) /\
  Forall2 (fun idx p => percent idx (Z.of_nat (List.length (images self))) = Ok p)
    (indices 1 (List.length (images self)))
    (progress (run world self)).
Proof.
  rewrite run_spec. cbv zeta. destruct (canvas.save world _) as [c' r].
  cbn [progress].
  set (n := List.length (images self)).
  split; [now rewrite length_map, indices_length|].
  assert (H : forall l, (forall i, In i l -> 0 < i <= Z.of_nat n) ->
            Forall2 (fun idx p => percent idx (Z.of_nat n) = Ok p) l
              (map (fun i => percent_value i (Z.of_nat n)) l)).
  { induction l as [|i l IH]; intros Hl; cbn [map]; constructor.
    - apply percent_value_ok, Hl. now left.
    - apply IH. intros j Hj. apply Hl. now right. }
  apply H. intros i Hi. apply indices_In in Hi. lia.
Qed.

(** C7. Over a non-empty list the emitted percentages never decrease and
    the last one is 100, whichever images fail. *)
Theorem progress_monotone_to_100 world self :
  (1 <= List.length (images self))%nat ->
  StronglySorted Z.le (progress (run world self)) /\
  last (progress (run world self)) 0 = 100.
Proof.
  intros Hne. rewrite run_spec. cbv zeta.
  destruct (canvas.save world _) as [c' r]. cbn [progress].
  set (n := List.length (images self)) in *.
  split.
  - apply percent_values_sorted; lia.
  - destruct n as [|k]; [lia|].
    rewrite indices_snoc, map_app. cbn [map]. rewrite last_last.
    unfold percent_value.
    replace (1 + Z.of_nat k) with (Z.of_nat (S k)) by lia.
    now rewrite percent_complete by lia.
Qed.

Lemma progress_monotone_to_100_witness :
  (1 <= List.length
          (images (mkPDFWorker ["photo.png"; "corrupt.png"; "square.png"]
                     "out.pdf" true white)))%nat /\
  StronglySorted Z.le
    (progress (run example_world
                 (mkPDFWorker ["photo.png"; "corrupt.png"; "square.png"]
                    "out.pdf" true white))) /\
  last (progress (run example_world
                    (mkPDFWorker ["photo.png"; "corrupt.png"; "square.png"]
                       "out.pdf" true white))) 0 = 100.
Proof.
  split; [cbn; lia|].
  apply (progress_monotone_to_100 example_world
           (mkPDFWorker ["photo.png"; "corrupt.png"; "square.png"]
              "out.pdf" true white)).
  cbn; lia.
Defined.


(** ** Pages and failure entries *)


Section CanvasFacts.

Variable world : World.
Variable self : PDFWorker.
Variable a4 : Py.num * Py.num.

Lemma with_pagesize_fields width height c :
  filename (with_pagesize self width height c) = filename c /\
  code (with_pagesize self width height c) = code c /\
  pages (with_pagesize self width height c) = pages c /\
  saved (with_pagesize self width height c) = saved c.
Proof. unfold with_pagesize. destruct (use_a4 self); auto. Qed.

Lemma draw_page_filename img_path c :
  filename (fst (draw_page world self a4 img_path c)) = filename c.
Proof.
  rewrite draw_page_spec.
  destruct (image_open world img_path) as [[width height]|e]; [|reflexivity].
  cbv zeta. destruct (with_pagesize_fields width height c) as (Hf & _).
  destruct (compute_layout_on a4 (use_a4 self) width height); [|exact Hf].
  destruct (image_draw world img_path); exact Hf.
Qed.

Lemma canvas_after_filename imgs : forall c,
  filename (canvas_after world self a4 imgs c) = filename c.
Proof.
  induction imgs as [|p imgs IH]; intros c; [reflexivity|].
  cbn [canvas_after fold_left]. 
  change (fold_left _ imgs ?c0) with (canvas_after world self a4 imgs c0).
  now rewrite IH, draw_page_filename.
Qed.

Lemma code_images_app a b :
  code_images (a ++ b) = code_images a ++ code_images b.
Proof. apply flat_map_app. Qed.

Lemma code_images_background l : code_images (background self l) = [].
Proof. reflexivity. Qed.

Lemma document_images_snoc c p :
  flat_map page_images (pages c ++ [p]) = document_images c ++ page_images p.
Proof. unfold document_images. rewrite flat_map_app. cbn. now rewrite app_nil_r. Qed.

(** One image: the page under construction never keeps an image, a page
    is committed exactly when the image succeeds, and it shows that image
    only. *)
Lemma draw_page_images img_path c :
  code_images (code c) = [] ->
  let c' := fst (draw_page world self a4 img_path c) in
  code_images (code c') = [] /\
  document_images c' = document_images c ++ drawn world self a4 [img_path] /\
  (Forall (fun pg => (List.length (page_images pg) <= 1)%nat) (pages c) ->
   Forall (fun pg => (List.length (page_images pg) <= 1)%nat) (pages c')).
Proof.
  intros Hc. cbv zeta. rewrite draw_page_spec. unfold drawn, attempt.
  cbn [filter].
  destruct (image_open world img_path) as [[width height]|e].
  2:{ cbn [fst is_ok]. rewrite app_nil_r. auto. }
  cbv zeta. destruct (with_pagesize_fields width height c) as (_ & Hcode & Hpages & _).
  destruct (compute_layout_on a4 (use_a4 self) width height) as [l|e].
  2:{ cbn [fst is_ok]. unfold document_images. rewrite Hcode, Hpages, app_nil_r. auto. }
  destruct (image_draw world img_path) as [e|]; cbn [fst is_ok code pages].
  - unfold document_images. cbn [pages].
    rewrite Hcode, Hpages, code_images_app, Hc, !app_nil_r. auto.
  - split; [reflexivity|]. unfold document_images. cbn [pages].
    rewrite Hpages, flat_map_app. cbn [flat_map]. rewrite app_nil_r.
    unfold page_images at 2. cbn [page_code].
    rewrite Hcode, !code_images_app, Hc.
    cbn [app code_images flat_map op_images placed background].
    split; [reflexivity|].
    intros HF. apply Forall_app. split; [assumption|].
    constructor; [|constructor].
    unfold page_images. cbn [page_code].
    rewrite ?Hcode, !code_images_app, Hc. cbn. lia.
Qed.

Lemma canvas_after_images imgs : forall c,
  code_images (code c) = [] ->
  let c' := canvas_after world self a4 imgs c in
  code_images (code c') = [] /\
  document_images c' = document_images c ++ drawn world self a4 imgs /\
  (Forall (fun pg => (List.length (page_images pg) <= 1)%nat) (pages c) ->
   Forall (fun pg => (List.length (page_images pg) <= 1)%nat) (pages c')).
Proof.
  induction imgs as [|p imgs IH]; intros c Hc; cbv zeta.
  - cbn. rewrite app_nil_r. auto.
  - cbn [canvas_after fold_left].
    change (fold_left _ imgs ?c0) with (canvas_after world self a4 imgs c0).
    destruct (draw_page_images p c Hc) as (H1 & H2 & H3).
    destruct (IH _ H1) as (H4 & H5 & H6).
    split; [exact H4|]. split; [|auto].
    rewrite H5, H2, <- app_assoc. f_equal.
    unfold drawn. cbn [filter]. 
    destruct (is_ok (attempt world self a4 p)); reflexivity.
Qed.

Lemma save_spec c :
  canvas.save world c =
  let c1 := match code c with
            | [] => c
            | _ :: _ =>
                mkCanvas (filename c) (pagesize c) []
                  (pages c ++ [mkPage (pagesize c) (code c)]) (saved c)
            end in
  match file_write world (filename c) with
  | Some e => (c1, Raise e)
  | None =>
      (mkCanvas (filename c1) (pagesize c1) (code c1) (pages c1) true, Ok tt)
  end.
Proof.
  unfold canvas.save, canvas.showPage.
  destruct (code c) as [|o ops]; cbv zeta; reflexivity.
Qed.

Lemma save_images c :
  code_images (code c) = [] ->
  document_images (fst (canvas.save world c)) = document_images c /\
  (Forall (fun pg => (List.length (page_images pg) <= 1)%nat) (pages c) ->
   Forall (fun pg => (List.length (page_images pg) <= 1)%nat)
     (pages (fst (canvas.save world c)))).
Proof.
  intros Hc. rewrite save_spec. cbv zeta.
  assert (H : forall c1, 
            c1 = match code c with
                 | [] => c
                 | _ :: _ =>
                     mkCanvas (filename c) (pagesize c) []
                       (pages c ++ [mkPage (pagesize c) (code c)]) (saved c)
                 end ->
            document_images c1 = document_images c /\
            (Forall (fun pg => (List.length (page_images pg) <= 1)%nat) (pages c) ->
             Forall (fun pg => (List.length (page_images pg) <= 1)%nat) (pages c1))).
  { intros c1 ->. destruct (code c) as [|o ops] eqn:E; [auto|].
    unfold document_images. cbn [pages].
    rewrite flat_map_app. cbn [flat_map]. unfold page_images at 2.
    cbn [page_code]. rewrite Hc, !app_nil_r.
    split; [reflexivity|]. intros HF. apply Forall_app. split; [assumption|].
    constructor; [|constructor]. unfold page_images. cbn [page_code].
    rewrite Hc. cbn. lia. }
  destruct (H _ eq_refl) as [H1 H2].
  destruct (file_write world (filename c)); cbn [fst]; auto.
Qed.

(** When drawing does not fail, nothing is left on the page under
    construction and one page is committed per image drawn. *)
Lemma draw_page_clean img_path c :
  image_draw world img_path = None -> code c = [] ->
  code (fst (draw_page world self a4 img_path c)) = [] /\
  List.length (pages (fst (draw_page world self a4 img_path c)))
  = (List.length (pages c)
     + List.length (drawn world self a4 [img_path]))%nat.
Proof.
  intros Hd Hc. rewrite draw_page_spec. unfold drawn, attempt. cbn [filter].
  destruct (image_open world img_path) as [[width height]|e].
  2:{ cbn [fst is_ok List.length]. split; [assumption|lia]. }
  cbv zeta. destruct (with_pagesize_fields width height c) as (_ & Hcode & Hpages & _).
  destruct (compute_layout_on a4 (use_a4 self) width height) as [l|e].
  2:{ cbn [fst is_ok List.length]. rewrite Hcode, Hpages. split; [assumption|lia]. }
  rewrite Hd. cbn [fst is_ok code pages List.length].
  rewrite length_app, Hpages. cbn [List.length]. split; [reflexivity|lia].
Qed.

Lemma canvas_after_clean imgs : forall c,
  (forall p, In p imgs -> image_draw world p = None) -> code c = [] ->
  code (canvas_after world self a4 imgs c) = [] /\
  List.length (pages (canvas_after world self a4 imgs c))
  = (List.length (pages c) + List.length (drawn world self a4 imgs))%nat.
Proof.
  induction imgs as [|p imgs IH]; intros c Hd Hc.
  - cbn. split; [assumption|lia].
  - cbn [canvas_after fold_left].
    change (fold_left _ imgs ?c0) with (canvas_after world self a4 imgs c0).
    destruct (draw_page_clean p c (Hd p (or_introl eq_refl)) Hc) as [H1 H2].
    destruct (IH _ (fun q Hq => Hd q (or_intror Hq)) H1) as [H3 H4].
    split; [exact H3|]. rewrite H4, H2.
    unfold drawn. cbn [filter].
    destruct (is_ok (attempt world self a4 p)); cbn [List.length]; lia.
Qed.

Lemma failures_and_drawn imgs :
  (List.length (failure_entries world self a4 imgs)
   + List.length (drawn world self a4 imgs))%nat = List.length imgs.
Proof.
  induction imgs as [|p imgs IH]; [reflexivity|].
  unfold failure_entries, drawn in *. cbn [flat_map filter].
  rewrite length_app.
  destruct (attempt world self a4 p); cbn [is_ok List.length app] in *; lia.
Qed.

End CanvasFacts.

(** C8. The images shown by the pages of the document, read page after
    page, are exactly the images of the input list that were processed
    without error, in the order of the input list; no page shows two
    images. *)
Theorem pages_in_input_order world self :
  document_images (document (run world self))
  = drawn world self Units.A4 (images self) /\
  Forall (fun pg => (List.length (page_images pg) <= 1)%nat)
    (pages (document (run world self))).
Proof.
  rewrite run_spec. cbv zeta.
  set (c := canvas_after world self Units.A4 (images self) _).
  destruct (canvas_after_images world self Units.A4 (images self)
              (blank_canvas (output_file self)) eq_refl)
    as (H1 & H2 & H3).
  fold c in H1, H2, H3.
  destruct (save_images world c H1) as [H4 H5].
  destruct (canvas.save world c) as [c' r]. cbn [document fst] in *.
  split.
  - rewrite H4, H2. reflexivity.
  - apply H5, H3. constructor.
Qed.

(** C5. When writing the document fails, the list emitted on [finished]
    holds the per-image entries accumulated by the loop followed by exactly
    one entry for the failed creation; [run] ends by emitting it. *)
Theorem finalization_failure_reported world self e :
  file_write world (output_file self) = Some e ->
  finished (run world self)
  = failure_entries world self Units.A4 (images self) ++ [creation_failure e].
Proof.
  intros Hw. rewrite run_spec. cbv zeta. rewrite save_spec. cbv zeta.
  rewrite canvas_after_filename. cbn [blank_canvas filename]. rewrite Hw.
  reflexivity.
Qed.

(** C6, amended. For an empty list of images the document has no page and
    nothing is emitted on [progress]; the document is saved and the list
    emitted on [finished] is empty exactly when the destination can be
    written; when writing it raises [e], the list emitted on [finished] is
    the single entry of the failed creation. *)
Theorem empty_batch world self :
  images self = [] ->
  pages (document (run world self)) = [] /\
  progress (run world self) = [] /\
  finished (run world self)
  = match file_write world (output_file self) with
    | None => []
    | Some e => [creation_failure e]
    end /\
  saved (document (run world self))
  = match file_write world (output_file self) with
    | None => true
    | Some _ => false
    end.
Proof.
  intros Hi. rewrite run_spec. rewrite Hi. cbv zeta.
  cbn [canvas_after fold_left List.length indices map failure_entries flat_map].
  rewrite save_spec. cbn [blank_canvas filename code].
  destruct (file_write world (output_file self)) as [e|]; cbn; repeat split.
Qed.

Lemma finalization_failure_reported_witness :
  file_write readonly_world
    (output_file (mkPDFWorker ["photo.png"; "corrupt.png"] "out.pdf" true white))
  = Some (OSError "Permission denied") /\
  finished (run readonly_world
              (mkPDFWorker ["photo.png"; "corrupt.png"] "out.pdf" true white))
  = failure_entries readonly_world
      (mkPDFWorker ["photo.png"; "corrupt.png"] "out.pdf" true white)
      Units.A4 ["photo.png"; "corrupt.png"]
    ++ [creation_failure (OSError "Permission denied")].
Proof.
  split; [reflexivity|].
  apply (finalization_failure_reported readonly_world
           (mkPDFWorker ["photo.png"; "corrupt.png"] "out.pdf" true white)).
  reflexivity.
Defined.

Lemma empty_batch_witness :
  images (mkPDFWorker [] "out.pdf" true white) = [] /\
  pages (document (run example_world (mkPDFWorker [] "out.pdf" true white))) = [] /\
  progress (run example_world (mkPDFWorker [] "out.pdf" true white)) = [] /\
  finished (run example_world (mkPDFWorker [] "out.pdf" true white)) = [] /\
  saved (document (run example_world (mkPDFWorker [] "out.pdf" true white))) = true.
Proof.
  split; [reflexivity|].
  exact (empty_batch example_world (mkPDFWorker [] "out.pdf" true white) eq_refl).
Defined.

(** C6, as stated, fails: with an empty list and a destination that cannot
    be written, the list emitted on [finished] is not empty. *)
Lemma empty_batch_unwritable :
  let self := mkPDFWorker [] "out.pdf" true white in
  images self = [] /\
  pages (document (run readonly_world self)) = [] /\
  finished (run readonly_world self)
  = ["PDF creation failed: Permission denied"] /\
  saved (document (run readonly_world self)) = false.
Proof. vm_compute. repeat split. Qed.

(** Fault isolation where it holds: when no image fails in [drawImage],
    the saved document has one page per image processed without error,
    and every other image has exactly one entry in the failure list. *)
Theorem pages_without_draw_failure world self :
  (forall p, In p (images self) -> image_draw world p = None) ->
  List.length (pages (document (run world self)))
  = List.length (drawn world self Units.A4 (images self)) /\
  (List.length (failure_entries world self Units.A4 (images self))
   + List.length (drawn world self Units.A4 (images self)))%nat
  = List.length (images self).
Proof.
  intros Hd. split; [|apply failures_and_drawn].
  rewrite run_spec. cbv zeta.
  destruct (canvas_after_clean world self Units.A4 (images self)
              (blank_canvas (output_file self)) Hd eq_refl) as [H1 H2].
  rewrite save_spec. cbv zeta. rewrite H1.
  destruct (file_write world _); cbn [document pages]; rewrite H2; reflexivity.
Qed.


(** ** A failed drawing *)


(** C2 at a failing input: two images, the second of which opens but
    cannot be drawn.  One failure is recorded and both progress values are
    emitted, but the saved document has two pages, the second one holding
    only the background painted for the failed image. *)
Theorem failed_last_draw_adds_page :
  let self := mkPDFWorker ["photo.png"; "truncated.png"] "out.pdf" true white in
  let out := run example_world self in
  finished out = ["truncated.png (Error: image file is truncated)"] /\
  progress out = [50; 100] /\
  List.length (pages (document out)) = 2%nat /\
  map page_images (pages (document out)) = [["photo.png"]; []].
Proof. vm_compute. repeat split. Qed.


(** ** Inputs on which the specification and the code differ *)


(** C1, as stated, fails: after the second of three images the worker
    emits 66, while [round(2 / 3 * 100)] is 67. *)
Lemma progress_is_not_rounded :
  exists p,
    nth_error
      (progress (run example_world
                   (mkPDFWorker ["a.png"; "b.png"; "c.png"] "out.pdf" true white)))
      1 = Some p /\
    p = 66 /\ spec_percent 2 3 = Ok 67.
Proof. exists 66. vm_compute. repeat split. Qed.

(** C3, as stated, fails: a 71x71 image on the A4 page is drawn wider than
    the page. *)
Lemma fixed_size_overshoot :
  exists L,
    compute_layout true 71 71 = Ok L /\
    Py.lt (page_width L) (new_width L) = true.
Proof. eexists. split; vm_compute; reflexivity. Qed.

(** ** The match-image layout, and when the layout raises *)


Lemma compute_layout_match width height :
  compute_layout false width height
  = Ok (mkLayout (Py.Int width) (Py.Int height) (Py.Int 1)
          (Py.Int width) (Py.Int height)
          (Py.Float (S754_zero false)) (Py.Float (S754_zero false))).
Proof.
  unfold compute_layout, compute_layout_on, page_and_ratio.
  cbn [negb rbind place Py.mul Py.sub Py.truediv].
  rewrite !Z.mul_1_r, !Z.sub_diag. reflexivity.
Qed.

(** C9. Under the match-image policy the page has the size of the image,
    the ratio is 1, the image is drawn at its own size and the offsets are
    0.0, for every image size. *)
Theorem layout_match_image width height :
  exists L,
    compute_layout false width height = Ok L /\
    page_width L = Py.Int width /\ page_height L = Py.Int height /\
    ratio L = Py.Int 1 /\
    new_width L = Py.Int width /\ new_height L = Py.Int height /\
    x L = Py.Float (S754_zero false) /\ y L = Py.Float (S754_zero false).
Proof.
  eexists. split; [apply compute_layout_match|]. cbn. repeat split.
Qed.

Lemma binary_round_aux_is_zero s m e l :
  Py.is_zero (binary_round_aux Py.prec Py.emax s m e l)
  = Py.is_zero (binary_round_aux Py.prec Py.emax false m e l).
Proof.
  unfold binary_round_aux.
  destruct (shr_fexp Py.prec Py.emax m e l) as [mrs e1].
  destruct (shr_fexp Py.prec Py.emax _ e1 loc_Exact) as [mrs2 e2].
  destruct (shr_m mrs2); [reflexivity| |reflexivity].
  destruct (e2 <=? Py.emax - Py.prec); reflexivity.
Qed.

Lemma pack_nonzero s m e :
  0 < m <= 2 ^ 53 -> -1074 <= e -> Py.is_zero (pack s m e) = false.
Proof.
  intros Hm He. unfold pack, shr_fexp. rewrite fexp_eq.
  destruct (Z.eq_dec m (2 ^ 53)) as [->|Hne].
  - change (Zdigits2 (2 ^ 53)) with 54.
    replace (fexp64 (54 + e) - e) with 1 by (unfold fexp64; lia).
    cbn [shr iter_pos shr_record_of_loc].
    change (shr_m (shr_1 {| shr_m := 2 ^ 53; shr_r := false; shr_s := false |}))
      with (Z.pos (2 ^ 52)).
    cbv iota beta. destruct (e + 1 <=? Py.emax - Py.prec); reflexivity.
  - assert (Hd : Zdigits2 m <= 53) by (apply Zdigits2_le_iff; lia).
    pose proof (Zdigits2_nonneg m) as Hd0.
    remember (fexp64 (Zdigits2 m + e) - e) as n eqn:Hn'.
    assert (Hle : n <= 0) by (unfold fexp64 in Hn'; lia).
    assert (Hshr : shr (shr_record_of_loc m loc_Exact) e n
                   = (shr_record_of_loc m loc_Exact, e)).
    { destruct n; try reflexivity. lia. }
    rewrite Hshr. cbn [shr_record_of_loc shr_m].
    destruct m as [|p|p]; try lia.
    destruct (e <=? Py.emax - Py.prec); reflexivity.
Qed.

Lemma shl_align_int p :
  exists mz ez,
    shl_align p 0 (fexp Py.prec Py.emax (Z.pos (digits2_pos p) + 0)) = (mz, ez) /\
    ez <= fexp64 (Zdigits2 (Z.pos mz) + ez) /\
    F2R (Z.pos mz) ez = IZR (Z.pos p).
Proof.
  rewrite fexp_eq. change (Z.pos (digits2_pos p)) with (Zdigits2 (Z.pos p)).
  pose proof (Zdigits2_pos (Z.pos p) ltac:(lia)) as Hd.
  set (d := Zdigits2 (Z.pos p)) in *.
  assert (Hfe : fexp64 (d + 0) = d - 53) by (unfold fexp64; lia).
  rewrite Hfe. unfold shl_align.
  remember (d - 53 - 0) as n eqn:Hn.
  destruct n as [|k|k]; eexists _, _; (split; [reflexivity|]).
  - split; [fold d; unfold fexp64; lia|apply F2R_exp0].
  - split; [fold d; unfold fexp64; lia|apply F2R_exp0].
  - split.
    + rewrite iter_xO, Zdigits2_shift by lia. fold d. unfold fexp64. lia.
    + rewrite iter_xO, F2R_shift by lia.
      replace (d - 53 + Z.pos k) with 0 by lia. apply F2R_exp0.
Qed.

Lemma binary_round_int_nonzero s p :
  Py.is_zero (binary_round Py.prec Py.emax s p 0) = false.
Proof.
  unfold binary_round.
  destruct (shl_align_int p) as (mz & ez & -> & Had & Hval).
  rewrite binary_round_aux_is_zero.
  assert (Hl : located (Z.pos mz) ez loc_Exact (IZR (Z.pos p)))
    by (cbn [located]; now rewrite Hval).
  destruct (binary_round_aux_correct false _ _ _ _ (Pos2Z.is_nonneg mz) Had Hl)
    as (m1 & e1 & l1 & (Hm1 & He1 & Hn1) & Hl1 & ->).
  apply pack_nonzero; [|assumption].
  destruct (rne_cases m1 l1) as [E|E]; rewrite E; [|lia].
  destruct (Z.eq_dec m1 0) as [->|]; [exfalso|lia].
  destruct (located_bounds _ _ _ _ Hl1) as [_ Hhi].
  assert (He : e1 = -1074) by lia. subst e1.
  assert (H1 : (1 <= IZR (Z.pos p))%R) by (apply IZR_le; lia).
  assert (H2 : (F2R (0 + 1) (-1074) <= 1)%R).
  { unfold F2R. cbn [Z.add]. rewrite Rmult_1_l. rewrite <- bpow_0.
    apply bpow_le. lia. }
  lra.
Qed.

Lemma float_of_int_nonzero z f :
  z <> 0 -> Py.float_of_int z = Ok f -> Py.is_zero f = false.
Proof.
  intros Hz. unfold Py.float_of_int.
  destruct z as [|p|p]; [congruence| |]; cbn [binary_normalize];
    pose proof (binary_round_int_nonzero false p) as Hp;
    pose proof (binary_round_int_nonzero true p) as Hn.
  - destruct (Py.is_finite _); [|discriminate]. now intros [= <-].
  - destruct (Py.is_finite _); [|discriminate]. now intros [= <-].
Qed.

Lemma place_floats W H r width height w' h' :
  Py.float_of_int width = Ok w' -> Py.float_of_int height = Ok h' ->
  place width height (Py.Float W, Py.Float H, Py.Float r)
  = Ok (mkLayout (Py.Float W) (Py.Float H) (Py.Float r)
          (Py.Float (Py.fmul w' r)) (Py.Float (Py.fmul h' r))
          (Py.Float (Py.fdiv (Py.fsub W (Py.fmul w' r)) f2))
          (Py.Float (Py.fdiv (Py.fsub H (Py.fmul h' r)) f2))).
Proof.
  intros Ew Eh. unfold place.
  rewrite (mul_int_float width w' r Ew). cbn [rbind].
  rewrite (mul_int_float height h' r Eh). cbn [rbind Py.sub Py.to_float].
  rewrite (truediv_float_int _ 2 f2 float_of_int_2 eq_refl). cbn [rbind].
  rewrite (truediv_float_int _ 2 f2 float_of_int_2 eq_refl). reflexivity.
Qed.

Lemma truediv_float_int_cases W z :
  Py.truediv (Py.Float W) (Py.Int z)
  = match Py.float_of_int z with
    | Ok z' =>
        if Py.is_zero z'
        then Raise (ZeroDivisionError "float division by zero")
        else Ok (Py.Float (Py.fdiv W z'))
    | Raise e => Raise e
    end.
Proof.
  cbn [Py.truediv Py.to_float rbind].
  destruct (Py.float_of_int z); reflexivity.
Qed.

Lemma float_of_int_error z e :
  Py.float_of_int z = Raise e ->
  e = OverflowError "int too large to convert to float".
Proof.
  unfold Py.float_of_int. destruct (Py.is_finite _); [discriminate|].
  now intros [= <-].
Qed.

(** When the fixed-size layout raises, and what. *)
Lemma compute_layout_fixed_cases width height :
  (is_ok (compute_layout true width height) = false <->
   width = 0 \/ height = 0 \/
   is_ok (Py.float_of_int width) = false \/
   is_ok (Py.float_of_int height) = false) /\
  (width = 0 \/ (height = 0 /\ is_ok (Py.float_of_int width) = true) ->
   compute_layout true width height
   = Raise (ZeroDivisionError "float division by zero")) /\
  (is_ok (Py.float_of_int width) = false \/
   (width <> 0 /\ height <> 0 /\ is_ok (Py.float_of_int height) = false) ->
   compute_layout true width height
   = Raise (OverflowError "int too large to convert to float")).
Proof.
  unfold compute_layout, compute_layout_on, page_and_ratio, Units.A4.
  cbn [negb]. rewrite !truediv_float_int_cases.
  destruct (Z.eq_dec width 0) as [->|Hw].
  { split; [split; auto|]. split; [reflexivity|].
    intros [H|[H _]]; [discriminate|contradiction]. }
  destruct (Py.float_of_int width) as [w'|ew] eqn:Ew; cbn [rbind is_ok].
  2:{ apply float_of_int_error in Ew. subst ew.
      split; [split; auto|]. split; [|reflexivity].
      intros [?|[_ ?]]; [contradiction|discriminate]. }
  rewrite (float_of_int_nonzero width w' Hw Ew). cbn [rbind].
  destruct (Z.eq_dec height 0) as [->|Hh].
  { split; [split; auto|]. split; [reflexivity|].
    intros [H|(_ & H & _)]; [discriminate|contradiction]. }
  destruct (Py.float_of_int height) as [h'|eh] eqn:Eh; cbn [rbind is_ok].
  2:{ apply float_of_int_error in Eh. subst eh.
      split; [split; auto|]. split; [|reflexivity].
      intros [?|[? _]]; contradiction. }
  rewrite (float_of_int_nonzero height h' Hh Eh). cbn [rbind].
  rewrite min_floats, (place_floats _ _ _ _ _ w' h' Ew Eh). cbn [is_ok].
  split; [|split].
  - split; [discriminate|]. intros [?|[?|[?|?]]]; try contradiction; discriminate.
  - intros [?|[? _]]; contradiction.
  - intros [?|(_ & _ & ?)]; discriminate.
Qed.


(** ** The layout on the A4 page *)

Local Open Scope R_scope.


Lemma succ_above m e :
  (0 <= m <= 2 ^ 53)%Z -> F2R m e * (1 + bpow (-53)) <= F2R (m + 1) e.
Proof.
  intros Hm. rewrite F2R_plus1. unfold F2R.
  assert (H : IZR m * bpow (-53) <= 1).
  { apply Rle_trans with (IZR (2 ^ 53) * bpow (-53)).
    - apply Rmult_le_compat_r; [apply Rlt_le, bpow_gt_0|apply IZR_le; lia].
    - rewrite <- (bpow_IZR 53), <- bpow_plus by lia.
      change (53 + -53)%Z with 0%Z. rewrite bpow_0. lra. }
  pose proof (bpow_gt_0 e). nra.
Qed.

Lemma succ_below m e :
  (2 ^ 52 <= m)%Z -> F2R (m + 1) e <= F2R m e * (1 + bpow (-52)).
Proof.
  intros Hm. rewrite F2R_plus1. unfold F2R.
  assert (H : 1 <= IZR m * bpow (-52)).
  { apply Rle_trans with (IZR (2 ^ 52) * bpow (-52)).
    - rewrite <- (bpow_IZR 52), <- bpow_plus by lia.
      change (52 + -52)%Z with 0%Z. rewrite bpow_0. lra.
    - apply Rmult_le_compat_r; [apply Rlt_le, bpow_gt_0|apply IZR_le; lia]. }
  pose proof (bpow_gt_0 e). nra.
Qed.

Lemma F2R_ge_4 m : (2 ^ 52 <= m)%Z -> 4 <= F2R m (-43).
Proof.
  intros Hm. apply Rle_trans with (F2R (2 ^ 52) (-43)); [|apply F2R_le; lia].
  unfold F2R. rewrite <- (bpow_IZR 52), <- bpow_plus by lia.
  change (52 + -43)%Z with (2 + 7)%Z. rewrite bpow_plus.
  assert (bpow 2 = 4) by (unfold bpow; simpl; lra).
  pose proof (bpow_ge_1 7 ltac:(lia)). nra.
Qed.

(** C3, amended. For an image with positive dimensions (up to 2^1023)
    under the fixed-size policy, the page is A4, the ratio is
    [min(W / imgW, H / imgH)], the drawn size is
    [(imgW * ratio, imgH * ratio)] and the offsets are
    [((W - drawnW) / 2, (H - drawnH) / 2)], each operation rounded to a
    double; the drawn size keeps the aspect ratio [imgW / imgH] within a
    relative error of 2^-50, and exceeds the page by at most one rounding
    error: [drawnW <= W * (1 + 2^-52)] and [drawnH <= H * (1 + 2^-52)]. *)
Theorem layout_fixed_size width height :
  (0 < width <= 2 ^ 1023)%Z -> (0 < height <= 2 ^ 1023)%Z ->
  exists L rw rh dx dy,
    compute_layout true width height = Ok L /\
    (page_width L, page_height L) = Units.A4 /\
    Py.truediv (page_width L) (Py.Int width) = Ok rw /\
    Py.truediv (page_height L) (Py.Int height) = Ok rh /\
    ratio L = Py.min rw rh /\
    Py.mul (Py.Int width) (ratio L) = Ok (new_width L) /\
    Py.mul (Py.Int height) (ratio L) = Ok (new_height L) /\
    Py.sub (page_width L) (new_width L) = Ok dx /\
    Py.truediv dx (Py.Int 2) = Ok (x L) /\
    Py.sub (page_height L) (new_height L) = Ok dy /\
    Py.truediv dy (Py.Int 2) = Ok (y L) /\
    num_R (new_width L) <= num_R (page_width L) * (1 + bpow (-52)) /\
    num_R (new_height L) <= num_R (page_height L) * (1 + bpow (-52)) /\
    0 < num_R (new_height L) /\
    Rabs (num_R (new_width L) / num_R (new_height L)
          - IZR width / IZR height)
    <= bpow (-50) * (IZR width / IZR height).
Proof.
  intros Hw Hh.
  assert (HW : nonneg64 Units.A4_width) by (cbn; unfold canon; lia).
  assert (HH : nonneg64 Units.A4_height) by (cbn; unfold canon; lia).
  assert (HWp : nonneg64 A4_width_succ) by (cbn; unfold canon; lia).
  assert (HHp : nonneg64 A4_height_succ) by (cbn; unfold canon; lia).
  assert (HW4 : 4 <= B2R Units.A4_width)
    by (apply (F2R_ge_4 5236099468337991); lia).
  assert (HH4 : 4 <= B2R Units.A4_height)
    by (apply (F2R_ge_4 7405340676649445); lia).
  assert (HWWp : B2R Units.A4_width * (1 + bpow (-53)) <= B2R A4_width_succ)
    by (apply (succ_above 5236099468337991); lia).
  assert (HHHp : B2R Units.A4_height * (1 + bpow (-53)) <= B2R A4_height_succ)
    by (apply (succ_above 7405340676649445); lia).
  assert (HWs : B2R A4_width_succ <= B2R Units.A4_width * (1 + bpow (-52)))
    by (apply (succ_below 5236099468337991); lia).
  assert (HHs : B2R A4_height_succ <= B2R Units.A4_height * (1 + bpow (-52)))
    by (apply (succ_below 7405340676649445); lia).
  destruct (layout_fixed Units.A4_width Units.A4_height A4_width_succ
              A4_height_succ HW HWp HW4 HWWp HH HHp HH4 HHHp width height Hw Hh)
    as (w' & h' & Ew & Eh & HL & Hnw & Hnh & Hpos & Hasp).
  cbv zeta in *.
  destruct (float_of_dim width Hw) as (w2 & Ew2 & Hnw' & Hw1 & _).
  destruct (float_of_dim height Hh) as (h2 & Eh2 & Hnh' & Hh1 & _).
  rewrite Ew in Ew2. injection Ew2 as <-.
  rewrite Eh in Eh2. injection Eh2 as <-.
  set (r := if Py.flt (Py.fdiv Units.A4_height h') (Py.fdiv Units.A4_width w')
            then Py.fdiv Units.A4_height h' else Py.fdiv Units.A4_width w') in *.
  eexists _, (Py.Float (Py.fdiv Units.A4_width w')),
    (Py.Float (Py.fdiv Units.A4_height h')), _, _.
  split; [exact HL|]. cbn [page_width page_height ratio new_width new_height x y].
  split; [reflexivity|].
  split; [apply truediv_float_int; [exact Ew|apply nonneg64_is_zero; [assumption|lra]]|].
  split; [apply truediv_float_int; [exact Eh|apply nonneg64_is_zero; [assumption|lra]]|].
  split; [now rewrite min_floats|].
  split; [now apply mul_int_float|].
  split; [now apply mul_int_float|].
  split; [reflexivity|].
  split; [exact (truediv_float_int _ 2 f2 float_of_int_2 eq_refl)|].
  split; [reflexivity|].
  split; [exact (truediv_float_int _ 2 f2 float_of_int_2 eq_refl)|].
  cbn [num_R]. split; [lra|]. split; [lra|]. split; assumption.
Qed.

Lemma layout_fixed_size_witness :
  (0 < 800 <= 2 ^ 1023)%Z /\ (0 < 600 <= 2 ^ 1023)%Z /\
  exists L,
    compute_layout true 800 600 = Ok L /\
    (page_width L, page_height L) = Units.A4 /\
    num_R (new_width L) <= num_R (page_width L) * (1 + bpow (-52)) /\
    num_R (new_height L) <= num_R (page_height L) * (1 + bpow (-52)).
Proof.
  assert (H800 : (0 < 800 <= 2 ^ 1023)%Z)
    by (split; [reflexivity|apply Z.leb_le; vm_compute; reflexivity]).
  assert (H600 : (0 < 600 <= 2 ^ 1023)%Z)
    by (split; [reflexivity|apply Z.leb_le; vm_compute; reflexivity]).
  split; [exact H800|]. split; [exact H600|].
  destruct (layout_fixed_size 800 600 H800 H600) as (L & rw & rh & dx & dy & H).
  exists L. tauto.
Defined.


Local Close Scope R_scope.

(** * Further properties of the worker *)

(** ** What [run] emits *)

Lemma run_progress world self :
  progress (run world self)
  = map (fun i => percent_value i (Z.of_nat (List.length (images self))))
      (indices 1 (List.length (images self))).
Proof.
  rewrite run_spec. cbv zeta. now destruct (canvas.save world _).
Qed.

Lemma run_finished world self :
  finished (run world self)
  = failure_entries world self Units.A4 (images self)
    ++ match file_write world (output_file self) with
       | None => []
       | Some e => [creation_failure e]
       end.
Proof.
  rewrite run_spec. cbv zeta. rewrite save_spec. cbv zeta.
  rewrite canvas_after_filename. cbn [blank_canvas filename].
  destruct (file_write world (output_file self)); reflexivity.
Qed.

Lemma draw_page_saved world self a4 img_path c :
  saved (fst (draw_page world self a4 img_path c)) = saved c.
Proof.
  rewrite draw_page_spec.
  destruct (image_open world img_path) as [[width height]|e]; [|reflexivity].
  cbv zeta. destruct (with_pagesize_fields self width height c) as (_ & _ & _ & Hs).
  destruct (compute_layout_on a4 (use_a4 self) width height); [|exact Hs].
  destruct (image_draw world img_path); exact Hs.
Qed.

Lemma canvas_after_saved world self a4 imgs : forall c,
  saved (canvas_after world self a4 imgs c) = saved c.
Proof.
  induction imgs as [|p imgs IH]; intros c; [reflexivity|].
  cbn [canvas_after fold_left].
  change (fold_left _ imgs ?c0) with (canvas_after world self a4 imgs c0).
  now rewrite IH, draw_page_saved.
Qed.

Lemma run_saved world self :
  saved (document (run world self))
  = match file_write world (output_file self) with
    | None => true
    | Some _ => false
    end.
Proof.
  rewrite run_spec. cbv zeta. rewrite save_spec. cbv zeta.
  rewrite canvas_after_filename. cbn [blank_canvas filename].
  destruct (file_write world (output_file self)); cbn [document saved fst];
    [|reflexivity].
  destruct (code _); cbn [saved]; now rewrite canvas_after_saved.
Qed.

Lemma failure_entries_nil world self a4 imgs :
  failure_entries world self a4 imgs = [] <->
  Forall (fun p => is_ok (attempt world self a4 p) = true) imgs.
Proof.
  induction imgs as [|p imgs IH]; [split; constructor|].
  unfold failure_entries in *. cbn [flat_map].
  destruct (attempt world self a4 p) as [l|e] eqn:E; cbn [app].
  - rewrite IH. split; intros H.
    + constructor; [now rewrite E|assumption].
    + now inversion H.
  - split; [discriminate|]. intros H. inversion H as [|? ? H1 _]; subst.
    rewrite E in H1. discriminate.
Qed.

Lemma percent_values_range n :
  Forall (fun p => 0 <= p <= 100)
    (map (fun i => percent_value i (Z.of_nat n)) (indices 1 n)).
Proof.
  apply Forall_forall. intros p Hp.
  apply in_map_iff in Hp. destruct Hp as (i & <- & Hi).
  apply indices_In in Hi.
  apply (percent_range i (Z.of_nat n)); [lia|].
  apply percent_value_ok. lia.
Qed.

Lemma progress_last world self :
  images self <> [] -> last (progress (run world self)) 0 = 100.
Proof.
  intros Hne. rewrite run_progress.
  destruct (images self) as [|p imgs]; [congruence|].
  cbn [List.length]. set (k := List.length imgs).
  rewrite indices_snoc, map_app. cbn [map]. rewrite last_last.
  unfold percent_value.
  replace (1 + Z.of_nat k) with (Z.of_nat (S k)) by lia.
  now rewrite percent_complete by lia.
Qed.

(** X1. The list emitted on [finished] is empty exactly when every image
    was opened, laid out and drawn without an exception and the document
    was written. *)
Theorem finished_empty_iff world self :
  finished (run world self) = [] <->
  Forall (fun p => is_ok (attempt world self Units.A4 p) = true) (images self) /\
  file_write world (output_file self) = None.
Proof.
  rewrite run_finished, <- failure_entries_nil. split.
  - intros H. apply app_eq_nil in H. destruct H as [H1 H2].
    split; [assumption|]. destruct (file_write world (output_file self));
      [discriminate|reflexivity].
  - intros [H1 H2]. now rewrite H1, H2.
Qed.

(** X2. Every value emitted on [progress] lies between 0 and 100, whatever
    the length of the list and whichever images fail. *)
Theorem progress_in_range world self :
  Forall (fun p => 0 <= p <= 100) (progress (run world self)).
Proof. rewrite run_progress. apply percent_values_range. Qed.

(** X3. Position by position, an image of the list is shown on a page
    exactly when opening it, laying it out and drawing it succeeds, and
    has its entry in the list emitted on [finished] exactly when one of
    them raises, so that no image is both shown and reported, or neither:
    the images on the pages are the list filtered by success, and the list
    emitted on [finished] holds, in the order of the list, one entry for
    every image that raised, followed by one more entry exactly when the
    document could not be written. *)
Theorem drawn_or_reported world self :
  document_images (document (run world self))
  = filter (fun img_path => is_ok (attempt world self Units.A4 img_path))
      (images self) /\
  finished (run world self)
  = flat_map (fun img_path =>
                match attempt world self Units.A4 img_path with
                | Ok _ => []
                | Raise e => [image_failure img_path e]
                end) (images self)
    ++ match file_write world (output_file self) with
       | None => []
       | Some e => [creation_failure e]
       end.
Proof.
  split.
  - rewrite run_spec. cbv zeta.
    destruct (canvas_after_images world self Units.A4 (images self)
                (blank_canvas (output_file self)) eq_refl) as (H1 & H2 & _).
    destruct (save_images world _ H1) as [H4 _].
    destruct (canvas.save world _) as [c' r]. cbn [document fst] in *.
    rewrite H4, H2. reflexivity.
  - apply run_finished.
Qed.

(** ** The progress value and the exact percentage *)

Local Open Scope R_scope.

Lemma bpow_m45 : bpow (-45) = / IZR (2 ^ 45).
Proof.
  rewrite <- (bpow_IZR 45) by lia.
  apply Rmult_eq_reg_r with (bpow 45); [|pose proof (bpow_gt_0 45); lra].
  rewrite <- bpow_plus. change (-45 + 45)%Z with 0%Z. rewrite bpow_0.
  rewrite Rinv_l; [reflexivity|]. pose proof (bpow_gt_0 45). lra.
Qed.

(** The value computed for an index stays within 2^-45 of the exact
    percentage. *)
Lemma percent_error idx total :
  (0 < idx <= total)%Z -> (total <= 2 ^ 45)%Z ->
  exists n p,
    percent idx total = Ok n /\ IZR n <= p < IZR n + 1 /\
    Rabs (p - 100 * (IZR idx / IZR total)) < bpow (-45).
Proof.
  intros Hi Ht.
  destruct (percent_correct idx total Hi)
    as (q & n & _ & Hq & Hr & Hp & Hrp & En & E).
  destruct (int_of_float_floor _ Hp) as (n' & En' & Hn).
  rewrite En in En'. injection En' as <-.
  exists n, (B2R (Py.fmul q f100)). split; [exact E|]. split; [exact Hn|].
  set (v := IZR idx / IZR total) in *.
  assert (HT : 0 < IZR total) by (apply IZR_lt; lia).
  assert (HI : 1 <= IZR idx) by (apply IZR_le; lia).
  assert (HIT : IZR idx <= IZR total) by (apply IZR_le; lia).
  assert (HT45 : IZR total <= IZR (2 ^ 45)) by (apply IZR_le; lia).
  assert (Hv1 : v <= 1).
  { unfold v. apply Rmult_le_reg_r with (IZR total); [assumption|].
    unfold Rdiv. rewrite Rmult_assoc, Rinv_l by lra. lra. }
  assert (Hv0 : bpow (-45) <= v).
  { rewrite bpow_m45. unfold v, Rdiv.
    apply Rle_trans with (1 * / IZR total).
    - rewrite Rmult_1_l. apply Rinv_le_contravar; assumption.
    - apply Rmult_le_compat_r; [|assumption].
      apply Rlt_le, Rinv_0_lt_compat. assumption. }
  assert (Hb : bpow (-1021) <= bpow (-45)) by (apply bpow_le; lia).
  assert (Hv0' : bpow (-1021) <= v) by lra.
  pose proof (rounds_to_error _ _ Hv0' Hr) as He1.
  apply Rabs_le_bounds in He1.
  assert (H53 : bpow (-53) * 256 = bpow (-45)).
  { replace 256 with (bpow 8) by (unfold bpow; simpl; lra).
    now rewrite <- bpow_plus. }
  assert (H53s : bpow (-53) <= / 256).
  { pose proof (bpow_le (-53) (-8) ltac:(lia)) as H.
    replace (bpow (-8)) with (/ 256) in H by (unfold bpow; simpl; lra).
    exact H. }
  pose proof (bpow_gt_0 (-53)) as H53p.
  pose proof (bpow_gt_0 (-45)) as H45p.
  assert (Hq0 : bpow (-1021) <= B2R q * 100).
  { assert (v * (1 - bpow (-53)) <= B2R q) by lra.
    assert (v * (1 - / 256) <= v * (1 - bpow (-53))).
    { apply Rmult_le_compat_l; lra. }
    lra. }
  pose proof (rounds_to_error _ _ Hq0 Hrp) as He2.
  apply Rabs_le_bounds in He2.
  assert (Hq2 : B2R q <= v * (1 + bpow (-53))) by lra.
  assert (Hvb : v * bpow (-53) <= bpow (-53)).
  { rewrite <- (Rmult_1_l (bpow (-53))) at 2.
    apply Rmult_le_compat_r; lra. }
  assert (Hqb : B2R q * bpow (-53) <= 2 * bpow (-53)).
  { assert (B2R q <= 2) by nra. nra. }
  apply Rabs_def1; nra.
Qed.

Lemma fraction_gap r total :
  (0 < r < total)%Z -> (total <= 2 ^ 45)%Z ->
  bpow (-45) <= IZR r / IZR total <= 1 - bpow (-45).
Proof.
  intros Hr Ht.
  assert (HT : 0 < IZR total) by (apply IZR_lt; lia).
  assert (Hinv : / IZR (2 ^ 45) <= / IZR total).
  { apply Rinv_le_contravar; [assumption|apply IZR_le; lia]. }
  rewrite bpow_m45. split.
  - unfold Rdiv. apply Rle_trans with (1 * / IZR total); [lra|].
    apply Rmult_le_compat_r.
    + apply Rlt_le, Rinv_0_lt_compat. assumption.
    + apply IZR_le. lia.
  - apply Rle_trans with (1 - / IZR total); [|lra].
    apply Rmult_le_reg_r with (IZR total); [assumption|].
    unfold Rdiv. rewrite Rmult_assoc, Rmult_minus_distr_r, Rinv_l by lra.
    rewrite Rmult_1_r, Rmult_1_l.
    assert (H : IZR r <= IZR (total - 1)) by (apply IZR_le; lia).
    rewrite minus_IZR in H. lra.
Qed.

(** X4. For a list of up to 2^45 images, the progress value is the
    percentage [100 * idx / total] rounded down to a whole number, except
    that it can be one less where the exact percentage is a whole number
    (image 57 of 100 gives 56). *)
Theorem percent_floor idx total :
  (0 < idx <= total)%Z -> (total <= 2 ^ 45)%Z ->
  exists n,
    percent idx total = Ok n /\
    (100 * idx / total - 1 <= n <= 100 * idx / total)%Z /\
    ((100 * idx) mod total <> 0 -> n = 100 * idx / total)%Z.
Proof.
  intros Hi Ht.
  destruct (percent_error idx total Hi Ht) as (n & p & E & [Hlo Hhi] & Herr).
  exists n. split; [exact E|].
  apply Rabs_def2 in Herr. destruct Herr as [Hup Hdn].
  set (k := (100 * idx / total)%Z). set (r := ((100 * idx) mod total)%Z).
  assert (Hd : (100 * idx = total * k + r)%Z) by (apply Z.div_mod; lia).
  assert (Hr : (0 <= r < total)%Z) by (apply Z.mod_pos_bound; lia).
  assert (HT : 0 < IZR total) by (apply IZR_lt; lia).
  assert (Hv : 100 * (IZR idx / IZR total) = IZR k + IZR r / IZR total).
  { apply (f_equal IZR) in Hd. rewrite plus_IZR, !mult_IZR in Hd.
    change (IZR 100) with 100 in Hd. field_simplify_eq; lra. }
  rewrite Hv in Hup, Hdn.
  assert (H45 : bpow (-45) < 1).
  { replace 1 with (bpow 0) by apply bpow_0. apply bpow_lt. lia. }
  pose proof (bpow_gt_0 (-45)) as H45p.
  destruct (Z.eq_dec r 0) as [E0|Hne].
  - rewrite E0 in Hup, Hdn. unfold Rdiv in Hup, Hdn.
    rewrite Rmult_0_l in Hup, Hdn.
    assert (H1 : IZR (k - 2) < IZR n) by (rewrite minus_IZR; lra).
    assert (H2 : IZR n < IZR (k + 1)) by (rewrite plus_IZR; lra).
    apply lt_IZR in H1. apply lt_IZR in H2.
    split; [lia|]. intros H. contradiction.
  - destruct (fraction_gap r total ltac:(lia) Ht) as [Hg1 Hg2].
    assert (H1 : IZR (k - 1) < IZR n) by (rewrite minus_IZR; lra).
    assert (H2 : IZR n < IZR (k + 1)) by (rewrite plus_IZR; lra).
    apply lt_IZR in H1. apply lt_IZR in H2.
    split; [lia|]. intros _. lia.
Qed.

Lemma percent_floor_witness :
  (0 < 57 <= 100)%Z /\ (100 <= 2 ^ 45)%Z /\
  exists n,
    percent 57 100 = Ok n /\
    (100 * 57 / 100 - 1 <= n <= 100 * 57 / 100)%Z /\
    ((100 * 57) mod 100 <> 0 -> n = 100 * 57 / 100)%Z.
Proof.
  assert (H1 : (0 < 57 <= 100)%Z) by lia.
  assert (H2 : (100 <= 2 ^ 45)%Z) by (apply Z.leb_le; vm_compute; reflexivity).
  split; [exact H1|]. split; [exact H2|].
  exact (percent_floor 57 100 H1 H2).
Defined.

(** ** Filling the page *)

Section Fill.

Variables W Wp : spec_float.
Hypothesis HW : nonneg64 W.
Hypothesis HWp : nonneg64 Wp.
Hypothesis HW4 : 4 <= B2R W.
Hypothesis HWWp : B2R W * (1 + bpow (-53)) <= B2R Wp.

(** Scaling a dimension by the ratio computed from it gives the page
    dimension back, up to two roundings. *)
Lemma fill_dim w' :
  nonneg64 w' -> 1 <= B2R w' <= bpow 1023 ->
  B2R W * (1 - bpow (-52)) <= B2R (Py.fmul w' (Py.fdiv W w')).
Proof.
  intros Hw' [Hlo Hhi].
  destruct (scale_dim W Wp HW HW4 HWWp w' Hw' (conj Hlo Hhi))
    as (Hnr & Hr1 & Hrp).
  destruct (drawn_dim Wp HWp w' (Py.fdiv W w') Hw' Hnr Hlo Hr1 Hrp)
    as (_ & _ & He).
  apply Rabs_le_bounds in He.
  assert (Hq : B2R W / B2R w' <= B2R W).
  { apply Rmult_le_reg_r with (B2R w'); [lra|].
    unfold Rdiv. rewrite Rmult_assoc, Rinv_l, Rmult_1_r by lra. nra. }
  destruct (fdiv_correct W w' W HW Hw' ltac:(lra) HW Hq) as [_ Hr].
  assert (Hmin : bpow (-1021) <= B2R W / B2R w').
  { apply Rmult_le_reg_r with (B2R w'); [lra|].
    unfold Rdiv. rewrite Rmult_assoc, Rinv_l, Rmult_1_r by lra.
    apply Rle_trans with (bpow (-1021) * bpow 1023).
    - apply Rmult_le_compat_l; [apply Rlt_le, bpow_gt_0|assumption].
    - rewrite <- bpow_plus. change (-1021 + 1023)%Z with (1 + 1)%Z.
      rewrite bpow_succ, bpow_1. lra. }
  pose proof (rounds_to_error _ _ Hmin Hr) as Hd.
  apply Rabs_le_bounds in Hd.
  assert (Hx : B2R w' * (B2R W / B2R w') = B2R W) by (field; lra).
  assert (E52 : bpow (-52) = 2 * bpow (-53)).
  { change (-52)%Z with (-53 + 1)%Z. apply bpow_succ. }
  pose proof (bpow_gt_0 (-53)) as Hu.
  assert (Hu1 : bpow (-53) <= 1 / 4).
  { apply Rle_trans with (bpow (-2)); [apply bpow_le; lia|].
    unfold bpow. simpl. lra. }
  set (u := bpow (-53)) in *. set (q := B2R (Py.fdiv W w')) in *.
  set (nw := B2R (Py.fmul w' (Py.fdiv W w'))) in *.
  assert (Hq1 : B2R W * (1 - u) <= B2R w' * q).
  { rewrite <- Hx at 1. rewrite Rmult_assoc.
    apply Rmult_le_compat_l; lra. }
  rewrite E52.
  assert (H0 : 0 <= B2R w' * q) by nra.
  assert (H1 : B2R W * (1 - u) * (1 - u) <= B2R w' * q * (1 - u)).
  { apply Rmult_le_compat_r; lra. }
  assert (H2 : 0 <= B2R W * (u * u)) by nra.
  lra.
Qed.

End Fill.

(** X5. Under the fixed-size policy the drawn image reaches the page
    border in at least one direction, up to two roundings: its width is at
    least the page width, or its height at least the page height, times
    [1 - 2^-52]. *)
Theorem layout_fills_page width height :
  (0 < width <= 2 ^ 1023)%Z -> (0 < height <= 2 ^ 1023)%Z ->
  exists L,
    compute_layout true width height = Ok L /\
    (num_R (page_width L) * (1 - bpow (-52)) <= num_R (new_width L) \/
     num_R (page_height L) * (1 - bpow (-52)) <= num_R (new_height L)).
Proof.
  intros Hw Hh.
  assert (HW : nonneg64 Units.A4_width) by (cbn; unfold canon; lia).
  assert (HH : nonneg64 Units.A4_height) by (cbn; unfold canon; lia).
  assert (HWp : nonneg64 A4_width_succ) by (cbn; unfold canon; lia).
  assert (HHp : nonneg64 A4_height_succ) by (cbn; unfold canon; lia).
  assert (HW4 : 4 <= B2R Units.A4_width)
    by (apply (F2R_ge_4 5236099468337991); lia).
  assert (HH4 : 4 <= B2R Units.A4_height)
    by (apply (F2R_ge_4 7405340676649445); lia).
  assert (HWWp : B2R Units.A4_width * (1 + bpow (-53)) <= B2R A4_width_succ)
    by (apply (succ_above 5236099468337991); lia).
  assert (HHHp : B2R Units.A4_height * (1 + bpow (-53)) <= B2R A4_height_succ)
    by (apply (succ_above 7405340676649445); lia).
  destruct (layout_fixed Units.A4_width Units.A4_height A4_width_succ
              A4_height_succ HW HWp HW4 HWWp HH HHp HH4 HHHp width height Hw Hh)
    as (w' & h' & Ew & Eh & HL & _).
  cbv zeta in HL.
  destruct (float_of_dim width Hw) as (w2 & Ew2 & Hnw' & Hw1 & _).
  destruct (float_of_dim height Hh) as (h2 & Eh2 & Hnh' & Hh1 & _).
  rewrite Ew in Ew2. injection Ew2 as <-.
  rewrite Eh in Eh2. injection Eh2 as <-.
  eexists. split; [exact HL|].
  cbn [page_width page_height new_width new_height num_R].
  destruct (Py.flt (Py.fdiv Units.A4_height h') (Py.fdiv Units.A4_width w')).
  - right. exact (fill_dim Units.A4_height A4_height_succ HH HHp HH4 HHHp h'
                    Hnh' Hh1).
  - left. exact (fill_dim Units.A4_width A4_width_succ HW HWp HW4 HWWp w'
                   Hnw' Hw1).
Qed.

Lemma layout_fills_page_witness :
  (0 < 800 <= 2 ^ 1023)%Z /\ (0 < 600 <= 2 ^ 1023)%Z /\
  exists L,
    compute_layout true 800 600 = Ok L /\
    (num_R (page_width L) * (1 - bpow (-52)) <= num_R (new_width L) \/
     num_R (page_height L) * (1 - bpow (-52)) <= num_R (new_height L)).
Proof.
  assert (H800 : (0 < 800 <= 2 ^ 1023)%Z)
    by (split; [reflexivity|apply Z.leb_le; vm_compute; reflexivity]).
  assert (H600 : (0 < 600 <= 2 ^ 1023)%Z)
    by (split; [reflexivity|apply Z.leb_le; vm_compute; reflexivity]).
  split; [exact H800|]. split; [exact H600|].
  exact (layout_fills_page 800 600 H800 H600).
Defined.

Local Close Scope R_scope.

(** ** The pages of the document *)

Lemma place_page width height pw ph r l :
  place width height (pw, ph, r) = Ok l ->
  page_width l = pw /\ page_height l = ph.
Proof.
  unfold place.
  destruct (Py.mul (Py.Int width) r); [|discriminate]. cbn [rbind].
  destruct (Py.mul (Py.Int height) r); [|discriminate]. cbn [rbind].
  destruct (Py.sub pw _); [|discriminate]. cbn [rbind].
  destruct (Py.truediv _ _); [|discriminate]. cbn [rbind].
  destruct (Py.sub ph _); [|discriminate]. cbn [rbind].
  destruct (Py.truediv _ _); [|discriminate]. cbn [rbind].
  intros E. injection E as <-. split; reflexivity.
Qed.

Lemma compute_layout_on_page a4 use width height l :
  compute_layout_on a4 use width height = Ok l ->
  (page_width l, page_height l)
  = if use then a4 else (Py.Int width, Py.Int height).
Proof.
  unfold compute_layout_on, page_and_ratio. destruct use; cbn [negb rbind].
  - destruct a4 as [aw ah].
    destruct (Py.truediv aw _); [|discriminate]. cbn [rbind].
    destruct (Py.truediv ah _); [|discriminate]. cbn [rbind].
    intros E. apply place_page in E. destruct E as [-> ->]. reflexivity.
  - intros E. apply place_page in E. destruct E as [-> ->]. reflexivity.
Qed.

Section Pages.

Variable world : World.
Variable self : PDFWorker.
Variable a4 : Py.num * Py.num.

(** The page size in force agrees with the layout computed for an image
    that was opened. *)
Lemma with_pagesize_layout width height c l :
  (use_a4 self = true -> pagesize c = a4) ->
  compute_layout_on a4 (use_a4 self) width height = Ok l ->
  pagesize (with_pagesize self width height c) = (page_width l, page_height l).
Proof.
  intros Hc Hl. apply compute_layout_on_page in Hl. rewrite Hl.
  unfold with_pagesize. destruct (use_a4 self); [now apply Hc|reflexivity].
Qed.

Lemma with_pagesize_a4 width height c :
  (use_a4 self = true -> pagesize c = a4) ->
  use_a4 self = true -> pagesize (with_pagesize self width height c) = a4.
Proof.
  intros Hc Hu. unfold with_pagesize. rewrite Hu. now apply Hc.
Qed.

Lemma draw_page_pages img_path c :
  image_draw world img_path = None -> code c = [] ->
  (use_a4 self = true -> pagesize c = a4) ->
  let c' := fst (draw_page world self a4 img_path c) in
  code c' = [] /\ (use_a4 self = true -> pagesize c' = a4) /\
  pages c' = pages c ++ clean_pages world self a4 [img_path].
Proof.
  intros Hd Hc Hs. cbv zeta. rewrite draw_page_spec.
  unfold clean_pages, attempt. cbn [flat_map].
  destruct (image_open world img_path) as [[width height]|e].
  2:{ cbn [fst app]. rewrite app_nil_r. auto. }
  cbv zeta.
  destruct (with_pagesize_fields self width height c) as (_ & Hcode & Hpages & _).
  pose proof (with_pagesize_a4 width height c Hs) as Ha.
  destruct (compute_layout_on a4 (use_a4 self) width height) as [l|e] eqn:El.
  2:{ cbn [fst app]. rewrite Hcode, Hpages, app_nil_r. auto. }
  rewrite Hd. cbn [fst code pages pagesize app].
  split; [reflexivity|]. split; [exact Ha|].
  rewrite Hpages, Hcode, Hc, (with_pagesize_layout width height c l Hs El).
  reflexivity.
Qed.

Lemma canvas_after_pages imgs : forall c,
  (forall p, In p imgs -> image_draw world p = None) -> code c = [] ->
  (use_a4 self = true -> pagesize c = a4) ->
  let c' := canvas_after world self a4 imgs c in
  code c' = [] /\ pages c' = pages c ++ clean_pages world self a4 imgs.
Proof.
  induction imgs as [|p imgs IH]; intros c Hd Hc Hs; cbv zeta.
  - cbn. rewrite app_nil_r. auto.
  - cbn [canvas_after fold_left].
    change (fold_left _ imgs ?c0) with (canvas_after world self a4 imgs c0).
    destruct (draw_page_pages p c (Hd p (or_introl eq_refl)) Hc Hs)
      as (H1 & H2 & H3).
    destruct (IH _ (fun q Hq => Hd q (or_intror Hq)) H1 H2) as [H4 H5].
    split; [exact H4|]. rewrite H5, H3, <- app_assoc. f_equal.
    unfold clean_pages. cbn [flat_map]. now rewrite app_nil_r.
Qed.

Lemma compute_layout_on_match width height :
  compute_layout_on a4 false width height
  = Ok (mkLayout (Py.Int width) (Py.Int height) (Py.Int 1)
          (Py.Int width) (Py.Int height)
          (Py.Float (S754_zero false)) (Py.Float (S754_zero false))).
Proof.
  unfold compute_layout_on, page_and_ratio.
  cbn [negb rbind place Py.mul Py.sub Py.truediv].
  rewrite !Z.mul_1_r, !Z.sub_diag. reflexivity.
Qed.

(** Where the layout raises the canvas is as before: the layout raises
    under the fixed-size policy only, which does not set the page size. *)
Lemma with_pagesize_raise width height c e :
  compute_layout_on a4 (use_a4 self) width height = Raise e ->
  with_pagesize self width height c = c.
Proof.
  intros El. unfold with_pagesize. destruct (use_a4 self); [reflexivity|].
  rewrite compute_layout_on_match in El. discriminate.
Qed.

Section Structure.

(** The images of the whole list. *)
Variable all : list string.

Lemma draw_page_structure img_path c :
  In img_path all ->
  leftover_of world self a4 all c ->
  (use_a4 self = true -> pagesize c = a4) ->
  let c' := fst (draw_page world self a4 img_path c) in
  leftover_of world self a4 all c' /\
  (use_a4 self = true -> pagesize c' = a4) /\
  exists new, pages c' = pages c ++ new /\
              Forall (page_of_list world self a4 all) new.
Proof.
  intros Hin Hc Hs. cbv zeta. rewrite draw_page_spec.
  destruct (image_open world img_path) as [[width height]|e] eqn:Eo.
  2:{ cbn [fst]. split; [assumption|]. split; [assumption|].
      exists []. rewrite app_nil_r. auto. }
  cbv zeta.
  destruct (with_pagesize_fields self width height c) as (_ & Hcode & Hpages & _).
  pose proof (with_pagesize_a4 width height c Hs) as Ha.
  destruct (compute_layout_on a4 (use_a4 self) width height) as [l|e] eqn:El.
  2:{ cbn [fst]. rewrite (with_pagesize_raise width height c e El).
      split; [assumption|]. split; [assumption|].
      exists []. rewrite app_nil_r. auto. }
  pose proof (with_pagesize_layout width height c l Hs El) as Hsize.
  destruct Hc as (stale & Hst & Hc & Hlast).
  destruct (image_draw world img_path) as [e|] eqn:Ed;
    cbn [fst code pages pagesize].
  - split; [|split; [assumption|]].
    + exists (stale ++ [l]). split; [|split].
      * apply Forall_app. split; [exact Hst|]. constructor; [|constructor].
        exists img_path, width, height, e. auto.
      * cbn [code]. rewrite Hcode, Hc, flat_map_app. cbn [flat_map].
        now rewrite app_nil_r.
      * intros earlier l0 E. apply app_inj_tail in E. destruct E as [_ <-].
        exact Hsize.
    + exists []. rewrite Hpages, app_nil_r. auto.
  - split; [|split; [assumption|]].
    + exists []. split; [constructor|]. split; [reflexivity|].
      intros earlier l0 E. destruct earlier; discriminate.
    + eexists. split; [rewrite Hpages; reflexivity|].
      constructor; [|constructor]. split; [exact Ha|].
      exists stale. split; [exact Hst|]. right.
      exists img_path, l. cbn [page_size page_code].
      split; [exact Hin|]. split.
      { unfold attempt. now rewrite Eo, El, Ed. }
      split; [exact Hsize|]. now rewrite Hcode, Hc.
Qed.

Lemma canvas_after_structure imgs : forall c,
  incl imgs all ->
  leftover_of world self a4 all c ->
  (use_a4 self = true -> pagesize c = a4) ->
  let c' := canvas_after world self a4 imgs c in
  leftover_of world self a4 all c' /\
  (use_a4 self = true -> pagesize c' = a4) /\
  exists new, pages c' = pages c ++ new /\
              Forall (page_of_list world self a4 all) new.
Proof.
  induction imgs as [|p imgs IH]; intros c Hi Hc Hs; cbv zeta.
  - cbn. split; [assumption|]. split; [assumption|].
    exists []. rewrite app_nil_r. auto.
  - cbn [canvas_after fold_left].
    change (fold_left _ imgs ?c0) with (canvas_after world self a4 imgs c0).
    destruct (draw_page_structure p c (Hi p (or_introl eq_refl)) Hc Hs)
      as (H1 & H2 & n1 & H3 & H4).
    destruct (IH _ (fun q Hq => Hi q (or_intror Hq)) H1 H2)
      as (H5 & H6 & n2 & H7 & H8).
    split; [exact H5|]. split; [exact H6|].
    exists (n1 ++ n2). split; [now rewrite H7, H3, app_assoc|].
    apply Forall_app. split; assumption.
Qed.

End Structure.

(** The page size under the fixed-size policy, and the pages committed,
    are kept by the loop. *)
Lemma canvas_after_a4 imgs : forall c,
  (use_a4 self = true -> pagesize c = a4) ->
  use_a4 self = true -> pagesize (canvas_after world self a4 imgs c) = a4.
Proof.
  induction imgs as [|p imgs IH]; intros c Hs; [exact Hs|].
  cbn [canvas_after fold_left].
  change (fold_left _ imgs ?c0) with (canvas_after world self a4 imgs c0).
  apply IH. rewrite draw_page_spec.
  destruct (image_open world p) as [[width height]|e]; [|exact Hs].
  cbv zeta. pose proof (with_pagesize_a4 width height c Hs) as Ha.
  destruct (compute_layout_on a4 (use_a4 self) width height); [|exact Ha].
  destruct (image_draw world p); exact Ha.
Qed.

Lemma canvas_after_extends imgs : forall c,
  exists more, pages (canvas_after world self a4 imgs c) = pages c ++ more.
Proof.
  induction imgs as [|p imgs IH]; intros c.
  - exists []. cbn. now rewrite app_nil_r.
  - cbn [canvas_after fold_left].
    change (fold_left _ imgs ?c0) with (canvas_after world self a4 imgs c0).
    destruct (IH (fst (draw_page world self a4 p c))) as [more ->].
    rewrite draw_page_spec.
    destruct (image_open world p) as [[width height]|e];
      [|exists more; reflexivity].
    cbv zeta.
    destruct (with_pagesize_fields self width height c) as (_ & _ & Hpages & _).
    destruct (compute_layout_on a4 (use_a4 self) width height);
      [|exists more; cbn [fst]; now rewrite Hpages].
    destruct (image_draw world p); cbn [fst pages]; rewrite Hpages.
    + now exists more.
    + eexists. rewrite <- app_assoc. reflexivity.
Qed.

Lemma last_app_default {A} (a b : list A) d :
  last (a ++ b) d = last b (last a d).
Proof.
  induction b as [|z b _] using rev_ind.
  - now rewrite app_nil_r.
  - now rewrite app_assoc, !last_last.
Qed.

(** An image that does not succeed commits nothing: it leaves the canvas
    as it is, or adds its background to the page under construction and
    leaves its page size in force. *)
Lemma draw_page_failing img_path c :
  is_ok (attempt world self a4 img_path) = false ->
  (use_a4 self = true -> pagesize c = a4) ->
  let c' := fst (draw_page world self a4 img_path c) in
  pages c' = pages c /\
  code c'
  = code c ++ flat_map (background self)
                (stale_layouts world self a4 [img_path]) /\
  pagesize c'
  = last (map (fun l => (page_width l, page_height l))
            (stale_layouts world self a4 [img_path])) (pagesize c).
Proof.
  intros Ha Hs. cbv zeta. rewrite draw_page_spec.
  unfold attempt in Ha. unfold stale_layouts. cbn [flat_map].
  destruct (image_open world img_path) as [[width height]|e].
  2:{ cbn [fst flat_map map last]. now rewrite app_nil_r. }
  cbv zeta.
  destruct (with_pagesize_fields self width height c) as (_ & Hcode & Hpages & _).
  destruct (compute_layout_on a4 (use_a4 self) width height) as [l|e] eqn:El.
  2:{ cbn [fst app flat_map map last].
      rewrite (with_pagesize_raise width height c e El).
      now rewrite app_nil_r. }
  destruct (image_draw world img_path) as [e|]; [|discriminate].
  cbn [fst pages code pagesize app flat_map map last].
  rewrite Hpages, Hcode, app_nil_r.
  split; [reflexivity|]. split; [reflexivity|].
  exact (with_pagesize_layout width height c l Hs El).
Qed.

Lemma stale_layouts_cons p imgs :
  stale_layouts world self a4 (p :: imgs)
  = stale_layouts world self a4 [p] ++ stale_layouts world self a4 imgs.
Proof. unfold stale_layouts. cbn [flat_map]. now rewrite app_nil_r. Qed.

Lemma canvas_after_failing imgs : forall c,
  Forall (fun q => is_ok (attempt world self a4 q) = false) imgs ->
  (use_a4 self = true -> pagesize c = a4) ->
  let c' := canvas_after world self a4 imgs c in
  pages c' = pages c /\
  code c'
  = code c ++ flat_map (background self) (stale_layouts world self a4 imgs) /\
  pagesize c'
  = last (map (fun l => (page_width l, page_height l))
            (stale_layouts world self a4 imgs)) (pagesize c).
Proof.
  induction imgs as [|p imgs IH]; intros c Hf Hs; cbv zeta.
  - cbn. now rewrite app_nil_r.
  - inversion Hf as [|? ? Hp Hrest]; subst.
    cbn [canvas_after fold_left].
    change (fold_left _ imgs ?c0) with (canvas_after world self a4 imgs c0).
    destruct (draw_page_failing p c Hp Hs) as (H1 & H2 & H3).
    assert (Hs' : use_a4 self = true ->
                  pagesize (fst (draw_page world self a4 p c)) = a4).
    { intros Hu. exact (canvas_after_a4 [p] c Hs Hu). }
    destruct (IH _ Hrest Hs') as (H4 & H5 & H6).
    rewrite stale_layouts_cons. split; [|split].
    + now rewrite H4, H1.
    + now rewrite H5, H2, flat_map_app, app_assoc.
    + now rewrite H6, H3, map_app, last_app_default.
Qed.

End Pages.

(** An image that is not opened or not laid out leaves the canvas as it
    is: under the match-image policy, where the page size is set before
    the layout is computed, the layout never fails. *)
Lemma draw_page_skipped world self img_path c :
  is_ok (attempt world self Units.A4 img_path) = false ->
  stops_at_drawing world self Units.A4 img_path = false ->
  fst (draw_page world self Units.A4 img_path c) = c.
Proof.
  intros Ha Hs. rewrite draw_page_spec. unfold attempt, stops_at_drawing in *.
  destruct (image_open world img_path) as [[width height]|e]; [|reflexivity].
  cbv zeta. unfold with_pagesize.
  destruct (use_a4 self) eqn:Hu.
  - destruct (compute_layout_on Units.A4 true width height) as [l|e];
      [|reflexivity].
    destruct (image_draw world img_path); discriminate.
  - change (compute_layout_on Units.A4 false width height)
      with (compute_layout false width height) in *.
    rewrite compute_layout_match in Ha, Hs.
    destruct (image_draw world img_path); discriminate.
Qed.

Lemma save_pages world c :
  pages (fst (canvas.save world c))
  = pages c ++ match code c with
               | [] => []
               | _ :: _ => [mkPage (pagesize c) (code c)]
               end.
Proof.
  rewrite save_spec. cbv zeta.
  destruct (code c); destruct (file_write world (filename c)); cbn [fst pages];
    now rewrite ?app_nil_r.
Qed.

(** X6. When no image fails while it is drawn, the document has one page
    for every image that was opened and laid out, in the order of the
    list; the page has the size the layout gives and holds the background
    colour, a filled rectangle over the whole page and the image, in this
    order and nothing else. *)
Theorem document_without_draw_failure world self :
  (forall p, In p (images self) -> image_draw world p = None) ->
  pages (document (run world self))
  = flat_map (fun p => match attempt world self Units.A4 p with
                       | Ok l => [mkPage (page_width l, page_height l)
                                    [FillColorRGB (redF (bg_color self))
                                       (greenF (bg_color self))
                                       (blueF (bg_color self));
                                     RectOp (Py.Int 0) (Py.Int 0)
                                       (page_width l) (page_height l)
                                       true false;
                                     ImageOp p (x l) (y l) (new_width l)
                                       (new_height l)]]
                       | Raise _ => []
                       end) (images self).
Proof.
  intros Hd. rewrite run_spec. cbv zeta.
  destruct (canvas_after_pages world self Units.A4 (images self)
              (blank_canvas (output_file self)) Hd eq_refl (fun _ => eq_refl))
    as [H1 H2].
  pose proof (save_pages world
                (canvas_after world self Units.A4 (images self)
                   (blank_canvas (output_file self)))) as Hs.
  destruct (canvas.save world _) as [c' r]. cbn [fst document] in *.
  rewrite Hs, H1, H2, app_nil_r. reflexivity.
Qed.

Lemma document_without_draw_failure_witness :
  let self := mkPDFWorker ["photo.png"; "corrupt.png"; "square.png"] "out.pdf"
                false white in
  (forall p, In p (images self) -> image_draw example_world p = None) /\
  map page_size (pages (document (run example_world self)))
  = [(Py.Int 800, Py.Int 600); (Py.Int 400, Py.Int 400)].
Proof.
  cbv zeta.
  assert (Hd : forall p,
             In p ["photo.png"; "corrupt.png"; "square.png"] ->
             image_draw example_world p = None)
    by (intros p [<-|[<-|[<-|[]]]]; reflexivity).
  split; [exact Hd|].
  rewrite (document_without_draw_failure example_world
             (mkPDFWorker ["photo.png"; "corrupt.png"; "square.png"] "out.pdf"
                false white) Hd).
  reflexivity.
Defined.

(** X7. Whatever fails, every page of the document is made of
    backgrounds (the fill colour of the worker, then a filled and
    unstroked rectangle from the origin over a whole page), each of them
    painted for an image of the list that was opened and laid out and
    whose drawing raised, followed by at most one image, which comes last:
    either the page holds such backgrounds only, at least one, and has the
    page size of the last of them; or it ends with the background and the
    picture of an image of the list that was opened, laid out and drawn,
    and has the page size of that image's layout.  Under the fixed-size
    policy every page is an A4 page. *)
Theorem pages_are_backgrounds_and_image world self :
  Forall
    (fun pg =>
       (use_a4 self = true -> page_size pg = Units.A4) /\
       exists stale,
         Forall
           (fun l =>
              exists img_path width height e,
                In img_path (images self) /\
                image_open world img_path = Ok (width, height) /\
                compute_layout (use_a4 self) width height = Ok l /\
                image_draw world img_path = Some e) stale /\
         ((exists earlier l,
             stale = earlier ++ [l] /\
             page_size pg = (page_width l, page_height l) /\
             page_code pg = flat_map (background self) stale) \/
          exists img_path l,
            In img_path (images self) /\
            attempt world self Units.A4 img_path = Ok l /\
            page_size pg = (page_width l, page_height l) /\
            page_code pg
            = flat_map (background self) stale
              ++ [FillColorRGB (redF (bg_color self)) (greenF (bg_color self))
                    (blueF (bg_color self));
                  RectOp (Py.Int 0) (Py.Int 0) (page_width l) (page_height l)
                    true false;
                  ImageOp img_path (x l) (y l) (new_width l) (new_height l)]))
    (pages (document (run world self))).
Proof.
  rewrite run_spec. cbv zeta.
  assert (H0 : leftover_of world self Units.A4 (images self)
                 (blank_canvas (output_file self))).
  { exists []. split; [constructor|]. split; [reflexivity|].
    intros earlier l E. destruct earlier; discriminate. }
  destruct (canvas_after_structure world self Units.A4 (images self)
              (images self) (blank_canvas (output_file self))
              (fun p Hp => Hp) H0 (fun _ => eq_refl))
    as ((stale & Hst & H1 & Hlast) & H2 & new & H3 & H4).
  pose proof (save_pages world
                (canvas_after world self Units.A4 (images self)
                   (blank_canvas (output_file self)))) as Hs.
  destruct (canvas.save world _) as [c' r]. cbn [fst document] in *.
  rewrite Hs, H3. cbn [blank_canvas pages app].
  apply Forall_app. split; [exact H4|].
  destruct (code _) as [|o ops] eqn:Ec; constructor; [|constructor].
  split; [exact H2|]. exists stale. split; [exact Hst|]. left.
  assert (Hne : stale <> []) by (intros ->; cbn in H1; congruence).
  destruct (exists_last Hne) as (earlier & l0 & E).
  exists earlier, l0. cbn [page_size page_code].
  split; [exact E|]. split; [exact (Hlast _ _ E)|congruence].
Qed.

(** X8. An image that fails before it is drawn, because it cannot be
    opened or its layout raises, leaves no trace in the document: the
    document is the one that the list without that image gives. *)
Theorem skipped_image_leaves_no_trace world self before img_path rest :
  is_ok (attempt world self Units.A4 img_path) = false ->
  stops_at_drawing world self Units.A4 img_path = false ->
  document (run world (with_images (before ++ img_path :: rest) self))
  = document (run world (with_images (before ++ rest) self)).
Proof.
  intros Ha Hs. rewrite !run_spec. cbv zeta.
  cbn [with_images images output_file].
  change (canvas_after world (with_images ?l self))
    with (canvas_after world self).
  unfold canvas_after. rewrite !fold_left_app. cbn [fold_left].
  rewrite (draw_page_skipped world self img_path _ Ha Hs).
  destruct (canvas.save world _) as [c' r]. reflexivity.
Qed.

Lemma skipped_image_leaves_no_trace_witness :
  let self := mkPDFWorker [] "out.pdf" true white in
  is_ok (attempt example_world self Units.A4 "corrupt.png") = false /\
  stops_at_drawing example_world self Units.A4 "corrupt.png" = false /\
  document
    (run example_world
       (with_images (["photo.png"] ++ "corrupt.png" :: ["square.png"]) self))
  = document
      (run example_world (with_images (["photo.png"] ++ ["square.png"]) self)).
Proof.
  cbv zeta. split; [reflexivity|]. split; [reflexivity|].
  exact (skipped_image_leaves_no_trace example_world
           (mkPDFWorker [] "out.pdf" true white) ["photo.png"] "corrupt.png"
           ["square.png"] eq_refl eq_refl).
Defined.

(** ** The number of pages *)

Section Count.

Variable world : World.
Variable self : PDFWorker.
Variable a4 : Py.num * Py.num.

Lemma draw_page_count img_path c :
  let c' := fst (draw_page world self a4 img_path c) in
  is_nil (code c')
  = negb (leftover_after world self a4 [img_path] (negb (is_nil (code c)))) /\
  List.length (pages c')
  = (List.length (pages c) + List.length (drawn world self a4 [img_path]))%nat.
Proof.
  cbv zeta. rewrite draw_page_spec.
  unfold leftover_after, drawn, stops_at_drawing, attempt. cbn [fold_left filter].
  destruct (image_open world img_path) as [[width height]|e].
  2:{ cbn [fst is_ok List.length]. rewrite orb_false_r, negb_involutive.
      split; [reflexivity|lia]. }
  cbv zeta.
  destruct (with_pagesize_fields self width height c) as (_ & Hcode & Hpages & _).
  destruct (compute_layout_on a4 (use_a4 self) width height) as [l|e].
  2:{ cbn [fst is_ok List.length]. rewrite Hcode, Hpages, orb_false_r, negb_involutive.
      split; [reflexivity|lia]. }
  destruct (image_draw world img_path) as [e|];
    cbn [fst is_ok code pages List.length].
  - rewrite Hpages, orb_true_r. split; [|lia].
    unfold background. now destruct (code _).
  - rewrite length_app, Hpages. cbn [List.length is_nil negb]. split; [reflexivity|lia].
Qed.

Lemma canvas_after_count imgs : forall c,
  let c' := canvas_after world self a4 imgs c in
  is_nil (code c')
  = negb (leftover_after world self a4 imgs (negb (is_nil (code c)))) /\
  List.length (pages c')
  = (List.length (pages c) + List.length (drawn world self a4 imgs))%nat.
Proof.
  induction imgs as [|p imgs IH]; intros c; cbv zeta.
  - cbn. rewrite negb_involutive. split; [reflexivity|lia].
  - cbn [canvas_after fold_left].
    change (fold_left _ imgs ?c0) with (canvas_after world self a4 imgs c0).
    destruct (draw_page_count p c) as [H1 H2].
    destruct (IH (fst (draw_page world self a4 p c))) as [H3 H4].
    split.
    + rewrite H3, H1, negb_involutive. unfold leftover_after. reflexivity.
    + rewrite H4, H2. unfold drawn. cbn [filter].
      destruct (is_ok (attempt world self a4 p)); cbn [List.length]; lia.
Qed.

End Count.

(** X9. The number of pages: one for every image that was drawn, and one
    more, holding backgrounds only, when an image that was opened and laid
    out could not be drawn and no image was drawn after it. *)
Theorem page_count world self :
  List.length (pages (document (run world self)))
  = (List.length (drawn world self Units.A4 (images self))
     + if leftover_after world self Units.A4 (images self) false
       then 1 else 0)%nat.
Proof.
  rewrite run_spec. cbv zeta.
  destruct (canvas_after_count world self Units.A4 (images self)
              (blank_canvas (output_file self))) as [H1 H2].
  cbn [blank_canvas code pages is_nil negb List.length] in H1, H2.
  rewrite save_spec. cbv zeta.
  destruct (code _) as [|o ops];
    destruct (leftover_after world self Units.A4 (images self) false);
    try discriminate;
    destruct (file_write world _); cbn [document pages fst];
    rewrite ?length_app, H2; cbn [List.length]; lia.
Qed.

(** ** A failed drawing, in the run *)

(** C10. When drawing an image of the list raises after its size was read
    and its layout computed, what was painted for it is not discarded.
    With [c0] the canvas of the run when it reaches that image (the run
    over the images before it commits the pages of [c0], and its code if
    any), the operators left over are the code of [c0], the background of
    the image, and the backgrounds of the images after it that stop at
    drawing as well.  If no later image succeeds, [save] commits them as one more
    page of the document; if a later image succeeds, with none succeeding
    in between, they are committed on its page, underneath its own
    background and picture.  In both cases the image has its entry in the
    list emitted on [finished]. *)
Theorem failed_draw_keeps_background world self before img_path later
    width height l e :
  image_open world img_path = Ok (width, height) ->
  compute_layout (use_a4 self) width height = Ok l ->
  image_draw world img_path = Some e ->
  Forall (fun q => is_ok (attempt world self Units.A4 q) = false) later ->
  let c0 := canvas_after world self Units.A4 before
              (blank_canvas (output_file self)) in
  let stale := stale_layouts world self Units.A4 later in
  let leftover := code c0 ++ background self l
                  ++ flat_map (background self) stale in
  pages (document (run world (with_images before self)))
  = pages c0 ++ match code c0 with
                | [] => []
                | _ :: _ => [mkPage (pagesize c0) (code c0)]
                end /\
  pages (document (run world (with_images (before ++ img_path :: later) self)))
  = pages c0
    ++ [mkPage (page_width (last stale l), page_height (last stale l))
          leftover] /\
  (forall next rest l',
     attempt world self Units.A4 next = Ok l' ->
     nth_error
       (pages (document
                 (run world
                    (with_images (before ++ img_path :: later ++ next :: rest)
                       self))))
       (List.length (pages c0))
     = Some (mkPage (page_width l', page_height l')
               (leftover ++ background self l' ++ [placed next l']))) /\
  (forall rest,
     In (image_failure img_path e)
       (finished (run world (with_images (before ++ img_path :: rest) self)))).
Proof.
  intros Ho Hl Hd Hlater. cbv zeta.
  change (compute_layout (use_a4 self) width height)
    with (compute_layout_on Units.A4 (use_a4 self) width height) in Hl.
  set (c0 := canvas_after world self Units.A4 before
               (blank_canvas (output_file self))).
  assert (Hs0 : use_a4 self = true -> pagesize c0 = Units.A4).
  { intros Hu. exact (canvas_after_a4 world self Units.A4 before
                        (blank_canvas (output_file self))
                        (fun _ => eq_refl) Hu). }
  (* the failed image *)
  set (c1 := fst (draw_page world self Units.A4 img_path c0)).
  assert (H1 : pages c1 = pages c0 /\ code c1 = code c0 ++ background self l /\
               pagesize c1 = (page_width l, page_height l)).
  { unfold c1. rewrite draw_page_spec, Ho. cbv zeta. rewrite Hl, Hd.
    destruct (with_pagesize_fields self width height c0)
      as (_ & Hcode & Hpages & _).
    cbn [fst pages code pagesize]. rewrite Hcode, Hpages.
    split; [reflexivity|]. split; [reflexivity|].
    exact (with_pagesize_layout self Units.A4 width height c0 l Hs0 Hl). }
  destruct H1 as (Hp1 & Hc1 & Hz1).
  assert (Hs1 : use_a4 self = true -> pagesize c1 = Units.A4).
  { intros Hu. exact (canvas_after_a4 world self Units.A4 [img_path] c0 Hs0 Hu). }
  (* the images after it that do not succeed *)
  set (c2 := canvas_after world self Units.A4 later c1).
  destruct (canvas_after_failing world self Units.A4 later c1 Hlater Hs1)
    as (Hp2 & Hc2 & Hz2).
  fold c2 in Hp2, Hc2, Hz2.
  rewrite Hc1, <- app_assoc in Hc2. rewrite Hp1 in Hp2.
  assert (Hz2' : pagesize c2
                 = (page_width (last (stale_layouts world self Units.A4 later) l),
                    page_height (last (stale_layouts world self Units.A4 later) l))).
  { rewrite Hz2, Hz1.
    generalize (stale_layouts world self Units.A4 later). intros ls.
    induction ls as [|a ls IH] using rev_ind; [reflexivity|].
    rewrite map_app. cbn [map]. now rewrite !last_last. }
  assert (Hs2 : use_a4 self = true -> pagesize c2 = Units.A4).
  { intros Hu. exact (canvas_after_a4 world self Units.A4 later c1 Hs1 Hu). }
  split; [|split; [|split]].
  - rewrite run_spec. cbv zeta. cbn [with_images images output_file].
    change (canvas_after world (with_images ?i self))
      with (canvas_after world self).
    fold c0. pose proof (save_pages world c0) as Hsave.
    destruct (canvas.save world c0) as [c' r]. exact Hsave.
  - rewrite run_spec. cbv zeta. cbn [with_images images output_file].
    change (canvas_after world (with_images ?i self))
      with (canvas_after world self).
    unfold canvas_after at 1. rewrite fold_left_app. cbn [fold_left].
    change (fold_left
              (fun c img => fst (draw_page world self Units.A4 img c)) later
              (fst (draw_page world self Units.A4 img_path
                      (fold_left
                         (fun c img => fst (draw_page world self Units.A4 img c))
                         before (blank_canvas (output_file self))))))
      with c2.
    pose proof (save_pages world c2) as Hsave.
    destruct (canvas.save world c2) as [c' r]. cbn [document fst] in *.
    rewrite Hsave, Hp2, Hc2, Hz2'.
    unfold background at 1. destruct (code c0); reflexivity.
  - intros next rest l' Hnext.
    rewrite run_spec. cbv zeta. cbn [with_images images output_file].
    change (canvas_after world (with_images ?i self))
      with (canvas_after world self).
    unfold canvas_after at 1. rewrite fold_left_app. cbn [fold_left].
    rewrite fold_left_app. cbn [fold_left].
    change (fold_left
              (fun c img => fst (draw_page world self Units.A4 img c)) later
              (fst (draw_page world self Units.A4 img_path
                      (fold_left
                         (fun c img => fst (draw_page world self Units.A4 img c))
                         before (blank_canvas (output_file self))))))
      with c2.
    set (c3 := fst (draw_page world self Units.A4 next c2)).
    assert (H3 : pages c3
                 = pages c0
                   ++ [mkPage (page_width l', page_height l')
                         ((code c0 ++ background self l
                           ++ flat_map (background self)
                                (stale_layouts world self Units.A4 later))
                          ++ background self l' ++ [placed next l'])]).
    { unfold c3. rewrite draw_page_spec. unfold attempt in Hnext.
      destruct (image_open world next) as [[w' h']|]; [|discriminate].
      cbv zeta.
      destruct (with_pagesize_fields self w' h' c2) as (_ & Hcode & Hpages & _).
      destruct (compute_layout_on Units.A4 (use_a4 self) w' h') as [l0|] eqn:El0;
        [|discriminate].
      destruct (image_draw world next); [discriminate|].
      injection Hnext as <-. cbn [fst pages].
      rewrite Hpages, Hcode, Hp2, Hc2.
      now rewrite (with_pagesize_layout self Units.A4 w' h' c2 l0 Hs2 El0). }
    change (fold_left
              (fun c img => fst (draw_page world self Units.A4 img c)) rest c3)
      with (canvas_after world self Units.A4 rest c3).
    destruct (canvas_after_extends world self Units.A4 rest c3) as [more Hmore].
    pose proof (save_pages world (canvas_after world self Units.A4 rest c3))
      as Hsave.
    destruct (canvas.save world _) as [c' r]. cbn [document fst] in *.
    rewrite Hsave, Hmore, H3, <- !app_assoc.
    rewrite nth_error_app2 by lia. now rewrite Nat.sub_diag.
  - intros rest. rewrite run_finished. cbn [with_images images output_file].
    apply in_or_app. left. unfold failure_entries.
    apply in_flat_map. exists img_path. split.
    + apply in_or_app. right. now left.
    + change (attempt world (with_images ?i self))
        with (attempt world self).
      unfold attempt. rewrite Ho, Hl, Hd. now left.
Qed.

Lemma failed_draw_keeps_background_witness :
  let self := mkPDFWorker [] "out.pdf" false white in
  let l := mkLayout (Py.Int 400) (Py.Int 400) (Py.Int 1) (Py.Int 400)
             (Py.Int 400) (Py.Float (S754_zero false))
             (Py.Float (S754_zero false)) in
  let l' := mkLayout (Py.Int 800) (Py.Int 600) (Py.Int 1) (Py.Int 800)
              (Py.Int 600) (Py.Float (S754_zero false))
              (Py.Float (S754_zero false)) in
  image_open example_world "truncated.png" = Ok (400, 400) /\
  compute_layout (use_a4 self) 400 400 = Ok l /\
  image_draw example_world "truncated.png"
  = Some (OSError "image file is truncated") /\
  Forall (fun q => is_ok (attempt example_world self Units.A4 q) = false)
    ["corrupt.png"] /\
  pages (document
           (run example_world
              (with_images (["square.png"] ++ "truncated.png" :: ["corrupt.png"])
                 self)))
  = [mkPage (Py.Int 400, Py.Int 400)
       (background self l ++ [placed "square.png" l]);
     mkPage (Py.Int 400, Py.Int 400) (background self l)] /\
  nth_error
    (pages (document
              (run example_world
                 (with_images
                    (["square.png"] ++ "truncated.png"
                     :: ["corrupt.png"] ++ "photo.png" :: [])
                    self))))
    1
  = Some (mkPage (Py.Int 800, Py.Int 600)
            (background self l ++ background self l' ++ [placed "photo.png" l'])).
Proof.
  cbv zeta.
  assert (Hf : Forall
                 (fun q =>
                    is_ok (attempt example_world
                             (mkPDFWorker [] "out.pdf" false white) Units.A4 q)
                    = false) ["corrupt.png"])
    by (constructor; [reflexivity|constructor]).
  split; [reflexivity|]. split; [reflexivity|]. split; [reflexivity|].
  split; [exact Hf|].
  destruct (failed_draw_keeps_background example_world
              (mkPDFWorker [] "out.pdf" false white) ["square.png"]
              "truncated.png" ["corrupt.png"] 400 400
              (mkLayout (Py.Int 400) (Py.Int 400) (Py.Int 1) (Py.Int 400)
                 (Py.Int 400) (Py.Float (S754_zero false))
                 (Py.Float (S754_zero false)))
              (OSError "image file is truncated")
              eq_refl eq_refl eq_refl Hf) as (_ & Hend & Hnext & _).
  split; [exact Hend|].
  exact (Hnext "photo.png" []
           (mkLayout (Py.Int 800) (Py.Int 600) (Py.Int 1) (Py.Int 800)
              (Py.Int 600) (Py.Float (S754_zero false))
              (Py.Float (S754_zero false))) eq_refl).
Defined.

(** ** The layout step: what it fails on, and what it does to the canvas *)

(** C4, amended. The layout values are a function of the policy and the
    image size alone, but the layout step is not free of side effects:
    under the match-image policy it sets the page size of the canvas to
    the image size, and it does nothing else to the canvas; under the
    fixed-size policy it leaves the canvas as it is.  Under the
    match-image policy the layout never raises.  Under the fixed-size
    policy it succeeds for every image with positive dimensions up to
    2^1023; it raises exactly when a dimension is zero or is too large to
    be converted to a float, with [ZeroDivisionError] in the first case
    and [OverflowError] in the second; no dedicated invalid-dimensions
    error exists.  When the layout of an image of the list raises, the
    exception is caught as the failure of that image: the canvas stays as
    it was and the entry of the image, with the message of the exception,
    is in the list emitted on [finished]. *)
Theorem layout_failures world self width height c :
  page_geometry self Units.A4 width height c
  = (if use_a4 self then c
     else mkCanvas (filename c) (Py.Int width, Py.Int height) (code c)
            (pages c) (saved c),
     compute_layout (use_a4 self) width height) /\
  is_ok (compute_layout false width height) = true /\
  ((0 < width <= 2 ^ 1023)%Z -> (0 < height <= 2 ^ 1023)%Z ->
   is_ok (compute_layout true width height) = true) /\
  (is_ok (compute_layout true width height) = false <->
   width = 0 \/ height = 0 \/
   is_ok (Py.float_of_int width) = false \/
   is_ok (Py.float_of_int height) = false) /\
  (width = 0 \/ (height = 0 /\ is_ok (Py.float_of_int width) = true) ->
   compute_layout true width height
   = Raise (ZeroDivisionError "float division by zero")) /\
  (is_ok (Py.float_of_int width) = false \/
   (width <> 0 /\ height <> 0 /\ is_ok (Py.float_of_int height) = false) ->
   compute_layout true width height
   = Raise (OverflowError "int too large to convert to float")) /\
  (forall img_path e,
     In img_path (images self) ->
     image_open world img_path = Ok (width, height) ->
     compute_layout (use_a4 self) width height = Raise e ->
     draw_page world self Units.A4 img_path c = (c, Raise e) /\
     In (image_failure img_path e) (finished (run world self))).
Proof.
  destruct (compute_layout_fixed_cases width height) as (Hiff & Hzero & Hover).
  split; [|split; [|split; [|split; [|split; [|split]]]]].
  - rewrite page_geometry_spec. unfold with_pagesize.
    destruct (use_a4 self); reflexivity.
  - now rewrite compute_layout_match.
  - intros Hw Hh.
    destruct (float_of_dim width Hw) as (w' & Ew & _).
    destruct (float_of_dim height Hh) as (h' & Eh & _).
    apply Bool.not_false_is_true. intros E.
    apply Hiff in E. rewrite Ew, Eh in E. cbn [is_ok] in E.
    destruct E as [?|[?|[?|?]]]; try lia; discriminate.
  - exact Hiff.
  - exact Hzero.
  - exact Hover.
  - intros img_path e Hin Ho Hl.
    change (compute_layout (use_a4 self) width height)
      with (compute_layout_on Units.A4 (use_a4 self) width height) in Hl.
    split.
    + rewrite draw_page_spec, Ho. cbv zeta. rewrite Hl.
      now rewrite (with_pagesize_raise self Units.A4 width height c e Hl).
    + rewrite run_finished. apply in_or_app. left. unfold failure_entries.
      apply in_flat_map. exists img_path. split; [exact Hin|].
      unfold attempt. rewrite Ho, Hl. now left.
Qed.

(** C4, as stated, fails: the layout step is not free of side effects.
    For the 800x600 image [photo.png] under the match-image policy it
    changes the page size of the canvas from A4 to the image size, and
    this is the size of the page in the document. *)
Lemma layout_sets_page_size :
  let self := mkPDFWorker ["photo.png"] "out.pdf" false white in
  let c := blank_canvas "out.pdf" in
  image_open example_world "photo.png" = Ok (800, 600) /\
  pagesize c = Units.A4 /\
  pagesize (fst (page_geometry self Units.A4 800 600 c))
  = (Py.Int 800, Py.Int 600) /\
  pagesize (fst (page_geometry self Units.A4 800 600 c)) <> pagesize c /\
  map page_size (pages (document (run example_world self)))
  = [(Py.Int 800, Py.Int 600)].
Proof.
  cbv zeta. split; [reflexivity|]. split; [reflexivity|].
  split; [reflexivity|]. split; [discriminate|]. vm_compute. reflexivity.
Qed.

(** * File names and suffixes *)

Lemma has_slash_app a b :
  has_slash (a ++ b) = has_slash a || has_slash b.
Proof.
  induction a as [|c a IH]; [reflexivity|].
  cbn [String.append has_slash]. rewrite IH. now destruct (Ascii.eqb c "/").
Qed.

Lemma basename_has_no_slash p : has_slash (basename p) = false.
Proof.
  induction p as [|c r IH]; [reflexivity|]. cbn [basename].
  destruct (has_slash r) eqn:Hr; [exact IH|].
  destruct (Ascii.eqb c "/") eqn:Hc; [exact Hr|].
  cbn [has_slash]. now rewrite Hc.
Qed.

Lemma basename_suffix p :
  exists dir, p = (dir ++ basename p)%string /\
              (dir = "" \/ exists d, dir = (d ++ "/")%string).
Proof.
  induction p as [|c r IH].
  - exists "". auto.
  - cbn [basename]. destruct (has_slash r) eqn:Hr.
    + destruct IH as (dir & E & Hd). exists (String c dir).
      split; [cbn [String.append]; now rewrite <- E|].
      right. destruct Hd as [->|[d ->]].
      * exfalso. cbn [String.append] in E. rewrite E in Hr.
        now rewrite basename_has_no_slash in Hr.
      * now exists (String c d).
    + destruct (Ascii.eqb_spec c "/") as [->|_].
      * exists "/". split; [reflexivity|]. right. now exists "".
      * exists "". auto.
Qed.

(** X10. The entry recorded for an image that failed names the file
    without its directories: what follows the last slash of the path,
    which is the whole path when it has no slash and is empty when the
    path ends with a slash. *)
Theorem failure_entry_names_file img_path e :
  exists dir name,
    img_path = (dir ++ name)%string /\
    has_slash name = false /\
    (dir = "" \/ exists d, dir = (d ++ "/")%string) /\
    image_failure img_path e = (name ++ " (Error: " ++ str e ++ ")")%string.
Proof.
  destruct (basename_suffix img_path) as (dir & E & Hd).
  exists dir, (basename img_path).
  split; [exact E|]. split; [apply basename_has_no_slash|].
  split; [exact Hd|reflexivity].
Qed.

Lemma endswith_iff suffix : forall s,
  endswith s suffix = true <-> exists prefix, s = (prefix ++ suffix)%string.
Proof.
  intros s. split.
  - induction s as [|c r IH]; cbn [endswith].
    + destruct (String.eqb_spec "" suffix) as [<-|]; [|discriminate].
      intros _. now exists "".
    + destruct (String.eqb_spec (String c r) suffix) as [<-|_].
      * intros _. now exists "".
      * intros H. destruct (IH H) as [pre ->]. now exists (String c pre).
  - intros [pre ->]. induction pre as [|c pre IH]; cbn [String.append].
    + destruct suffix; cbn [endswith]; now rewrite String.eqb_refl.
    + cbn [endswith]. rewrite IH. now destruct (String.eqb _ _).
Qed.

Lemma lower_app a b : lower (a ++ b) = (lower a ++ lower b)%string.
Proof.
  induction a as [|c a IH]; [reflexivity|].
  cbn [String.append lower]. now rewrite IH.
Qed.

Lemma lower_app_inv a b : forall s,
  lower s = (a ++ b)%string ->
  exists s1 s2, s = (s1 ++ s2)%string /\ lower s1 = a /\ lower s2 = b.
Proof.
  induction a as [|c a IH]; intros s E.
  - exists "", s. auto.
  - destruct s as [|d s]; [discriminate|].
    cbn [lower String.append] in E. injection E as Ec E.
    destruct (IH s E) as (s1 & s2 & -> & H1 & H2).
    exists (String d s1), s2. cbn [lower String.append]. now rewrite Ec, H1.
Qed.

(** X11. A dropped path is taken for an image exactly when it ends with
    one of the five suffixes, written in any mix of capitals and small
    letters; nothing is asked of what precedes the suffix, which may be
    empty. *)
Theorem is_image_path_iff path :
  is_image_path path = true <->
  exists stem ext,
    path = (stem ++ ext)%string /\
    In (lower ext) [".jpg"; ".jpeg"; ".png"; ".bmp"; ".tiff"].
Proof.
  unfold is_image_path. rewrite existsb_exists. split.
  - intros (suf & Hin & He). apply endswith_iff in He. destruct He as [pre He].
    destruct (lower_app_inv pre suf path He) as (s1 & s2 & -> & _ & H2).
    exists s1, s2. split; [reflexivity|]. now rewrite H2.
  - intros (stem & ext & -> & Hin). exists (lower ext). split; [exact Hin|].
    apply endswith_iff. exists (lower stem). apply lower_app.
Qed.

Lemma has_slash_eqb s t :
  has_slash s = true -> has_slash t = false -> String.eqb s t = false.
Proof.
  intros Hs Ht. destruct (String.eqb_spec s t) as [->|]; [congruence|reflexivity].
Qed.

Lemma endswith_basename suffix : forall s,
  has_slash suffix = false ->
  endswith (basename s) suffix = endswith s suffix.
Proof.
  intros s Hsuf. induction s as [|c r IH]; [reflexivity|].
  cbn [basename]. destruct (has_slash r) eqn:Hr.
  - rewrite IH. cbn [endswith].
    rewrite has_slash_eqb; [reflexivity| |assumption].
    cbn [has_slash]. rewrite Hr. now destruct (Ascii.eqb c "/").
  - destruct (Ascii.eqb c "/") eqn:Hc; [|reflexivity].
    cbn [endswith]. rewrite has_slash_eqb; [reflexivity| |assumption].
    cbn [has_slash]. now rewrite Hc.
Qed.

Lemma lower_ascii_slash c :
  Ascii.eqb (lower_ascii c) "/" = Ascii.eqb c "/".
Proof.
  unfold lower_ascii.
  destruct ((65 <=? nat_of_ascii c) && (nat_of_ascii c <=? 90))%nat eqn:E;
    [|reflexivity].
  apply andb_true_iff in E. destruct E as [E1 E2].
  apply Nat.leb_le in E1. apply Nat.leb_le in E2.
  destruct (Ascii.eqb_spec c "/") as [->|Hne]; [cbn in E1; lia|].
  destruct (Ascii.eqb_spec (ascii_of_nat (nat_of_ascii c + 32)) "/") as [H|];
    [|reflexivity].
  apply (f_equal nat_of_ascii) in H.
  rewrite nat_ascii_embedding in H by lia. cbn in H. lia.
Qed.

Lemma has_slash_lower s : has_slash (lower s) = has_slash s.
Proof.
  induction s as [|c r IH]; [reflexivity|].
  cbn [lower has_slash]. now rewrite lower_ascii_slash, IH.
Qed.

Lemma lower_basename s : lower (basename s) = basename (lower s).
Proof.
  induction s as [|c r IH]; [reflexivity|].
  cbn [lower basename]. rewrite has_slash_lower, lower_ascii_slash.
  destruct (has_slash r); [exact IH|].
  destruct (Ascii.eqb c "/"); reflexivity.
Qed.

(** X12. Whether a path counts as an image depends on its file name only:
    the text shown for an item passes the suffix test exactly when the
    path stored in it does. *)
Theorem is_image_path_basename path :
  is_image_path (basename path) = is_image_path path.
Proof.
  unfold is_image_path. rewrite lower_basename.
  unfold image_suffixes. cbn [existsb].
  rewrite !endswith_basename by reflexivity. reflexivity.
Qed.

(** * The list widget and the window *)

Lemma drop_fold pixmap_loads urls : forall w,
  fold_left (fun w path =>
               if is_image_path path then add_image_item pixmap_loads path w
               else w) urls w
  = mkDragDropList
      (items w
       ++ map (fun path => mkItem (pixmap_loads path) (basename path) path)
            (filter is_image_path urls))
      (highlighted w).
Proof.
  induction urls as [|p urls IH]; intros w; cbn [fold_left filter map].
  - rewrite app_nil_r. now destruct w.
  - rewrite IH. destruct (is_image_path p); [|reflexivity].
    cbn [add_image_item items highlighted map].
    now rewrite <- app_assoc.
Qed.

(** X13. A drop keeps the items that are listed and appends one item for
    every dropped file with an image suffix, in the order of the drop and
    duplicates included; the item shows the file name, keeps the full path
    as its data, and has an icon when the file loads as a pixmap.  The
    widget is left in its default style. *)
Theorem dropEvent_appends pixmap_loads urls w :
  items (dropEvent pixmap_loads urls w)
  = items w
    ++ map (fun path => mkItem (pixmap_loads path) (basename path) path)
         (filter is_image_path urls) /\
  highlighted (dropEvent pixmap_loads urls w) = false.
Proof. unfold dropEvent. rewrite drop_fold. split; reflexivity. Qed.

Lemma add_fold pixmap_loads files : forall w,
  fold_left (fun w f => add_image_item pixmap_loads f w) files w
  = mkDragDropList
      (items w ++ map (fun f => mkItem (pixmap_loads f) (basename f) f) files)
      (highlighted w).
Proof.
  induction files as [|f files IH]; intros w; cbn [fold_left map].
  - rewrite app_nil_r. now destruct w.
  - rewrite IH. cbn [add_image_item items highlighted].
    now rewrite <- app_assoc.
Qed.

(** X14. The files chosen in the dialog are appended to the images that
    the window holds, in the order of the dialog, whatever their names
    are: unlike a drop, [add_images] does not test the suffix. *)
Theorem add_images_appends pixmap_loads files ui :
  listed_images (add_images pixmap_loads files ui) = listed_images ui ++ files /\
  map item_text (items (list_widget (add_images pixmap_loads files ui)))
  = map item_text (items (list_widget ui)) ++ map basename files.
Proof.
  unfold add_images, listed_images, with_list_widget. cbn [list_widget].
  rewrite add_fold. cbn [items]. rewrite !map_app, !map_map. cbn [item_data item_text].
  now rewrite map_id.
Qed.

Lemma last_default {A} (l : list A) d d' : l <> [] -> last l d = last l d'.
Proof.
  induction l as [|a l IH]; [congruence|]. intros _.
  destruct l as [|b l]; [reflexivity|].
  change (last (a :: b :: l) ?x) with (last (b :: l) x).
  apply IH. discriminate.
Qed.

Lemma progress_slots_fields ps : forall ui,
  let ui' := fold_left progress_slot ps ui in
  page_bg_color ui' = page_bg_color ui /\ worker ui' = worker ui /\
  page_size_combo ui' = page_size_combo ui /\ list_widget ui' = list_widget ui /\
  add_btn ui' = add_btn ui /\ preview_btn ui' = preview_btn ui /\
  clear_btn ui' = clear_btn ui /\ save_btn ui' = save_btn ui /\
  override_cursors ui' = override_cursors ui /\ dialogs ui' = dialogs ui /\
  visible (progress_bar ui') = visible (progress_bar ui).
Proof.
  induction ps as [|p ps IH]; intros ui; cbv zeta; cbn [fold_left].
  - repeat split.
  - specialize (IH (progress_slot ui p)). cbv zeta in IH.
    destruct IH as (H1 & H2 & H3 & H4 & H5 & H6 & H7 & H8 & H9 & H10 & H11).
    rewrite H1, H2, H3, H4, H5, H6, H7, H8, H9, H10, H11.
    unfold progress_slot, with_progress_bar, setValue. cbn.
    repeat split. now destruct (_ && _).
Qed.

Lemma progress_slots_value ps : forall ui,
  Forall (fun p => 0 <= p <= 100) ps ->
  value (progress_bar (fold_left progress_slot ps ui))
  = last ps (value (progress_bar ui)).
Proof.
  induction ps as [|p ps IH]; intros ui Hr; [reflexivity|].
  inversion Hr as [|? ? Hp Hps]; subst. cbn [fold_left].
  rewrite IH by assumption.
  unfold progress_slot, with_progress_bar, setValue. cbn [progress_bar].
  replace ((0 <=? p) && (p <=? 100)) with true
    by (symmetry; apply andb_true_iff; split; apply Z.leb_le; lia).
  cbn [value]. destruct ps as [|q ps]; [reflexivity|].
  change (last (p :: q :: ps) ?d) with (last (q :: ps) d).
  apply last_default. discriminate.
Qed.

(** The worker that [save_pdf] starts, and the window it leaves. *)
Lemma save_pdf_started dest ui :
  listed_images ui <> [] -> dest <> "" ->
  let w := mkPDFWorker (listed_images ui) dest
             (String.eqb (page_size_combo ui) "A4 Page") (page_bg_color ui) in
  save_pdf dest ui
  = (with_worker w
       (with_progress_bar (mkQProgressBar 0 true) (set_ui_busy true ui)),
     Some w).
Proof.
  intros Hl Hf. cbv zeta. unfold save_pdf.
  destruct (listed_images ui) as [|i l] eqn:E; [congruence|].
  destruct (String.eqb_spec dest "") as [->|_]; [congruence|].
  unfold setValue. cbn. reflexivity.
Qed.

Lemma press_save_started world dest ui :
  listed_images ui <> [] -> dest <> "" ->
  let w := mkPDFWorker (listed_images ui) dest
             (String.eqb (page_size_combo ui) "A4 Page") (page_bg_color ui) in
  press_save world dest ui
  = (pdf_finished (finished (run world w))
       (fold_left progress_slot (progress (run world w))
          (with_worker w
             (with_progress_bar (mkQProgressBar 0 true)
                (set_ui_busy true ui)))),
     Some (run world w)).
Proof.
  intros Hl Hf. cbv zeta. unfold press_save.
  rewrite (save_pdf_started dest ui Hl Hf). reflexivity.
Qed.

Lemma example_window_listed : listed_images example_window <> [].
Proof. discriminate. Qed.

Lemma example_dest : "out.pdf" <> "".
Proof. discriminate. Qed.

(** X15. Without an image in the list, or without a file name, no worker
    is started and nothing but the message box changes: an empty list
    gives the error "No images selected!" before any file name is asked
    for, and a cancelled file dialog leaves the window as it is. *)
Theorem press_save_without_worker world dest ui :
  (listed_images ui = [] ->
   press_save world dest ui
   = (show_dialog (critical "Error" "No images selected!") ui, None)) /\
  (listed_images ui <> [] -> dest = "" ->
   press_save world dest ui = (ui, None)) /\
  (snd (press_save world dest ui) <> None <->
   listed_images ui <> [] /\ dest <> "").
Proof.
  unfold press_save, save_pdf.
  destruct (listed_images ui) as [|i l] eqn:E.
  - split; [reflexivity|]. split; [congruence|].
    cbn [snd]. split; [congruence|]. intros [H _]. congruence.
  - split; [discriminate|].
    destruct (String.eqb_spec dest "") as [->|Hne].
    + split; [reflexivity|]. cbn [snd]. split; [congruence|].
      intros [_ H]. congruence.
    + split; [congruence|]. cbn [snd]. split; [|discriminate].
      intros _. split; [discriminate|assumption].
Qed.

(** X16. Creating a document brings the window back to rest: when the
    list holds an image and a file name was chosen, then after the worker
    has run and its signals were handled the four buttons are enabled, the
    stack of override cursors is as before, and the progress bar is hidden
    and stands at 100; the list, the background colour and the page-size
    choice are untouched. *)
Theorem press_save_restores_window world dest ui :
  listed_images ui <> [] -> dest <> "" ->
  let ui' := fst (press_save world dest ui) in
  add_btn ui' = true /\ preview_btn ui' = true /\ clear_btn ui' = true /\
  save_btn ui' = true /\
  override_cursors ui' = override_cursors ui /\
  progress_bar ui' = mkQProgressBar 100 false /\
  list_widget ui' = list_widget ui /\
  page_bg_color ui' = page_bg_color ui /\
  page_size_combo ui' = page_size_combo ui.
Proof.
  intros Hl Hf. cbv zeta. rewrite (press_save_started world _ _ Hl Hf).
  cbv zeta. cbn [fst].
  set (w := mkPDFWorker _ _ _ _). set (ui0 := with_worker _ _).
  destruct (progress_slots_fields (progress (run world w)) ui0)
    as (H1 & H2 & H3 & H4 & H5 & H6 & H7 & H8 & H9 & H10 & H11).
  assert (Hrange : Forall (fun p => 0 <= p <= 100) (progress (run world w)))
    by (rewrite run_progress; apply percent_values_range).
  pose proof (progress_slots_value (progress (run world w)) ui0 Hrange) as Hv.
  rewrite (last_default _ _ 0) in Hv.
  2:{ rewrite run_progress. cbn [images w].
      destruct (listed_images ui); [congruence|]. discriminate. }
  rewrite progress_last in Hv by exact Hl.
  unfold pdf_finished.
  destruct (finished (run world w));
    cbn [show_dialog with_progress_bar set_ui_busy add_btn preview_btn clear_btn
         save_btn override_cursors progress_bar list_widget page_bg_color
         page_size_combo negb value];
    rewrite H1, H3, H4, H9, Hv; repeat split.
Qed.

Lemma press_save_restores_window_witness :
  listed_images example_window <> [] /\ "out.pdf" <> "" /\
  let ui' := fst (press_save example_world "out.pdf" example_window) in
  save_btn ui' = true /\ override_cursors ui' = [] /\
  progress_bar ui' = mkQProgressBar 100 false.
Proof.
  split; [exact example_window_listed|]. split; [exact example_dest|].
  destruct (press_save_restores_window example_world "out.pdf" example_window
              example_window_listed example_dest)
    as (_ & _ & _ & H4 & H5 & H6 & _).
  cbv zeta. split; [exact H4|]. split; [exact H5|exact H6].
Defined.

(** X17. The message after a run says "Success" exactly when every image
    was opened, laid out and drawn and the document was written; otherwise
    it is the "Partial Success" warning that lists the entries of the
    worker, one per line.  One message is added per run. *)
Theorem press_save_message world dest ui :
  listed_images ui <> [] -> dest <> "" ->
  let w := mkPDFWorker (listed_images ui) dest
             (String.eqb (page_size_combo ui) "A4 Page") (page_bg_color ui) in
  let ok := forallb (fun p => is_ok (attempt world w Units.A4 p))
              (listed_images ui)
            && match file_write world dest with
               | None => true
               | Some _ => false
               end in
  dialogs (fst (press_save world dest ui))
  = dialogs ui
    ++ [if ok then information "Success" "PDF created successfully!"
        else warning "Partial Success"
               ("PDF created, but some images failed:" ++ newline
                ++ String.concat newline (finished (run world w)))].
Proof.
  intros Hl Hf. cbv zeta. rewrite (press_save_started world _ _ Hl Hf).
  cbv zeta. cbn [fst].
  set (w := mkPDFWorker _ _ _ _). set (ui0 := with_worker _ _).
  destruct (progress_slots_fields (progress (run world w)) ui0)
    as (_ & _ & _ & _ & _ & _ & _ & _ & _ & H10 & _).
  pose proof (run_finished world w) as Hfin.
  pose proof (failure_entries_nil world w Units.A4 (images w)) as Hnil.
  cbn [images output_file w] in Hfin, Hnil. fold w in Hfin, Hnil.
  unfold pdf_finished.
  destruct (forallb _ _ && _) eqn:Eok.
  - apply andb_true_iff in Eok. destruct Eok as [E1 E2].
    assert (E : finished (run world w) = []).
    { rewrite Hfin, (proj2 Hnil).
      - destruct (file_write world dest); [discriminate|reflexivity].
      - apply Forall_forall. rewrite forallb_forall in E1. exact E1. }
    rewrite E. cbn [show_dialog with_progress_bar set_ui_busy dialogs].
    now rewrite H10.
  - destruct (finished (run world w)) as [|s l] eqn:Efin.
    + exfalso. symmetry in Hfin. apply app_eq_nil in Hfin.
      destruct Hfin as [H1 H2]. apply Hnil in H1.
      assert (Ef : forallb (fun p => is_ok (attempt world w Units.A4 p))
                     (listed_images ui) = true).
      { apply forallb_forall. rewrite Forall_forall in H1. exact H1. }
      rewrite Ef in Eok. destruct (file_write world dest); discriminate.
    + cbn [show_dialog with_progress_bar set_ui_busy dialogs]. now rewrite H10.
Qed.

Lemma press_save_message_witness :
  listed_images example_window <> [] /\ "out.pdf" <> "" /\
  dialogs (fst (press_save example_world "out.pdf" example_window))
  = [information "Success" "PDF created successfully!"].
Proof.
  split; [exact example_window_listed|]. split; [exact example_dest|].
  exact (press_save_message example_world "out.pdf" example_window
           example_window_listed example_dest).
Defined.

(** X18. When the document cannot be written, the window still announces
    "PDF created, but some images failed", with the entry of the failed
    creation as the last line, although no document was saved. *)
Theorem write_failure_announced world dest ui e :
  listed_images ui <> [] -> dest <> "" ->
  file_write world dest = Some e ->
  exists out entries,
    snd (press_save world dest ui) = Some out /\
    saved (document out) = false /\
    finished out = entries ++ ["PDF creation failed: " ++ str e]%string /\
    dialogs (fst (press_save world dest ui))
    = dialogs ui
      ++ [warning "Partial Success"
            ("PDF created, but some images failed:" ++ newline
             ++ String.concat newline
                  (entries ++ ["PDF creation failed: " ++ str e]%string))].
Proof.
  intros Hl Hf Hw.
  pose proof (press_save_started world _ _ Hl Hf) as Hs. cbv zeta in Hs.
  set (w := mkPDFWorker _ _ _ _) in Hs.
  exists (run world w), (failure_entries world w Units.A4 (images w)).
  rewrite Hs. cbn [fst snd].
  pose proof (run_finished world w) as Hfin. cbn [output_file w] in Hfin.
  fold w in Hfin. rewrite Hw in Hfin.
  pose proof (run_saved world w) as Hsv. cbn [output_file w] in Hsv.
  fold w in Hsv. rewrite Hw in Hsv.
  split; [reflexivity|]. split; [exact Hsv|]. split; [exact Hfin|].
  rewrite Hfin. unfold pdf_finished.
  destruct (progress_slots_fields (progress (run world w))
              (with_worker w
                 (with_progress_bar (mkQProgressBar 0 true)
                    (set_ui_busy true ui))))
    as (_ & _ & _ & _ & _ & _ & _ & _ & _ & H10 & _).
  destruct (failure_entries world w Units.A4 (images w) ++ _) eqn:E.
  - apply app_eq_nil in E. destruct E; discriminate.
  - cbn [show_dialog with_progress_bar set_ui_busy dialogs]. now rewrite H10.
Qed.

Lemma write_failure_announced_witness :
  listed_images example_window <> [] /\ "out.pdf" <> "" /\
  file_write readonly_world "out.pdf" = Some (OSError "Permission denied") /\
  exists out entries,
    snd (press_save readonly_world "out.pdf" example_window) = Some out /\
    saved (document out) = false /\
    finished out
    = entries ++ ["PDF creation failed: " ++ str (OSError "Permission denied")]%string /\
    dialogs (fst (press_save readonly_world "out.pdf" example_window))
    = dialogs example_window
      ++ [warning "Partial Success"
            ("PDF created, but some images failed:" ++ newline
             ++ String.concat newline
                  (entries
                   ++ ["PDF creation failed: "
                       ++ str (OSError "Permission denied")]%string))].
Proof.
  split; [exact example_window_listed|]. split; [exact example_dest|].
  split; [reflexivity|].
  exact (write_failure_announced readonly_world "out.pdf" example_window
           (OSError "Permission denied") example_window_listed example_dest
           eq_refl).
Defined.

(** * The window over time *)

Lemma setValue_range v b :
  0 <= value b <= 100 -> 0 <= value (setValue v b) <= 100.
Proof.
  intros Hb. unfold setValue.
  destruct ((0 <=? v) && (v <=? 100)) eqn:E; [|exact Hb].
  apply andb_true_iff in E. destruct E as [E1 E2].
  apply Z.leb_le in E1. apply Z.leb_le in E2. cbn [value]. lia.
Qed.

Lemma setValue_visible v b : visible (setValue v b) = visible b.
Proof. unfold setValue. now destruct (_ && _). Qed.

Lemma named_items_app pixmap_loads its paths :
  Forall (fun it => item_text it = basename (item_data it)) its ->
  Forall (fun it => item_text it = basename (item_data it))
    (its ++ map (fun p => mkItem (pixmap_loads p) (basename p) p) paths).
Proof.
  intros H. apply Forall_app. split; [exact H|].
  apply Forall_forall. intros it Hit. apply in_map_iff in Hit.
  destruct Hit as (p & <- & _). reflexivity.
Qed.

Lemma handle_ok world pixmap_loads a ev :
  app_ok a -> app_ok (handle world pixmap_loads a ev).
Proof.
  intros (Hn & Hv & Hq). destruct a as [ui q]. cbn [window queued] in *.
  destruct ev; unfold app_ok; cbn [handle window queued].
  - (* a drop *)
    split; [|split; [exact Hv|]].
    + unfold named_items. cbn [with_list_widget list_widget].
      unfold dropEvent, reset_style. rewrite drop_fold. cbn [items].
      now apply named_items_app.
    + destruct q; [exact Hq|exact Hq].
  - (* add *)
    destruct (add_btn ui) eqn:Eb; [|exact (conj Hn (conj Hv Hq))].
    cbn [window queued]. split; [|split; [exact Hv|]].
    + unfold named_items, add_images. cbn [with_list_widget list_widget].
      rewrite add_fold. cbn [items]. now apply named_items_app.
    + destruct q; [exact Hq|].
      destruct Hq as [(H & _) _]. congruence.
  - (* preview *)
    destruct (preview_btn ui) eqn:Eb; [|exact (conj Hn (conj Hv Hq))].
    cbn [window queued].
    assert (E : forall d, named_items (show_dialog d ui) /\
                          0 <= value (progress_bar (show_dialog d ui)) <= 100 /\
                          (at_rest ui -> at_rest (show_dialog d ui))).
    { intros d. split; [exact Hn|]. split; [exact Hv|]. intros H. exact H. }
    destruct q.
    2:{ destruct Hq as [(_ & H & _) _]. congruence. }
    unfold preview_images. destruct (listed_images ui);
      (split; [apply E|split; [apply E|apply E, Hq]]).
  - (* clear *)
    destruct (clear_btn ui) eqn:Eb; [|exact (conj Hn (conj Hv Hq))].
    cbn [window queued]. split; [constructor|]. split; [exact Hv|].
    destruct q; [exact Hq|].
    destruct Hq as [(_ & _ & H & _) _]. congruence.
  - (* save *)
    destruct (save_btn ui) eqn:Eb; [|exact (conj Hn (conj Hv Hq))].
    destruct q as [|s q].
    2:{ destruct Hq as [(_ & _ & _ & H & _) _]. congruence. }
    destruct Hq as (H1 & H2 & H3 & H4 & H5 & H6).
    unfold save_pdf. destruct (listed_images ui) as [|i l] eqn:El.
    { cbn [window queued]. split; [exact Hn|]. split; [exact Hv|].
      exact (conj H1 (conj H2 (conj H3 (conj H4 (conj H5 H6))))). }
    destruct (String.eqb dest "").
    { cbn [window queued]. split; [exact Hn|]. split; [exact Hv|].
      exact (conj H1 (conj H2 (conj H3 (conj H4 (conj H5 H6))))). }
    cbn [window queued app]. split; [exact Hn|]. split.
    { cbv zeta.
      cbn [window with_worker with_progress_bar progress_bar value set_ui_busy].
      apply setValue_range. exact Hv. }
    unfold emitted.
    destruct (map progress_signal _ ++ [_]) eqn:Em.
    { apply app_eq_nil in Em. destruct Em; discriminate. }
    split; [|cbn [queued]; rewrite <- Em; do 2 eexists; reflexivity].
    unfold busy. cbv zeta.
    cbn [window with_worker with_progress_bar progress_bar value visible
         set_ui_busy add_btn preview_btn clear_btn save_btn override_cursors
         negb].
    rewrite H5. repeat split.
  - (* the background colour *)
    assert (E : named_items (select_bg_color color ui) /\
                value (progress_bar (select_bg_color color ui))
                = value (progress_bar ui) /\
                (at_rest ui -> at_rest (select_bg_color color ui)) /\
                (busy ui -> busy (select_bg_color color ui))).
    { destruct color; cbn [select_bg_color];
        (split; [exact Hn|]; split; [reflexivity|]; split; intros Hx; exact Hx). }
    destruct E as (E1 & E2 & E3 & E4).
    split; [exact E1|]. split; [now rewrite E2|].
    destruct q; [apply E3, Hq|]. destruct Hq as [Hb Hs].
    split; [apply E4, Hb|exact Hs].
  - (* the page size *)
    split; [exact Hn|]. split; [exact Hv|].
    destruct q; [exact Hq|exact Hq].
  - (* a signal *)
    destruct q as [|s q]; [exact (conj Hn (conj Hv Hq))|].
    destruct Hq as [Hb (ps & failed & Hs)]. cbn [window queued].
    destruct Hb as (H1 & H2 & H3 & H4 & H5 & H6).
    destruct ps as [|p ps]; cbn [map app] in Hs.
    + injection Hs as -> ->. cbn [slot].
      unfold pdf_finished.
      split; [destruct failed; exact Hn|].
      split; [destruct failed; exact Hv|].
      unfold at_rest.
      destruct failed;
        cbn [show_dialog with_progress_bar set_ui_busy add_btn preview_btn
             clear_btn save_btn override_cursors progress_bar visible negb];
        rewrite H5; repeat split.
    + injection Hs as -> ->. cbn [slot].
      split; [exact Hn|]. split.
      { unfold progress_slot. cbn [with_progress_bar progress_bar].
        apply setValue_range, Hv. }
      destruct (map progress_signal ps ++ [finished_signal failed]) eqn:Em.
      { apply app_eq_nil in Em. destruct Em; discriminate. }
      split; [|cbn [queued]; rewrite <- Em; do 2 eexists; reflexivity].
      unfold busy, progress_slot.
      cbn [with_progress_bar add_btn preview_btn clear_btn save_btn
           override_cursors progress_bar].
      rewrite setValue_visible. repeat split; assumption.
Qed.

(** X19. Whatever the user does and whenever the signals arrive, the window is
    in one of two states: at rest, with the four buttons enabled, no
    override cursor and the progress bar hidden, and then no signal is
    awaited; or busy, with the four buttons disabled, the wait cursor set
    once and the progress bar shown, and then the signals of exactly one
    run are awaited, the last of which is [finished].  The value of the
    progress bar stays between 0 and 100, and every item of the list shows
    the file name of the path it stores. *)
Theorem window_rest_or_busy world pixmap_loads events :
  let a := fold_left (handle world pixmap_loads) events (mkApp new_window []) in
  Forall (fun it => item_text it = basename (item_data it))
    (items (list_widget (window a))) /\
  0 <= value (progress_bar (window a)) <= 100 /\
  match queued a with
  | [] => at_rest (window a)
  | _ :: _ =>
      busy (window a) /\
      exists ps failed_images,
        queued a = map progress_signal ps ++ [finished_signal failed_images]
  end.
Proof.
  cbv zeta.
  assert (H : forall a, app_ok a ->
                app_ok (fold_left (handle world pixmap_loads) events a)).
  { induction events as [|ev events IH]; intros a Ha; [exact Ha|].
    cbn [fold_left]. apply IH, handle_ok, Ha. }
  apply (H (mkApp new_window [])).
  split; [constructor|]. split; [cbn; lia|]. cbn. repeat split.
Qed.

Lemma deliver_all world pixmap_loads sigs : forall ui,
  fold_left (handle world pixmap_loads) (repeat deliver (List.length sigs))
    (mkApp ui sigs)
  = mkApp (fold_left (fun ui s => slot s ui) sigs ui) [].
Proof.
  induction sigs as [|s sigs IH]; intros ui; [reflexivity|].
  cbn [List.length repeat fold_left handle window queued]. apply IH.
Qed.

Lemma slots_of_emitted out ui :
  fold_left (fun ui s => slot s ui) (emitted out) ui
  = pdf_finished (finished out) (fold_left progress_slot (progress out) ui).
Proof.
  unfold emitted. rewrite fold_left_app. cbn [fold_left slot]. f_equal.
  generalize (progress out). intros ps. revert ui.
  induction ps as [|p ps IH]; intros ui; [reflexivity|].
  cbn [map fold_left slot]. apply IH.
Qed.

(** X20. A click on the enabled save button followed by the delivery of the
    signals of the worker, one per image and one for [finished], gives the
    window of [press_save], with nothing left in the queue. *)
Theorem save_then_signals world pixmap_loads dest ui :
  save_btn ui = true ->
  fold_left (handle world pixmap_loads)
    (click_save dest :: repeat deliver (S (List.length (listed_images ui))))
    (mkApp ui [])
  = mkApp (fst (press_save world dest ui)) [].
Proof.
  intros Hb. cbn [fold_left handle window queued]. rewrite Hb.
  unfold press_save.
  destruct (save_pdf dest ui) as [ui' [w|]] eqn:Es.
  - assert (Ew : images w = listed_images ui).
    { unfold save_pdf in Es. destruct (listed_images ui); [discriminate|].
      destruct (String.eqb dest ""); [discriminate|].
      injection Es as _ <-. reflexivity. }
    cbn [app fst].
    replace (S (List.length (listed_images ui)))
      with (List.length (emitted (run world w))).
    + rewrite deliver_all. now rewrite slots_of_emitted.
    + unfold emitted. rewrite length_app, length_map, run_progress, length_map,
        indices_length, Ew. cbn [List.length]. lia.
  - cbn [fst]. generalize (S (List.length (listed_images ui))). intros n.
    induction n as [|n IH]; [reflexivity|]. exact IH.
Qed.

Lemma save_then_signals_witness :
  save_btn example_window = true /\
  fold_left (handle example_world (fun _ => true))
    [click_save "out.pdf"; deliver; deliver]
    (mkApp example_window [])
  = mkApp (fst (press_save example_world "out.pdf" example_window)) [].
Proof.
  split; [reflexivity|].
  exact (save_then_signals example_world (fun _ => true) "out.pdf"
           example_window eq_refl).
Defined.
